(** * Workflow admin: execution sync, table sync, record search, node timeline

    A shallow embedding of the server-side code of the workflow admin app
    (n8n execution index, Softr schema cache, Softr record search and the
    execution detail loader), with the properties of its specification
    stated and proved against the embedding, followed by further
    properties of the same code: the sync passes as a whole, the search
    and its route, the workflow list cache and the execution id of a
    workflow URL. *)

From stdpp Require Import gmap strings pretty list fin_maps sorting.
From Stdlib Require Import ZArith Lia Ascii.

Local Open Scope string_scope.
Local Open Scope Z_scope.
Local Open Scope list_scope.
Local Set Warnings "-register-all".

(** ** JavaScript values and exceptions *)

Module Js.

(** A computation that either returns or throws. *)
Inductive Result (A : Type) : Type :=
| Ok (a : A)
| Throw (msg : string).
Arguments Ok {A} a.
Arguments Throw {A} msg.

Definition rbind {A B} (r : Result A) (k : A -> Result B) : Result B :=
  match r with
  | Ok a => k a
  | Throw m => Throw m
  end.

(** JSON documents as the code sees them, plus [undefined] for absent
    properties.  Numbers are the integers among JavaScript's numbers, with
    [JNaN] for a failed coercion.  An object lists its own properties in
    the order [Object.keys] enumerates them. *)
Inductive JsVal : Type :=
| JUndefined
| JNull
| JBool (b : bool)
| JNum (n : Z)
| JNaN
| JStr (s : string)
| JArr (items : list JsVal)
| JObj (props : list (string * JsVal)).

(** [Boolean(v)], the test behind [if (v)], [!v], [||] and [filter(Boolean)]. *)
Definition truthy (v : JsVal) : bool :=
  match v with
  | JUndefined | JNull | JNaN => false
  | JBool b => b
  | JNum n => negb (n =? 0)
  | JStr s => negb (String.eqb s "")
  | JArr _ | JObj _ => true
  end.

(** [v == null] *)
Definition nullish (v : JsVal) : bool :=
  match v with
  | JUndefined | JNull => true
  | _ => false
  end.

(** [v !== undefined] *)
Definition defined (v : JsVal) : bool :=
  match v with
  | JUndefined => false
  | _ => true
  end.

(** [typeof v === "object"] *)
Definition typeof_object (v : JsVal) : bool :=
  match v with
  | JNull | JArr _ | JObj _ => true
  | _ => false
  end.

(** [Array.isArray(v)] *)
Definition Array_isArray (v : JsVal) : bool :=
  match v with
  | JArr _ => true
  | _ => false
  end.

(** [a ?? b] *)
Definition coalesce (a b : JsVal) : JsVal := if nullish a then b else a.

Definition chars (s : string) : list JsVal :=
  map (fun c => JStr (String c EmptyString)) (String.list_ascii_of_string s).

Definition indexed (l : list JsVal) : list (string * JsVal) :=
  imap (fun i x => (pretty i, x)) l.

(** The own enumerable properties of a value, in [Object.keys] order:
    the properties of an object, the indices of an array or of a string. *)
Definition own_props (v : JsVal) : list (string * JsVal) :=
  match v with
  | JObj ps => ps
  | JArr l => indexed l
  | JStr s => indexed (chars s)
  | _ => []
  end.

Fixpoint assoc (k : string) (ps : list (string * JsVal)) : JsVal :=
  match ps with
  | [] => JUndefined
  | (k', v) :: ps' => if String.eqb k k' then v else assoc k ps'
  end.

(** [Object.keys(v)] for a non-nullish [v]. *)
Definition Object_keys (v : JsVal) : list string := map fst (own_props v).

(** [v.k] and [v[k]] for a [v] known not to be nullish and a key [k]
    that is an own key of [v] or that no prototype defines, as the keys
    written out in the code are: the own property, [undefined] without
    one.  A key chosen by the caller is read with [read] below. *)
Definition get (v : JsVal) (k : string) : JsVal := assoc k (own_props v).

(** [v.k]: a [TypeError] when [v] is [null] or [undefined]. *)
Definition get_strict (v : JsVal) (k : string) : Result JsVal :=
  if nullish v
  then Throw "TypeError: Cannot read properties of null or undefined"
  else Ok (get v k).

(** [v?.k] and [v?.[k]] *)
Definition opt_get (v : JsVal) (k : string) : JsVal :=
  if nullish v then JUndefined else get v k.

(** The sequence a [for (const x of v)] walks: the elements of an array,
    the characters of a string; any other value is not iterable. *)
Definition iterate (v : JsVal) : Result (list JsVal) :=
  match v with
  | JArr l => Ok l
  | JStr s => Ok (chars s)
  | _ => Throw "TypeError: value is not iterable"
  end.

(** The elements where [iterate] succeeds, nothing where it throws. *)
Definition elems (v : JsVal) : list JsVal :=
  match v with
  | JArr l => l
  | JStr s => chars s
  | _ => []
  end.

(** A loop body either falls through ([None]) or makes the enclosing
    function return ([Some r]). *)
Fixpoint for_each {A B} (body : B -> Result (option A)) (l : list B)
  : Result (option A) :=
  match l with
  | [] => Ok None
  | x :: l' =>
      match body x with
      | Throw m => Throw m
      | Ok (Some r) => Ok (Some r)
      | Ok None => for_each body l'
      end
  end.

Definition for_of {A} (body : JsVal -> Result (option A)) (v : JsVal)
  : Result (option A) :=
  rbind (iterate v) (for_each body).

Definition join (sep : string) (parts : list string) : string :=
  match parts with
  | [] => ""
  | p :: ps => fold_left (fun acc q => acc +:+ sep +:+ q) ps p
  end.

(** [String(v)] *)
Fixpoint String_ (v : JsVal) : string :=
  match v with
  | JUndefined => "undefined"
  | JNull => "null"
  | JBool true => "true"
  | JBool false => "false"
  | JNum n => pretty n
  | JNaN => "NaN"
  | JStr s => s
  | JArr l =>
      join "," (map (fun x => if nullish x then "" else String_ x) l)
  | JObj _ => "[object Object]"
  end.

(** *** Reading a property by a computed key

    [v[k]] with a key chosen by the caller finds an own property of [v],
    the [length] of an array or of a string, or a member of the prototype
    chain of [v]: a built-in function or, behind [__proto__], the
    prototype itself.  The tables list the members ECMAScript 2023 and its
    Annex B give the prototypes of the JSON kinds of value. *)
Inductive Native : Type :=
| BuiltinFunction (name : string)
| Prototype (kind : string).

Inductive Found : Type :=
| Value (v : JsVal)
| Member (m : Native).

Definition methods (names : list string) : list (string * Native) :=
  map (fun n => (n, BuiltinFunction n)) names.

Definition Object_prototype : list (string * Native) :=
  ("constructor", BuiltinFunction "Object") ::
  ("__proto__", Prototype "Object") ::
  methods ["__defineGetter__"; "__defineSetter__"; "hasOwnProperty";
           "__lookupGetter__"; "__lookupSetter__"; "isPrototypeOf";
           "propertyIsEnumerable"; "toString"; "valueOf"; "toLocaleString"].

Definition Array_prototype : list (string * Native) :=
  ("constructor", BuiltinFunction "Array") ::
  ("__proto__", Prototype "Array") ::
  methods ["at"; "concat"; "copyWithin"; "entries"; "every"; "fill";
           "filter"; "find"; "findIndex"; "findLast"; "findLastIndex";
           "flat"; "flatMap"; "forEach"; "includes"; "indexOf"; "join";
           "keys"; "lastIndexOf"; "map"; "pop"; "push"; "reduce";
           "reduceRight"; "reverse"; "shift"; "slice"; "some"; "sort";
           "splice"; "toLocaleString"; "toReversed"; "toSorted";
           "toSpliced"; "toString"; "unshift"; "values"; "with"].

Definition String_prototype : list (string * Native) :=
  ("constructor", BuiltinFunction "String") ::
  ("__proto__", Prototype "String") ::
  ("trimLeft", BuiltinFunction "trimStart") ::
  ("trimRight", BuiltinFunction "trimEnd") ::
  methods ["anchor"; "at"; "big"; "blink"; "bold"; "charAt"; "charCodeAt";
           "codePointAt"; "concat"; "endsWith"; "fixed"; "fontcolor";
           "fontsize"; "includes"; "indexOf"; "isWellFormed"; "italics";
           "lastIndexOf"; "link"; "localeCompare"; "match"; "matchAll";
           "normalize"; "padEnd"; "padStart"; "repeat"; "replace";
           "replaceAll"; "search"; "slice"; "small"; "split"; "startsWith";
           "strike"; "sub"; "substr"; "substring"; "sup";
           "toLocaleLowerCase"; "toLocaleUpperCase"; "toLowerCase";
           "toString"; "toUpperCase"; "toWellFormed"; "trim"; "trimEnd";
           "trimStart"; "valueOf"].

Definition Number_prototype : list (string * Native) :=
  ("constructor", BuiltinFunction "Number") ::
  ("__proto__", Prototype "Number") ::
  methods ["toExponential"; "toFixed"; "toLocaleString"; "toPrecision";
           "toString"; "valueOf"].

Definition Boolean_prototype : list (string * Native) :=
  ("constructor", BuiltinFunction "Boolean") ::
  ("__proto__", Prototype "Boolean") ::
  methods ["toString"; "valueOf"].

(** The members a value inherits, the nearest prototype first. *)
Definition prototype_chain (v : JsVal) : list (string * Native) :=
  match v with
  | JObj _ => Object_prototype
  | JArr _ => Array_prototype ++ Object_prototype
  | JStr _ => String_prototype ++ Object_prototype
  | JNum _ | JNaN => Number_prototype ++ Object_prototype
  | JBool _ => Boolean_prototype ++ Object_prototype
  | JUndefined | JNull => []
  end.

(** The own [length] of an array or of a string. *)
Definition own_length (v : JsVal) : option Z :=
  match v with
  | JArr l => Some (Z.of_nat (length l))
  | JStr s => Some (Z.of_nat (String.length s))
  | _ => None
  end.

Fixpoint lookup_first {A} (k : string) (ps : list (string * A)) : option A :=
  match ps with
  | [] => None
  | (k', x) :: ps' => if String.eqb k k' then Some x else lookup_first k ps'
  end.

(** The [length] of the functions an object inherits from
    [Object.prototype]: the number of their declared parameters. *)
Definition builtin_arity : list (string * Z) :=
  [("Object", 1); ("__defineGetter__", 2); ("__defineSetter__", 2);
   ("hasOwnProperty", 1); ("__lookupGetter__", 1); ("__lookupSetter__", 1);
   ("isPrototypeOf", 1); ("propertyIsEnumerable", 1); ("toString", 0);
   ("valueOf", 0); ("toLocaleString", 0)].

(** [m.length] for an inherited member [m]: a prototype object has
    none. *)
Definition member_length (m : Native) : option Z :=
  match m with
  | BuiltinFunction name => lookup_first name builtin_arity
  | Prototype _ => None
  end.

(** [v[k]] for a [v] known not to be nullish and any key [k]. *)
Definition read (v : JsVal) (k : string) : Found :=
  match lookup_first k (own_props v) with
  | Some x => Value x
  | None =>
      match own_length v with
      | Some n =>
          if String.eqb k "length" then Value (JNum n)
          else match lookup_first k (prototype_chain v) with
               | Some m => Member m
               | None => Value JUndefined
               end
      | None =>
          match lookup_first k (prototype_chain v) with
          | Some m => Member m
          | None => Value JUndefined
          end
      end
  end.

(** [v?.[k]] for any key [k]. *)
Definition opt_read (v : JsVal) (k : string) : Found :=
  if nullish v then Value JUndefined else read v k.

(** [f !== undefined] and [f != null] for what a read found. *)
Definition found_defined (f : Found) : bool :=
  match f with
  | Value v => defined v
  | Member _ => true
  end.

Definition found_nullish (f : Found) : bool :=
  match f with
  | Value v => nullish v
  | Member _ => false
  end.

(** [String(f)]: a built-in function prints as its source text. *)
Definition String_found (f : Found) : string :=
  match f with
  | Value v => String_ v
  | Member (BuiltinFunction name) =>
      "function " +:+ name +:+ "() { [native code] }"
  | Member (Prototype "Object") => "[object Object]"
  | Member (Prototype "Number") => "0"
  | Member (Prototype "Boolean") => "false"
  | Member (Prototype _) => ""
  end.

(** The names some prototype above defines, and [length]: every other
    key reads own properties only, whatever the value. *)
Definition builtin_names : list string :=
  "length" ::
  map fst (Object_prototype ++ Array_prototype ++ String_prototype ++
           Number_prototype ++ Boolean_prototype).

Definition plain_key (k : string) : Prop := ~ In k builtin_names.

(** How [console.log] prints an array of strings, on one line; the form
    for arrays short enough for it. *)
Definition inspect_strings (l : list string) : string :=
  match l with
  | [] => "[]"
  | _ => "[ " +:+ join ", " (map (fun x => "'" +:+ x +:+ "'") l) +:+ " ]"
  end.

End Js.

Import Js.

(** ** The n8n client: pulling one value out of an execution document *)

Module N8n.

(** [item?.json?.[key] !== undefined] returns [item.json[key]]. *)
Definition scan_item (key : string) (item : JsVal) : Result (option Found) :=
  let v := opt_read (opt_get item "json") key in
  if found_defined v then Ok (Some v) else Ok None.

Definition scan_output (key : string) (output : JsVal)
  : Result (option Found) :=
  if truthy output then for_of (scan_item key) output else Ok None.

Definition scan_run (key : string) (run : JsVal) : Result (option Found) :=
  let outputs := opt_get (opt_get run "data") "main" in
  if truthy outputs then for_of (scan_output key) outputs else Ok None.

Definition scan_node (key : string) (runData : JsVal) (nodeName : string)
  : Result (option Found) :=
  for_of (scan_run key) (get runData nodeName).

Definition scan_runData (key : string) (runData : JsVal)
  : Result (option Found) :=
  for_each (scan_node key runData) (Object_keys runData).

(** [execution?.customData?.[key]] *)
Definition top_level_value (execution : JsVal) (key : string) : Found :=
  opt_read (opt_get execution "customData") key.

(** [execution?.annotation?.customData?.[key]] *)
Definition annotation_value (execution : JsVal) (key : string) : Found :=
  opt_read (opt_get (opt_get execution "annotation") "customData") key.

Definition runData_of (execution : JsVal) : JsVal :=
  opt_get (opt_get (opt_get execution "data") "resultData") "runData".

(** The line of
    [console.log("[n8n] Execution top-level keys:", Object.keys(execution || {}))]. *)
Definition debug_line (execution : JsVal) : string :=
  "[n8n] Execution top-level keys: " +:+
  inspect_strings (if truthy execution then Object_keys execution else []).

(** The body of the [try] block: what it returns and the lines it
    writes to the console. *)
Definition extract_try (execution : JsVal) (key : string)
  : Result (Found * list string) :=
  if found_defined (top_level_value execution key)
  then Ok (top_level_value execution key, [])
  else if found_defined (annotation_value execution key)
  then Ok (annotation_value execution key, [])
  else
    let runData := runData_of execution in
    if negb (truthy runData) then Ok (Value JNull, [debug_line execution])
    else
      match scan_runData key runData with
      | Throw m => Throw m
      | Ok (Some v) => Ok (v, [])
      | Ok None => Ok (Value JNull, [])
      end.

(** [extractFromExecutionData(execution, key)]: the [catch] turns every
    exception of the body into [null]. *)
Definition extractFromExecutionData (execution : JsVal) (key : string)
  : Result (Found * list string) :=
  match extract_try execution key with
  | Throw _ => Ok (Value JNull, [])
  | Ok r => Ok r
  end.

End N8n.

(** ** The key extractor, described

    What the extractor is to find, in the words of its specification and
    without the code's own lookups. *)

Module N8nSpec.

(** The value an object, a list or a string holds under a key of its own,
    [undefined] where it holds none. *)
Definition held (v : JsVal) (key : string) : JsVal :=
  match List.find (fun entry => String.eqb (fst entry) key) (own_props v) with
  | Some entry => snd entry
  | None => JUndefined
  end.

(** The top-level custom data, the custom data of the annotation and the
    run data of a document. *)
Definition custom_data (execution : JsVal) : JsVal := held execution "customData".

Definition annotation_data (execution : JsVal) : JsVal :=
  held (held execution "annotation") "customData".

Definition run_data (execution : JsVal) : JsVal :=
  held (held (held execution "data") "resultData") "runData".

(** What a walk over the run data comes by, in order: an output item, or
    a part that cannot be walked where a list is expected. *)
Inductive Sight : Type :=
| Item (item : JsVal)
| Broken.

(** The elements of what can be walked: a list, or a string by its
    characters. *)
Definition listed (v : JsVal) : option (list JsVal) :=
  match v with
  | JArr l => Some l
  | JStr s => Some (chars s)
  | _ => None
  end.

Definition sights_of_output (output : JsVal) : list Sight :=
  if truthy output
  then match listed output with
       | Some items => map Item items
       | None => [Broken]
       end
  else [].

Definition sights_of_run (run : JsVal) : list Sight :=
  let outputs := held (held run "data") "main" in
  if truthy outputs
  then match listed outputs with
       | Some channels => flat_map sights_of_output channels
       | None => [Broken]
       end
  else [].

Definition sights_of_node (runs : JsVal) : list Sight :=
  match listed runs with
  | Some l => flat_map sights_of_run l
  | None => [Broken]
  end.

(** Every node's every run's every output item, in node-map order. *)
Definition sights (runData : JsVal) : list Sight :=
  flat_map (fun nodeName => sights_of_node (held runData nodeName))
           (map fst (own_props runData)).

(** How a walk over sights ends: it breaks off at a broken part
    ([None]), returns at the first item holding the key, or comes to the
    end. *)
Fixpoint walk (key : string) (l : list Sight) : option (option Found) :=
  match l with
  | [] => Some None
  | Broken :: _ => None
  | Item item :: rest =>
      if defined (held (held item "json") key)
      then Some (Some (Value (held (held item "json") key)))
      else walk key rest
  end.

(** The end of a scan, a throw forgotten for its message. *)
Definition settled (r : Result (option Found)) : option (option Found) :=
  match r with
  | Ok x => Some x
  | Throw _ => None
  end.

(** The payload of the first item that holds the key, unless a broken
    part comes first; none ([null]) otherwise. *)
Fixpoint verdict (key : string) (l : list Sight) : JsVal :=
  match l with
  | [] => JNull
  | Broken :: _ => JNull
  | Item item :: rest =>
      match held (held item "json") key with
      | JUndefined => verdict key rest
      | v => v
      end
  end.

(** What the document holds for a key: the value of the top-level custom
    data if it holds one, else the value of the annotation's custom data
    if it holds one, else the verdict of the scan. *)
Definition found (execution : JsVal) (key : string) : JsVal :=
  let top := held (custom_data execution) key in
  let ann := held (annotation_data execution) key in
  if defined top then top
  else if defined ann then ann
  else verdict key (sights (run_data execution)).

(** The document has no value for the key in either custom data and no
    run data to scan. *)
Definition nowhere_to_look (execution : JsVal) (key : string) : bool :=
  negb (defined (held (custom_data execution) key)) &&
  negb (defined (held (annotation_data execution) key)) &&
  negb (truthy (run_data execution)).

(** The document deviates from the expected structure somewhere in its
    run data. *)
Definition deviates (execution : JsVal) : Prop :=
  In Broken (sights (run_data execution)).

End N8nSpec.

(** ** Stateful code that may throw or still be running *)

Module Eff.

(** How an asynchronous function stands after a bounded number of loop
    iterations: it returned, it threw, or it has not finished yet. *)
Inductive Outcome (A : Type) : Type :=
| Done (a : A)
| Raised (msg : string)
| Pending.
Arguments Done {A} a.
Arguments Raised {A} msg.
Arguments Pending {A}.

(** The state is kept whatever the outcome: writes made before a throw
    stay made. *)
Definition M (S A : Type) : Type := S -> Outcome A * S.

Definition ret {S A} (a : A) : M S A := fun s => (Done a, s).

Definition bind {S A B} (c : M S A) (k : A -> M S B) : M S B :=
  fun s =>
    match c s with
    | (Done a, s') => k a s'
    | (Raised m, s') => (Raised m, s')
    | (Pending, s') => (Pending, s')
    end.

Definition raise {S A} (msg : string) : M S A := fun s => (Raised msg, s).

Definition pending {S A} : M S A := fun s => (Pending, s).

Definition lift {S A} (r : Result A) : M S A :=
  match r with
  | Ok a => ret a
  | Throw m => raise m
  end.

Definition gets {S A} (f : S -> A) : M S A := fun s => (Done (f s), s).

Definition modify {S} (f : S -> S) : M S unit := fun s => (Done tt, f s).

(** [try { c } catch (e) { h(e.message) }] *)
Definition try_catch {S A} (c : M S A) (h : string -> M S A) : M S A :=
  fun s =>
    match c s with
    | (Raised m, s') => h m s'
    | r => r
    end.

(** [try { c } finally { f }]: [f] runs once [c] has returned or thrown. *)
Definition try_finally {S A} (c : M S A) (f : M S unit) : M S A :=
  fun s =>
    match c s with
    | (Pending, s') => (Pending, s')
    | (r, s') =>
        match f s' with
        | (Done _, s'') => (r, s'')
        | (Raised m, s'') => (Raised m, s'')
        | (Pending, s'') => (Pending, s'')
        end
    end.

(** [for (const x of l) await body(x)] *)
Fixpoint for_ {S B} (body : B -> M S unit) (l : list B) : M S unit :=
  match l with
  | [] => ret tt
  | x :: l' => bind (body x) (fun _ => for_ body l')
  end.

End Eff.

Import Eff.

Notation "'let*' x ':=' c 'in' k" := (Eff.bind c (fun x => k))
  (at level 10, x name, c at level 100, k at level 200).
Notation "c ';;' k" := (Eff.bind c (fun _ => k))
  (at level 100, k at level 200, right associativity).

(** ** The execution sync engine *)

(** One execution of the remote list endpoint, by the fields the sync
    reads, with the three parts the key extractor looks into. *)
Module Exec.
Record t : Type := mk {
  id : JsVal;
  workflowId : JsVal;
  status : string;
  startedAt : JsVal;
  stoppedAt : JsVal;
  mode : option string;
  customData : JsVal;
  annotation : JsVal;
  data : JsVal
}.

(** The item as the document handed to the extractor: a field that is
    [undefined] here is absent from the document. *)
Definition document (e : t) : JsVal :=
  JObj (List.filter (fun entry => defined (snd entry))
       [("id", id e); ("workflowId", workflowId e);
        ("status", JStr (status e));
        ("startedAt", startedAt e); ("stoppedAt", stoppedAt e);
        ("mode", match mode e with Some m => JStr m | None => JUndefined end);
        ("customData", customData e); ("annotation", annotation e);
        ("data", data e)]).
End Exec.

Module Sync.

Definition SYNC_BATCH_SIZE : Z := 50.
Definition SYNC_COOLDOWN : Z := 60000.

(** [new Date(src)], kept as the value it was built from. *)
Inductive DateTime : Type := NewDate (src : JsVal).

(** A row of the ExecutionOrder table; the table is keyed by executionId. *)
Record ExecutionOrder : Type := mkRow {
  orderNumber : option string;
  workflowId : string;
  status : string;
  startedAt : option DateTime;
  stoppedAt : option DateTime;
  mode : option string
}.

Record Request : Type := mkRequest {
  limit : Z;
  cursor : option string;
  includeData : bool
}.

Record Response : Type := mkResponse {
  data : option (list Exec.t);
  nextCursor : option string
}.

(** What the remote does with a request: after some time it answers or
    the client throws (non-2xx, network). *)
Record Reply : Type := mkReply {
  latency : Z;
  answer : Result Response
}.

Definition Remote : Type := Request -> Reply.

(** What the engine does to the outside, in order. *)
Inductive Event : Type :=
| EvFetch (req : Request)
| EvUpsert (e : Exec.t).

Record World : Type := mkWorld {
  cache : gmap string ExecutionOrder;
  syncInProgress : bool;
  lastSyncTime : Z;
  now : Z;
  trace : list Event;
  console : list string
}.

Definition set_cache (f : gmap string ExecutionOrder -> gmap string ExecutionOrder)
  (w : World) : World :=
  mkWorld (f (cache w)) (syncInProgress w) (lastSyncTime w) (now w)
          (trace w) (console w).

Definition set_syncInProgress (b : bool) (w : World) : World :=
  mkWorld (cache w) b (lastSyncTime w) (now w) (trace w) (console w).

Definition set_lastSyncTime (t : Z) (w : World) : World :=
  mkWorld (cache w) (syncInProgress w) t (now w) (trace w) (console w).

Definition elapse (d : Z) (w : World) : World :=
  mkWorld (cache w) (syncInProgress w) (lastSyncTime w) (now w + d)
          (trace w) (console w).

Definition emit (ev : Event) (w : World) : World :=
  mkWorld (cache w) (syncInProgress w) (lastSyncTime w) (now w)
          (trace w ++ [ev]) (console w).

Definition print (line : string) (w : World) : World :=
  mkWorld (cache w) (syncInProgress w) (lastSyncTime w) (now w)
          (trace w) (console w ++ [line]).

Definition console_log (line : string) : M World unit := modify (print line).

Section WithRemote.

Variable remote : Remote.

(** [getExecutions({limit, cursor, includeData})] *)
Definition getExecutions (req : Request) : M World Response :=
  let reply := remote req in
  modify (fun w => emit (EvFetch req) (elapse (latency reply) w)) ;;
  lift (answer reply).

Definition optDate (v : JsVal) : option DateTime :=
  if truthy v then Some (NewDate v) else None.

Definition optString (v : JsVal) : option string :=
  if nullish v then None else Some (String_ v).

(** [orderNumber != null ? String(orderNumber) : null] *)
Definition orderNumber_column (orderNumber : Found) : option string :=
  if found_nullish orderNumber then None else Some (String_found orderNumber).

(** The [create] and [update] arguments of the upsert. *)
Definition create_row (exec : Exec.t) (orderNumber : Found) : ExecutionOrder :=
  {| orderNumber := orderNumber_column orderNumber;
     workflowId := String_ (Exec.workflowId exec);
     status := Exec.status exec;
     startedAt := optDate (Exec.startedAt exec);
     stoppedAt := optDate (Exec.stoppedAt exec);
     mode := Exec.mode exec |}.

Definition update_row (exec : Exec.t) (orderNumber : Found)
  (old : ExecutionOrder) : ExecutionOrder :=
  {| orderNumber := orderNumber_column orderNumber;
     workflowId := workflowId old;
     status := Exec.status exec;
     startedAt := startedAt old;
     stoppedAt := optDate (Exec.stoppedAt exec);
     mode := mode old |}.

(** [prisma.executionOrder.upsert({where: {executionId}, create, update})] *)
Definition prisma_upsert (executionId : string)
  (create : ExecutionOrder) (update : ExecutionOrder -> ExecutionOrder)
  (c : gmap string ExecutionOrder) : gmap string ExecutionOrder :=
  match c !! executionId with
  | None => <[executionId := create]> c
  | Some old => <[executionId := update old]> c
  end.

(** The callback of [upsertBatch] for one execution: the extractor is
    called, with what it writes to the console, and the upsert issued. *)
Definition upsert (exec : Exec.t) : M World unit :=
  let* extracted :=
    lift (N8n.extractFromExecutionData (Exec.document exec) "orderNumber") in
  let orderNumber := fst extracted in
  for_ console_log (snd extracted) ;;
  modify (fun w =>
    emit (EvUpsert exec)
      (set_cache (prisma_upsert (String_ (Exec.id exec))
                    (create_row exec orderNumber)
                    (update_row exec orderNumber)) w)).

(** [upsertBatch(executions)]: the upserts handed to [Promise.all] are
    issued in array order, and are taken to reach the table in that
    order. *)
Definition upsertBatch (executions : list Exec.t) : M World unit :=
  for_ upsert executions.

Definition truthy_cursor (c : option string) : option string :=
  match c with
  | Some s => if String.eqb s "" then None else Some s
  | None => None
  end.

Definition page_request (cursor : option string) : Request :=
  {| limit := SYNC_BATCH_SIZE; cursor := cursor; includeData := true |}.

(** [fullBackfill()], the [while (true)] bounded by [fuel] iterations. *)
Fixpoint fullBackfill_loop (fuel : nat) (cursor : option string) (total : Z)
  : M World Z :=
  match fuel with
  | O => pending
  | S fuel' =>
      let* response := getExecutions (page_request cursor) in
      let executions := default [] (data response) in
      if (Z.of_nat (length executions) =? 0) then ret total
      else
        upsertBatch executions ;;
        let total' := total + Z.of_nat (length executions) in
        match truthy_cursor (nextCursor response) with
        | None => ret total'
        | Some next => fullBackfill_loop fuel' (Some next) total'
        end
  end.

Definition fullBackfill (fuel : nat) : M World unit :=
  console_log "[n8n-sync] Starting full backfill..." ;;
  let* total := fullBackfill_loop fuel None 0 in
  console_log ("[n8n-sync] Full backfill complete: " +:+ pretty total
               +:+ " executions indexed.").

(** [prisma.executionOrder.findMany({where: {executionId: {in: ids}},
    select: {executionId, status}})] *)
Definition findMany_status (ids : list string) (c : gmap string ExecutionOrder)
  : list (string * string) :=
  map (fun kv => (kv.1, status kv.2))
      (map_to_list (filter (fun kv => kv.1 ∈ ids) c)).

(** The predicate of [executions.filter(...)]. *)
Definition new_or_changed (existingMap : gmap string string) (e : Exec.t)
  : bool :=
  match existingMap !! String_ (Exec.id e) with
  | None => true
  | Some existingStatus => negb (String.eqb existingStatus (Exec.status e))
  end.

(** The [toSync] of one page against the cache as it stands. *)
Definition toSync_of (c : gmap string ExecutionOrder)
  (executions : list Exec.t) : list Exec.t :=
  let ids := map (fun e => String_ (Exec.id e)) executions in
  let existing := findMany_status ids c in
  let existingMap : gmap string string := list_to_map existing in
  List.filter (new_or_changed existingMap) executions.

(** [incrementalSync()], the [while (true)] bounded by [fuel] iterations. *)
Fixpoint incrementalSync_loop (fuel : nat) (cursor : option string)
  (newCount : Z) : M World Z :=
  match fuel with
  | O => pending
  | S fuel' =>
      let* response := getExecutions (page_request cursor) in
      let executions := default [] (data response) in
      if (Z.of_nat (length executions) =? 0) then ret newCount
      else
        let* toSync := gets (fun w => toSync_of (cache w) executions) in
        let n := Z.of_nat (length toSync) in
        (if 0 <? n then upsertBatch toSync else ret tt) ;;
        let newCount' := if 0 <? n then newCount + n else newCount in
        if n =? 0 then ret newCount'
        else
          match truthy_cursor (nextCursor response) with
          | None => ret newCount'
          | Some next => incrementalSync_loop fuel' (Some next) newCount'
          end
  end.

Definition incrementalSync (fuel : nat) : M World unit :=
  let* newCount := incrementalSync_loop fuel None 0 in
  if 0 <? newCount
  then console_log ("[n8n-sync] Incremental sync: " +:+ pretty newCount
                    +:+ " executions updated.")
  else ret tt.

(** The [try] block of [syncExecutions]. *)
Definition sync_pass (fuel : nat) : M World unit :=
  let* count := gets (fun w => size (cache w)) in
  if Nat.eqb count 0 then fullBackfill fuel else incrementalSync fuel.

(** [syncExecutions()] *)
Definition syncExecutions (fuel : nat) : M World unit :=
  let* busy := gets syncInProgress in
  if busy then ret tt
  else
    let* t := gets now in
    let* last := gets lastSyncTime in
    if t - last <? SYNC_COOLDOWN then ret tt
    else
      modify (set_syncInProgress true) ;;
      try_finally
        (try_catch (sync_pass fuel)
           (fun message => console_log ("[n8n-sync] Sync failed: " +:+ message)))
        (modify (set_syncInProgress false) ;;
         let* t' := gets now in
         modify (set_lastSyncTime t')).

End WithRemote.

End Sync.

(** ** The Softr client: schema cache, value display, record search *)

(** Tables and fields as the remote API returns them. *)
Module Api.
Record Field : Type := mkField {
  id : string;
  name : string;
  type : string;
  required : option bool;
  readonly : option bool;
  locked : option bool;
  allowMultipleEntries : option bool;
  defaultValue : JsVal;
  options : JsVal;
  createdAt : JsVal;
  updatedAt : JsVal
}.

Record Table : Type := mkTable {
  table_id : string;
  table_name : string;
  description : option string;
  primaryFieldId : option string;
  defaultViewId : option string;
  fields : option (list Field)
}.
End Api.

Module Softr.

(** Rows of SoftrTable and SoftrField, each keyed by its [id] column. *)
Record SoftrTable : Type := mkTableRow {
  name : string;
  description : option string;
  primaryFieldId : option string;
  defaultViewId : option string;
  syncedAt : Z
}.

Record SoftrField : Type := mkFieldRow {
  tableId : string;
  field_name : string;
  type : string;
  required : bool;
  readonly : bool;
  locked : bool;
  allowMultipleEntries : bool;
  defaultValue : option string;
  options : option string;
  createdAt : option Sync.DateTime;
  updatedAt : option Sync.DateTime
}.

Record Db : Type := mkDb {
  softrTable : gmap string SoftrTable;
  softrField : gmap string SoftrField
}.

(** The process environment and the remote, as the sync reads them. *)
Record Env : Type := mkEnv {
  SOFTR_API_KEY : option string;
  SOFTR_DATABASE_ID : option string;
  (** [GET /databases/{db}/tables]: the [data] of the response *)
  tables_endpoint : string -> Result (option (list string));
  (** [GET /databases/{db}/tables/{id}]: the [data] of the response *)
  table_endpoint : string -> string -> Result (option Api.Table);
  (** [CURRENT_TIMESTAMP] of the database *)
  clock : Z
}.

Definition env_var (v : option string) (missing : string) : Result string :=
  match v with
  | Some s => if String.eqb s "" then Throw missing else Ok s
  | None => Throw missing
  end.

Definition getApiKey (env : Env) : Result string :=
  env_var (SOFTR_API_KEY env) "SOFTR_API_KEY environment variable is not set".

Definition getDatabaseId (env : Env) : Result string :=
  env_var (SOFTR_DATABASE_ID env)
          "SOFTR_DATABASE_ID environment variable is not set".

(** [getTables(databaseId)]: the ids of the listed tables. *)
Definition getTables (env : Env) (databaseId : string) : Result (list string) :=
  rbind (getApiKey env) (fun _ =>
  rbind (tables_endpoint env databaseId) (fun data =>
  Ok (default [] data))).

(** [getTable(databaseId, tableId)]: [result.data ?? null] *)
Definition getTable (env : Env) (databaseId tableId : string)
  : Result (option Api.Table) :=
  rbind (getApiKey env) (fun _ => table_endpoint env databaseId tableId).

(** [Promise.all(promises)]: rejects as soon as one promise rejects. *)
Fixpoint Promise_all {A} (promises : list (Result A)) : Result (list A) :=
  match promises with
  | [] => Ok []
  | p :: ps =>
      match p with
      | Throw m => Throw m
      | Ok a => rbind (Promise_all ps) (fun rest => Ok (a :: rest))
      end
  end.

(** [detailed.filter(Boolean)] *)
Definition filter_Boolean {A} (l : list (option A)) : list A := omap id l.

Section WithSerializer.

(** [JSON.stringify] *)
Variable JSON_stringify : JsVal -> string.

Definition table_row (env : Env) (table : Api.Table) : SoftrTable :=
  {| name := Api.table_name table;
     description := Api.description table;
     primaryFieldId := Api.primaryFieldId table;
     defaultViewId := Api.defaultViewId table;
     syncedAt := clock env |}.

Definition field_row (table : Api.Table) (field : Api.Field) : SoftrField :=
  {| tableId := Api.table_id table;
     field_name := Api.name field;
     type := Api.type field;
     required := default false (Api.required field);
     readonly := default false (Api.readonly field);
     locked := default false (Api.locked field);
     allowMultipleEntries := default false (Api.allowMultipleEntries field);
     defaultValue := Sync.optString (Api.defaultValue field);
     options := if truthy (Api.options field)
                then Some (JSON_stringify (Api.options field)) else None;
     createdAt := Sync.optDate (Api.createdAt field);
     updatedAt := Sync.optDate (Api.updatedAt field) |}.

Definition fields_of (table : Api.Table) : list Api.Field :=
  default [] (Api.fields table).

(** Inserting one row under a primary key that must be free. *)
Definition insert_field (table : Api.Table) (field : Api.Field) : M Db unit :=
  fun db =>
    match softrField db !! Api.id field with
    | Some _ =>
        (Raised "Unique constraint failed on the fields: (`id`)", db)
    | None =>
        (Done tt, mkDb (softrTable db)
                       (<[Api.id field := field_row table field]> (softrField db)))
    end.

(** [tx.softrTable.create({data: {..., fields: {create: [...]}}})] *)
Definition create_table (env : Env) (table : Api.Table) : M Db unit :=
  fun db =>
    match softrTable db !! Api.table_id table with
    | Some _ =>
        (Raised "Unique constraint failed on the fields: (`id`)", db)
    | None =>
        for_ (insert_field table) (fields_of table)
          (mkDb (<[Api.table_id table := table_row env table]> (softrTable db))
                (softrField db))
    end.

(** [tx.softrField.deleteMany()] and [tx.softrTable.deleteMany()], the
    second cascading to the fields. *)
Definition deleteMany_fields : M Db unit :=
  modify (fun db => mkDb (softrTable db) ∅).

Definition deleteMany_tables : M Db unit :=
  modify (fun db => mkDb ∅ ∅).

(** The database while a transaction is open: the committed tables, which
    the client [prisma] acts on, and the view of the transaction, which
    the handle [tx] acts on. *)
Record Tx : Type := mkTx {
  committed : Db;
  view : Db
}.

Inductive Handle : Type := prisma | tx.

(** A database call made through a handle. *)
Definition through {A} (handle : Handle) (call : M Db A) : M Tx A :=
  fun t =>
    match handle with
    | prisma =>
        let r := call (committed t) in (fst r, mkTx (snd r) (view t))
    | tx =>
        let r := call (view t) in (fst r, mkTx (committed t) (snd r))
    end.

(** [prisma.$transaction(body)]: the body runs on a view of its own,
    which is committed when the body returns and dropped when it
    throws. *)
Definition transaction {A} (body : M Tx A) : M Db A :=
  fun db =>
    match body (mkTx db db) with
    | (Done a, t) => (Done a, view t)
    | (Raised m, t) => (Raised m, committed t)
    | (Pending, t) => (Pending, committed t)
    end.

(** The callback handed to [prisma.$transaction]: every call goes
    through [tx]. *)
Definition replace_all (env : Env) (tables : list Api.Table) : M Tx unit :=
  through tx deleteMany_fields ;;
  through tx deleteMany_tables ;;
  for_ (fun table => through tx (create_table env table)) tables.

(** The detail fetches of [syncSoftrData], one per listed table. *)
Definition detail_fetches (env : Env) (databaseId : string)
  (tablesList : list string) : list (Result (option Api.Table)) :=
  map (fun t => getTable env databaseId t) tablesList.

(** [syncSoftrData()] *)
Definition syncSoftrData (env : Env) : M Db nat :=
  let* databaseId := lift (getDatabaseId env) in
  let* tablesList := lift (getTables env databaseId) in
  let* detailed := lift (Promise_all (detail_fetches env databaseId tablesList)) in
  let tables := filter_Boolean detailed in
  transaction (replace_all env tables) ;;
  ret (length tables).

End WithSerializer.

(** *** Display form of a raw field value *)

(** [(att) => ({url: att.url, filename: att.filename || "Download"})] *)
Definition attachment (att : JsVal) : Result JsVal :=
  rbind (get_strict att "url") (fun url =>
  rbind (get_strict att "filename") (fun filename =>
  Ok (JObj [("url", url);
            ("filename", if truthy filename then filename
                         else JStr "Download")]))).

(** [array.map(f)] with a callback that may throw. *)
Fixpoint Array_map (f : JsVal -> Result JsVal) (l : list JsVal)
  : Result (list JsVal) :=
  match l with
  | [] => Ok []
  | x :: l' =>
      rbind (f x) (fun y => rbind (Array_map f l') (fun ys => Ok (y :: ys)))
  end.

(** [resolveFieldValue(value)] *)
Definition resolveFieldValue (value : JsVal) : Result JsVal :=
  if nullish value then Ok value
  else if typeof_object value && negb (Array_isArray value)
          && negb (nullish (get value "label"))
  then Ok (get value "label")
  else
    match value with
    | JArr (first :: rest) =>
        if truthy (opt_get first "url")
        then rbind (Array_map attachment (first :: rest))
                   (fun l => Ok (JArr l))
        else Ok value
    | _ => Ok value
    end.

(** *** Building the search requests *)

Definition TABLE_SEARCH_FIELDS : list (string * list string) :=
  [("Kleurstalen", ["orderNumber"]);
   ("Ne DistriService", ["orderNumber"]);
   ("Webattelier - lines", ["OrderID"]);
   ("Webattelier - orders", ["ID"])].

Fixpoint search_fields_in (cfg : list (string * list string)) (tableName : string)
  : option (list string) :=
  match cfg with
  | [] => None
  | (n, fs) :: cfg' =>
      if String.eqb tableName n then Some fs else search_fields_in cfg' tableName
  end.

(** [TABLE_SEARCH_FIELDS[name]] *)
Definition search_fields (tableName : string) : option (list string) :=
  search_fields_in TABLE_SEARCH_FIELDS tableName.

Definition NUMBER_TYPES : list string := ["NUMBER"; "FORMULA"].

Fixpoint includes (x : string) (l : list string) : bool :=
  match l with
  | [] => false
  | y :: l' => String.eqb x y || includes x l'
  end.

Fixpoint trim_start (l : list Ascii.ascii) : list Ascii.ascii :=
  match l with
  | [] => []
  | c :: l' => if Ascii.is_space c then trim_start l' else c :: l'
  end.

(** [s.trim()], over the ASCII white space and line terminators. *)
Definition trim (s : string) : string :=
  String.string_of_list_ascii
    (rev (trim_start (rev (trim_start (String.list_ascii_of_string s))))).

(** A cached table with its fields, as [getCachedTables()] returns it. *)
Record CachedField : Type := mkCachedField {
  cf_id : string;
  cf_name : string;
  cf_type : string
}.

Record CachedTable : Type := mkCachedTable {
  ct_id : string;
  ct_name : string;
  ct_fields : list CachedField
}.

Section WithNumber.

(** [Number(s)], the coercion of a string to a number. *)
Variable Number : string -> JsVal.

(** One [{leftSide, operator, rightSide}] condition. *)
Definition field_condition (query : string) (f : CachedField) : JsVal :=
  JObj [("leftSide", JStr (cf_id f));
        ("operator", JStr "IS");
        ("rightSide", if includes (cf_type f) NUMBER_TYPES
                      then Number (trim query) else JStr (trim query))].

(** The [condition] of one table, [None] where the callback returns
    [null] before building one. *)
Definition table_condition (query : string) (table : CachedTable)
  : option JsVal :=
  match search_fields (ct_name table) with
  | None => None
  | Some fieldNames =>
      let searchableFields :=
        List.filter (fun f => includes (cf_name f) fieldNames) (ct_fields table) in
      match searchableFields with
      | [] => None
      | _ =>
          let conditions := map (field_condition query) searchableFields in
          match conditions with
          | [c] => Some c
          | _ => Some (JObj [("operator", JStr "OR");
                             ("conditions", JArr conditions)])
          end
      end
  end.

Definition search_body (condition : JsVal) (limit : Z) : JsVal :=
  JObj [("filter", JObj [("condition", condition)]);
        ("paging", JObj [("offset", JNum 0); ("limit", JNum limit)])].

Definition is_searchable (table : CachedTable) : bool :=
  match search_fields (ct_name table) with
  | Some _ => true
  | None => false
  end.

(** The search calls [searchSoftrRecords(query, {limit})] issues: for each
    table searched, its id and the body posted to its search endpoint. *)
Definition search_requests (query : string) (limit : Z)
  (tables : list CachedTable) : list (string * JsVal) :=
  if String.eqb query "" || String.eqb (trim query) "" then []
  else
    omap (fun table =>
            match table_condition query table with
            | Some condition => Some (ct_id table, search_body condition limit)
            | None => None
            end)
         (List.filter is_searchable tables).

End WithNumber.

End Softr.

(** ** The execution detail loader: the node timeline *)

Module Detail.

Record WorkflowNode : Type := mkNode {
  node_name : string;
  node_type : option string
}.

(** One run of a node: [startTime], [executionTime], [error] and
    [data.main], the output channels. *)
Record Run : Type := mkRun {
  run_startTime : option Z;
  run_executionTime : option Z;
  run_error : JsVal;
  run_main : option (list JsVal)
}.

Record Execution : Type := mkExecution {
  workflowNodes : option (list WorkflowNode);
  runData : option (gmap string (list Run))
}.

Record NodeRunSummary : Type := mkSummary {
  name : string;
  type : option string;
  ran : bool;
  startTime : option Z;
  executionTime : option Z;
  error : JsVal;
  output : JsVal
}.

(** [array.flat()]: one level of nesting removed. *)
Definition flat (l : list JsVal) : list JsVal :=
  flat_map (fun v => match v with JArr xs => xs | _ => [v] end) l.

(** [lastRun?.data?.main?.flat()?.map((item) => item?.json)
      ?.filter(Boolean) ?? []] *)
Definition output_items (lastRun : option Run) : list JsVal :=
  match lastRun with
  | Some run =>
      match run_main run with
      | Some main =>
          List.filter truthy (map (fun item => opt_get item "json") (flat main))
      | None => []
      end
  | None => []
  end.

(** [output.length === 1 ? output[0] : output.length > 0 ? output : null] *)
Definition expose (output : list JsVal) : JsVal :=
  match output with
  | [single] => single
  | [] => JNull
  | _ => JArr output
  end.

Fixpoint last_segment_from (acc : string) (s : string) : string :=
  match s with
  | EmptyString => acc
  | String c s' =>
      if Ascii.eqb c "."%char then last_segment_from "" s'
      else last_segment_from (acc +:+ String c "") s'
  end.

(** [t.split(".").pop()] *)
Definition last_segment (t : string) : string := last_segment_from "" t.

(** What [runData[node.name]] reads from the plain object [runData]:
    the run list the object holds under the name; where it holds none,
    the member of that name that every object inherits, if there is
    one. *)
Inductive Runs : Type :=
| RunList (runs : list Run)
| Inherited (m : Js.Native)
| NoRuns.

Definition runs_of (runData : gmap string (list Run)) (name : string) : Runs :=
  match runData !! name with
  | Some runs => RunList runs
  | None =>
      match Js.lookup_first name Js.Object_prototype with
      | Some m => Inherited m
      | None => NoRuns
      end
  end.

(** [!!runs && runs.length > 0] *)
Definition has_ran (runs : Runs) : bool :=
  match runs with
  | RunList runs => 0 <? Z.of_nat (length runs)
  | Inherited m =>
      match Js.member_length m with
      | Some n => 0 <? n
      | None => false
      end
  | NoRuns => false
  end.

(** [runs[runs.length - 1]]: an inherited function has no element at an
    index. *)
Definition last_of (runs : Runs) : option Run :=
  match runs with
  | RunList runs => last runs
  | Inherited _ | NoRuns => None
  end.

(** The callback of [workflowNodes.map(...)]. *)
Definition summarize (runData : gmap string (list Run)) (node : WorkflowNode)
  : NodeRunSummary :=
  let runs := runs_of runData (node_name node) in
  let ran := has_ran runs in
  let lastRun := if ran then last_of runs else None in
  {| name := node_name node;
     type := last_segment <$> node_type node;
     ran := ran;
     startTime := lastRun ≫= run_startTime;
     executionTime := lastRun ≫= run_executionTime;
     error := match lastRun with
              | Some run => coalesce (opt_get (run_error run) "message") JNull
              | None => JNull
              end;
     output := expose (output_items lastRun) |}.

(** [(a, b) => (a.startTime ?? 0) - (b.startTime ?? 0)] *)
Definition start_key (n : NodeRunSummary) : Z := default 0 (startTime n).

Definition compare_start (a b : NodeRunSummary) : Z := start_key a - start_key b.

(** [array.sort(compare)]: the sort is stable, an element stays ahead of
    the later elements it does not compare greater than. *)
Fixpoint sort_insert (compare : NodeRunSummary -> NodeRunSummary -> Z)
  (x : NodeRunSummary) (sorted : list NodeRunSummary) : list NodeRunSummary :=
  match sorted with
  | [] => [x]
  | y :: rest =>
      if compare x y <=? 0 then x :: y :: rest
      else y :: sort_insert compare x rest
  end.

Definition Array_sort (compare : NodeRunSummary -> NodeRunSummary -> Z)
  (l : list NodeRunSummary) : list NodeRunSummary :=
  foldr (sort_insert compare) [] l.

(** The [nodes] of the loader's answer for a fetched execution. *)
Definition timeline (execution : Execution) : list NodeRunSummary :=
  let workflowNodes := default [] (workflowNodes execution) in
  let runData := default ∅ (runData execution) in
  let nodes := map (summarize runData) workflowNodes in
  Array_sort compare_start (List.filter ran nodes).

Definition truthy_id (executionId : option string) : option string :=
  match executionId with
  | Some s => if String.eqb s "" then None else Some s
  | None => None
  end.

Record LoaderData : Type := mkLoaderData {
  nodes : list NodeRunSummary;
  loader_error : option string
}.

(** [loader]: no id gives no nodes; a failed fetch gives no nodes and the
    error message. *)
Definition loader (executionId : option string)
  (getExecution : string -> Result Execution) : LoaderData :=
  match truthy_id executionId with
  | None => {| nodes := []; loader_error := None |}
  | Some id =>
      match getExecution id with
      | Ok execution => {| nodes := timeline execution; loader_error := None |}
      | Throw message => {| nodes := []; loader_error := Some message |}
      end
  end.

End Detail.

(** ** The sync engine's effects, described on the cache alone *)

Module SyncSpec.

Import Sync.

Definition key_of (e : Exec.t) : string := String_ (Exec.id e).

(** What the extractor gives for the order number of a fetched item:
    the value found and the lines written to the console. *)
Definition extraction (e : Exec.t) : Found * list string :=
  match N8n.extractFromExecutionData (Exec.document e) "orderNumber" with
  | Ok r => r
  | Throw _ => (Value JNull, [])
  end.

(** The order number the upsert derives from the fetched item. *)
Definition orderNumber_value (e : Exec.t) : Found := fst (extraction e).

(** The lines the extractor writes for the items of a batch. *)
Definition debug_lines (batch : list Exec.t) : list string :=
  flat_map (fun e => snd (extraction e)) batch.

(** A text column holds the value as a string, and nothing for a value
    that is [null] or [undefined]. *)
Definition text_of (v : JsVal) (column : option string) : Prop :=
  match v with
  | JUndefined | JNull => column = None
  | _ => column = Some (String_ v)
  end.

(** A date column holds the date made of the value, and nothing for a
    value that is missing, [null] or empty. *)
Definition date_of (v : JsVal) (column : option DateTime) : Prop :=
  if truthy v then column = Some (NewDate v) else column = None.

(** The cache after the upsert of one item, and of a batch in order. *)
Definition upsert_row (e : Exec.t) (c : gmap string ExecutionOrder)
  : gmap string ExecutionOrder :=
  prisma_upsert (key_of e) (create_row e (orderNumber_value e))
                (update_row e (orderNumber_value e)) c.

Definition upsert_all (batch : list Exec.t) (c : gmap string ExecutionOrder)
  : gmap string ExecutionOrder :=
  foldl (fun c e => upsert_row e c) c batch.

(** An item is to sync when its id is absent from the cache or its status
    differs from the cached status. *)
Definition to_sync (c : gmap string ExecutionOrder) (e : Exec.t) : Prop :=
  c !! key_of e = None \/
  exists row, c !! key_of e = Some row /\ status row <> Exec.status e.

Definition is_to_sync (c : gmap string ExecutionOrder) (e : Exec.t) : bool :=
  match c !! key_of e with
  | None => true
  | Some row => negb (String.eqb (status row) (Exec.status e))
  end.

(** The items upserted by a sequence of events, in order. *)
Definition upserts_of (evs : list Event) : list Exec.t :=
  omap (fun ev => match ev with
                  | EvUpsert e => Some e
                  | EvFetch _ => None
                  end) evs.

(** The world after lines have been written to the console. *)
Definition logged (lines : list string) (w : World) : World :=
  mkWorld (cache w) (syncInProgress w) (lastSyncTime w) (now w) (trace w)
          (console w ++ lines).

(** The world after the upserts of a batch. *)
Definition batch_world (batch : list Exec.t) (w : World) : World :=
  mkWorld (upsert_all batch (cache w)) (syncInProgress w) (lastSyncTime w)
          (now w) (trace w ++ map EvUpsert batch)
          (console w ++ debug_lines batch).

(** The world after a request has been answered. *)
Definition fetched (remote : Remote) (req : Request) (w : World) : World :=
  emit (EvFetch req) (elapse (latency (remote req)) w).

(** What a stretch of a pass does to the world: it appends events, and
    the cache changes by the upserts among them and by nothing else; the
    guard and the cooldown stamp are not touched. *)
Definition effects (w w' : World) (evs : list Event) : Prop :=
  trace w' = trace w ++ evs /\
  cache w' = upsert_all (upserts_of evs) (cache w) /\
  syncInProgress w' = syncInProgress w /\
  lastSyncTime w' = lastSyncTime w.

(** A stretch of events that, unless no iteration was allowed, opens with
    the fetch of the first page. *)
Definition opens_with_fetch (fuel : nat) (cur : option string)
  (evs : list Event) : Prop :=
  fuel <> O -> exists rest, evs = EvFetch (page_request cur) :: rest.

(** The cooldown test of [syncExecutions] lets a call through. *)
Definition cooldown_cleared (w : World) : Prop :=
  ~ (now w - lastSyncTime w < SYNC_COOLDOWN).

(** The [finally] block of [syncExecutions]. *)
Definition release (w : World) : World :=
  set_lastSyncTime (now w) (set_syncInProgress false w).

Definition finished {A} (o : Outcome A) : Outcome unit :=
  match o with
  | Done _ => Done tt
  | Raised m => Raised m
  | Pending => Pending
  end.

Section WithRemote.

Variable remote : Remote.

Definition page_at (cur : option string) : Result Response :=
  answer (remote (page_request cur)).

(** The runs of an incremental sync from a cache and a cursor: the events
    the run causes and how it stands.  Each page fetched is followed by
    the upserts of its to-sync items and of nothing else; a page without
    to-sync items ends the run. *)
Inductive inc_run
  : gmap string ExecutionOrder -> option string -> list Event -> Outcome unit
    -> Prop :=
| inc_not_started c cur :
    inc_run c cur [] Pending
| inc_fetch_failed c cur m :
    page_at cur = Throw m ->
    inc_run c cur [EvFetch (page_request cur)] (Raised m)
| inc_caught_up c cur response :
    page_at cur = Ok response ->
    List.filter (is_to_sync c) (default [] (data response)) = [] ->
    inc_run c cur [EvFetch (page_request cur)] (Done tt)
| inc_last_page c cur response batch :
    page_at cur = Ok response ->
    batch = List.filter (is_to_sync c) (default [] (data response)) ->
    batch <> [] ->
    truthy_cursor (nextCursor response) = None ->
    inc_run c cur (EvFetch (page_request cur) :: map EvUpsert batch) (Done tt)
| inc_next_page c cur response batch next evs o :
    page_at cur = Ok response ->
    batch = List.filter (is_to_sync c) (default [] (data response)) ->
    batch <> [] ->
    truthy_cursor (nextCursor response) = Some next ->
    inc_run (upsert_all batch c) (Some next) evs o ->
    inc_run c cur (EvFetch (page_request cur) :: map EvUpsert batch ++ evs) o.

End WithRemote.

End SyncSpec.

(** ** The schema cache and the display form, described *)

Module SoftrSpec.

Import Softr.

Section WithSerializer.

Variable JSON_stringify : JsVal -> string.

(** The row stored for a fetched table: its name and its three optional
    attributes as fetched, stamped with the time of the sync. *)
Definition table_stored (env : Env) (t : Api.Table) (row : SoftrTable) : Prop :=
  name row = Api.table_name t /\
  description row = Api.description t /\
  primaryFieldId row = Api.primaryFieldId t /\
  defaultViewId row = Api.defaultViewId t /\
  syncedAt row = clock env.

(** The row stored for a field of a fetched table: the table it belongs
    to, its name and type, its four flags with [false] for a missing one,
    its default value as text, its options serialized, its two dates. *)
Definition field_stored (t : Api.Table) (f : Api.Field) (row : SoftrField)
  : Prop :=
  tableId row = Api.table_id t /\
  field_name row = Api.name f /\
  type row = Api.type f /\
  required row = default false (Api.required f) /\
  readonly row = default false (Api.readonly f) /\
  locked row = default false (Api.locked f) /\
  allowMultipleEntries row = default false (Api.allowMultipleEntries f) /\
  SyncSpec.text_of (Api.defaultValue f) (defaultValue row) /\
  (if truthy (Api.options f)
   then options row = Some (JSON_stringify (Api.options f))
   else options row = None) /\
  SyncSpec.date_of (Api.createdAt f) (createdAt row) /\
  SyncSpec.date_of (Api.updatedAt f) (updatedAt row).

(** The fields nested in a fetched table. *)
Definition nested (t : Api.Table) : list Api.Field :=
  match Api.fields t with
  | Some fields => fields
  | None => []
  end.

(** The cache holds the rows of exactly these tables and of their fields. *)
Definition holds_tables (env : Env) (tables : list Api.Table) (db : Db) : Prop :=
  forall id row,
    softrTable db !! id = Some row <->
    exists t, In t tables /\ Api.table_id t = id /\ table_stored env t row.

Definition holds_fields (tables : list Api.Table) (db : Db) : Prop :=
  forall id row,
    softrField db !! id = Some row <->
    exists t f, In t tables /\ In f (nested t) /\ Api.id f = id /\
                field_stored t f row.

End WithSerializer.

(** Two environments that differ at most in the time. *)
Definition same_remote (env1 env2 : Env) : Prop :=
  SOFTR_API_KEY env1 = SOFTR_API_KEY env2 /\
  SOFTR_DATABASE_ID env1 = SOFTR_DATABASE_ID env2 /\
  tables_endpoint env1 = tables_endpoint env2 /\
  table_endpoint env1 = table_endpoint env2.

(** The row of a table with another stamp. *)
Definition stamped (time : Z) (row : SoftrTable) : SoftrTable :=
  mkTableRow (name row) (description row) (primaryFieldId row)
             (defaultViewId row) time.

(** Two runs end alike: both commit, or both fail with the same message. *)
Definition finished_alike (o1 o2 : Outcome nat) : Prop :=
  match o1, o2 with
  | Done n1, Done n2 => n1 = n2
  | Raised m1, Raised m2 => m1 = m2
  | _, _ => False
  end.

Definition table_ids (tables : list Api.Table) : list string :=
  map Api.table_id tables.

Definition field_ids (tables : list Api.Table) : list string :=
  flat_map (fun t => map Api.id (nested t)) tables.

(** The tables kept when every table whose detail fetch failed or
    returned nothing is filtered out. *)
Definition surviving (fetches : list (Result (option Api.Table)))
  : list Api.Table :=
  omap (fun r => match r with
                 | Ok (Some t) => Some t
                 | Ok None | Throw _ => None
                 end) fetches.

(** A non-array object carrying a label. *)
Definition carries_label (v : JsVal) : bool :=
  match v with
  | JObj _ => negb (nullish (get v "label"))
  | _ => false
  end.

(** An object carrying a url. *)
Definition carries_url (v : JsVal) : bool :=
  match v with
  | JObj _ => truthy (get v "url")
  | _ => false
  end.

(** A non-empty list of objects carrying a url. *)
Definition attachment_list (v : JsVal) : bool :=
  match v with
  | JArr (first :: rest) => forallb carries_url (first :: rest)
  | _ => false
  end.

(** A non-empty list whose first element carries a url. *)
Definition first_carries_url (v : JsVal) : bool :=
  match v with
  | JArr (first :: _) => truthy (opt_get first "url")
  | _ => false
  end.

(** A string of white space only. *)
Definition blank (s : string) : Prop :=
  Forall (fun c => Ascii.is_space c = true) (String.list_ascii_of_string s).

(** The [{url, filename}] shown for one attachment. *)
Definition shown_attachment (att : JsVal) : JsVal :=
  JObj [("url", get att "url");
        ("filename", if truthy (get att "filename") then get att "filename"
                     else JStr "Download")].

End SoftrSpec.

(** ** The node timeline, described *)

Module DetailSpec.

Import Detail.

(** The start time an entry is ordered by: a missing one counts as 0. *)
Definition counted_start (s : NodeRunSummary) : Z :=
  match startTime s with
  | Some t => t
  | None => 0
  end.

(** Ascending start times, a missing one counting as 0. *)
Definition starts_no_later (a b : NodeRunSummary) : Prop :=
  counted_start a <= counted_start b.

(** The name is none of the members every object inherits. *)
Definition plain_name (name : string) : Prop :=
  ~ In name (map fst Js.Object_prototype).

(** The run data hold a run list for the node, and the list is not
    empty. *)
Definition has_run (runData : gmap string (list Run)) (node : WorkflowNode)
  : bool :=
  match runData !! node_name node with
  | Some (_ :: _) => true
  | _ => false
  end.

(** The payloads of the output channels of a run: the channels flattened
    into one list, the content of each entry taken, the entries without
    one left out. *)
Definition payloads (main : list JsVal) : list JsVal :=
  List.filter truthy (map (fun entry => opt_get entry "json") (flat main)).

(** The items of a channel; an unused channel is [null]. *)
Definition channel_items (channel : JsVal) : list JsVal :=
  match channel with
  | JArr items => items
  | _ => []
  end.

End DetailSpec.

(** ** Sample data *)

Module Samples.

(** An execution whose second node holds the order number in the second
    item of its second output channel. *)
Definition sample_document : JsVal :=
  JObj [("id", JNum 41);
        ("customData", JObj [("customer", JStr "c-9")]);
        ("data", JObj [("resultData", JObj [("runData",
           JObj [("Webhook", JArr [JObj [("data", JObj [("main",
                    JArr [JArr [JObj [("json", JObj [("total", JNum 3)])]]])])]]);
                 ("Lookup", JArr [JObj [("data", JObj [("main",
                    JArr [JNull;
                          JArr [JObj [("json", JObj [("sku", JStr "s")])];
                                JObj [("json", JObj [("orderNumber", JStr "A7")])]]])])]])
                ])])])].


(** An execution whose order number is in the custom data of its
    annotation. *)
Definition annotated_document : JsVal :=
  JObj [("id", JNum 42);
        ("customData", JObj [("customer", JStr "c-9")]);
        ("annotation", JObj [("customData", JObj [("orderNumber", JNum 1042)])])].

Definition run_with (items : list JsVal) : JsVal :=
  JObj [("data", JObj [("main", JArr [JArr items])])].

(** Run data in which the second node maps to a number, not to a list of
    runs, behind a first node whose item holds the order number. *)
Definition broken_behind_match : JsVal :=
  JObj [("id", JNum 43);
        ("data", JObj [("resultData", JObj [("runData",
           JObj [("Lookup", JArr [run_with
                    [JObj [("json", JObj [("orderNumber", JStr "A7")])]]]);
                 ("Notify", JNum 5)])])])].

(** The same two nodes in the other order. *)
Definition broken_before_match : JsVal :=
  JObj [("id", JNum 44);
        ("data", JObj [("resultData", JObj [("runData",
           JObj [("Notify", JNum 5);
                 ("Lookup", JArr [run_with
                    [JObj [("json", JObj [("orderNumber", JStr "A7")])]]])])])])].

Definition execution (id status : string) : Exec.t :=
  Exec.mk (JStr id) (JStr "wf-1") status (JStr "2026-02-06T10:00:00Z")
          (if String.eqb status "running" then JNull
           else JStr "2026-02-06T10:00:05Z")
          (Some "webhook") JUndefined JUndefined JUndefined.

(** An execution whose custom data holds the order number, as a number. *)
Definition numbered_execution : Exec.t :=
  Exec.mk (JStr "N") (JStr "wf-1") "success" (JStr "2026-02-06T10:00:00Z")
          (JStr "2026-02-06T10:00:05Z") (Some "webhook")
          (JObj [("orderNumber", JNum 1042)]) JUndefined JUndefined.

Definition row (status : string) : Sync.ExecutionOrder :=
  Sync.mkRow None "wf-1" status
             (Some (Sync.NewDate (JStr "2026-02-06T10:00:00Z")))
             (if String.eqb status "running" then None
              else Some (Sync.NewDate (JStr "2026-02-06T10:00:05Z")))
             (Some "webhook").

(** A cache holding [A: success] and [B: running]. *)
Definition cache_AB : gmap string Sync.ExecutionOrder :=
  <["A" := row "success"]> (<["B" := row "running"]> ∅).

Definition world_AB : Sync.World :=
  Sync.mkWorld cache_AB false 0 100000 [] [].

(** A remote with three pages: [B: success, C: success], then
    [A: success], then [D: success]. *)
Definition three_pages : Sync.Remote :=
  fun req =>
    match Sync.cursor req with
    | None =>
        Sync.mkReply 120 (Ok (Sync.mkResponse
          (Some [execution "B" "success"; execution "C" "success"])
          (Some "page-2")))
    | Some "page-2" =>
        Sync.mkReply 80 (Ok (Sync.mkResponse
          (Some [execution "A" "success"]) (Some "page-3")))
    | Some "page-3" =>
        Sync.mkReply 90 (Ok (Sync.mkResponse
          (Some [execution "D" "success"]) None))
    | Some _ => Sync.mkReply 10 (Throw "n8n API error 400: bad cursor")
    end.

(** The same remote failing on its second page. *)
Definition failing_second_page : Sync.Remote :=
  fun req =>
    match Sync.cursor req with
    | Some "page-2" => Sync.mkReply 30 (Throw "n8n API error 502: Bad Gateway")
    | _ => three_pages req
    end.

Definition stringify_sample (v : JsVal) : string :=
  match v with
  | JArr _ => "[...]"
  | _ => "{...}"
  end.

Definition field (id name type : string) : Api.Field :=
  Api.mkField id name type (Some true) None None None JNull JNull
              (JStr "2026-02-13T14:00:00Z") JUndefined.

Definition orders : Api.Table :=
  Api.mkTable "t1" "Webattelier - orders" None (Some "f1") None
              (Some [field "f1" "ID" "NUMBER"; field "f2" "Customer" "TEXT"]).

Definition lines : Api.Table :=
  Api.mkTable "t2" "Webattelier - lines" (Some "order lines") None None
              (Some [field "f3" "OrderID" "TEXT"]).

Definition swatches : Api.Table :=
  Api.mkTable "t3" "Kleurstalen" None None None
              (Some [field "f4" "orderNumber" "TEXT"]).

(** A table reusing the field id [f1] of [orders]. *)
Definition clashing : Api.Table :=
  Api.mkTable "t3" "Kleurstalen" None None None
              (Some [field "f4" "orderNumber" "TEXT"; field "f1" "ID" "TEXT"]).

Definition lookup_table (tables : list Api.Table) (id : string)
  : option Api.Table :=
  List.find (fun t => String.eqb (Api.table_id t) id) tables.

(** An environment listing three tables and serving their details. *)
Definition healthy_env : Softr.Env :=
  Softr.mkEnv (Some "key") (Some "db1")
    (fun _ => Ok (Some ["t1"; "t2"; "t3"]))
    (fun _ id => Ok (lookup_table [orders; lines; swatches] id))
    1770991200.

(** The detail fetch of the third table throws after two succeeded. *)
Definition third_detail_fails : Softr.Env :=
  Softr.mkEnv (Some "key") (Some "db1")
    (fun _ => Ok (Some ["t1"; "t2"; "t3"]))
    (fun _ id => if String.eqb id "t3"
                 then Throw "Softr API error 500: Internal Server Error"
                 else Ok (lookup_table [orders; lines] id))
    1770991300.

(** The third table's fields clash with the first one's. *)
Definition clashing_env : Softr.Env :=
  Softr.mkEnv (Some "key") (Some "db1")
    (fun _ => Ok (Some ["t1"; "t2"; "t3"]))
    (fun _ id => Ok (lookup_table [orders; lines; clashing] id))
    1770991400.

Definition customers : Api.Table :=
  Api.mkTable "t9" "Customers" None None None
              (Some [field "f8" "ID" "NUMBER"]).

(** The cache after an earlier sync, of the tables [t2] and [t9]. *)
Definition cached_before : Softr.Db :=
  (Softr.syncSoftrData stringify_sample
     (Softr.mkEnv (Some "key") (Some "db1")
        (fun _ => Ok (Some ["t2"; "t9"]))
        (fun _ id => Ok (lookup_table [lines; customers] id))
        1770000000)
     (Softr.mkDb ∅ ∅)).2.

(** The same remote a minute later. *)
Definition healthy_later : Softr.Env :=
  Softr.mkEnv (Softr.SOFTR_API_KEY healthy_env)
    (Softr.SOFTR_DATABASE_ID healthy_env)
    (Softr.tables_endpoint healthy_env) (Softr.table_endpoint healthy_env)
    1770991260.

(** The cache after a sync against [healthy_env]. *)
Definition cached_three : Softr.Db :=
  (Softr.syncSoftrData stringify_sample healthy_env (Softr.mkDb ∅ ∅)).2.

(** [Number(s)] on the strings of decimal digits, [NaN] elsewhere. *)
Fixpoint digits_value (acc : Z) (l : list ascii) : option Z :=
  match l with
  | [] => Some acc
  | c :: l' =>
      let n := Z.of_nat (nat_of_ascii c) in
      if (48 <=? n) && (n <=? 57) then digits_value (10 * acc + (n - 48)) l'
      else None
  end.

Definition Number_sample (s : string) : JsVal :=
  match String.list_ascii_of_string s with
  | [] => JNum 0
  | l => match digits_value 0 l with
         | Some n => JNum n
         | None => JNaN
         end
  end.

Definition cached_orders : Softr.CachedTable :=
  Softr.mkCachedTable "t1" "Webattelier - orders"
    [Softr.mkCachedField "f1" "ID" "NUMBER";
     Softr.mkCachedField "f2" "Customer" "TEXT"].

Definition cached_lines : Softr.CachedTable :=
  Softr.mkCachedTable "t2" "Webattelier - lines"
    [Softr.mkCachedField "f3" "OrderID" "TEXT"].

Definition cached_customers : Softr.CachedTable :=
  Softr.mkCachedTable "t9" "Customers"
    [Softr.mkCachedField "f8" "ID" "NUMBER"].

Definition run_at (t : option Z) (main : option (list JsVal)) : Detail.Run :=
  Detail.mkRun t (Some 12) JUndefined main.

(** Three defined nodes: the first ran at 300, the second did not run,
    the third ran twice, last at 100. *)
Definition detail_execution : Detail.Execution :=
  Detail.mkExecution
    (Some [Detail.mkNode "Lookup" (Some "n8n-nodes-base.httpRequest");
           Detail.mkNode "Notify" (Some "n8n-nodes-base.slack");
           Detail.mkNode "Webhook" (Some "n8n-nodes-base.webhook")])
    (Some (<["Lookup" := [run_at (Some 300)
                            (Some [JArr [JObj [("json", JObj [("a", JNum 1)])];
                                         JObj [("json", JObj [("a", JNum 2)])]]])]]>
           (<["Webhook" := [run_at (Some 50) None;
                            run_at (Some 100)
                              (Some [JNull;
                                     JArr [JObj [("json", JObj [("order", JStr "A7")])]]])]]>
            ∅))).

(** Two defined nodes that ran: the first has a run without start time,
    the second started 5 ms before the epoch. *)
Definition early_execution : Detail.Execution :=
  Detail.mkExecution
    (Some [Detail.mkNode "Webhook" (Some "n8n-nodes-base.webhook");
           Detail.mkNode "Legacy" (Some "n8n-nodes-base.set")])
    (Some (<["Webhook" := [run_at None None]]>
           (<["Legacy" := [run_at (Some (-5)) None]]> ∅))).

(** One defined node, named [constructor], and run data that hold no run
    list at all. *)
Definition inherited_execution : Detail.Execution :=
  Detail.mkExecution
    (Some [Detail.mkNode "constructor" (Some "n8n-nodes-base.set")])
    (Some ∅).

End Samples.

(** ** A remote with finitely many pages *)

Module Paging.

Import Sync SyncSpec.

Section WithRemote.

Variable remote : Remote.

(** From the cursor on, the remote serves these non-empty pages, one per
    request, and then either no further cursor or an empty page. *)
Inductive serves : option string -> list (list Exec.t) -> Prop :=
| serves_nothing cur response :
    page_at remote cur = Ok response ->
    default [] (data response) = [] ->
    serves cur []
| serves_last cur response page :
    page_at remote cur = Ok response ->
    default [] (data response) = page ->
    page <> [] ->
    truthy_cursor (nextCursor response) = None ->
    serves cur [page]
| serves_more cur response page next rest :
    page_at remote cur = Ok response ->
    default [] (data response) = page ->
    page <> [] ->
    truthy_cursor (nextCursor response) = Some next ->
    serves (Some next) rest ->
    serves cur (page :: rest).

End WithRemote.

(** The columns an update never writes. *)
Definition same_origin (old new : ExecutionOrder) : Prop :=
  workflowId new = workflowId old /\
  startedAt new = startedAt old /\
  mode new = mode old.

(** The fetches among a sequence of events. *)
Definition fetches_of (evs : list Event) : list Request :=
  omap (fun ev => match ev with
                  | EvFetch req => Some req
                  | EvUpsert _ => None
                  end) evs.

End Paging.

(** ** The Softr client: the search itself and the routes around it *)

Module Search.

Import Softr.

(** [hasCachedData()] *)
Definition hasCachedData (db : Db) : bool :=
  Nat.ltb 0 (size (softrTable db)).

(** A record of a search response: its [id] and the entries of its
    [fields] object, raw field id first. *)
Record SoftrRecord : Type := mkRecord {
  rec_id : JsVal;
  rec_fields : option (list (string * JsVal))
}.

(** A search response: [data] and [metadata?.total]. *)
Record SearchReply : Type := mkSearchReply {
  reply_data : option (list SoftrRecord);
  reply_total : JsVal
}.

(** A record as returned to the caller; [fields] is the object built by
    assignment, as the map from its own keys to their values. *)
Record ShownRecord : Type := mkShown {
  shown_id : JsVal;
  shown_fields : gmap string JsVal
}.

Record Group : Type := mkGroup {
  tableId : string;
  tableName : string;
  records : list ShownRecord;
  total : JsVal
}.

(** The environment of the sync with the search endpoint
    [POST /databases/{db}/tables/{id}/records/search]. *)
Record SearchEnv : Type := mkSearchEnv {
  env : Env;
  search_endpoint : string -> string -> JsVal -> Result SearchReply
}.

(** [softrPost(path, body)] for a search path. *)
Definition softrPost (senv : SearchEnv) (databaseId tableId : string)
  (body : JsVal) : Result SearchReply :=
  rbind (getApiKey (env senv)) (fun _ =>
  search_endpoint senv databaseId tableId body).

(** [fieldDef ? fieldDef.name : fieldId] with
    [fieldDef = table.fields.find((f) => f.id === fieldId)] *)
Definition field_key (table : CachedTable) (fieldId : string) : string :=
  match List.find (fun f => String.eqb (cf_id f) fieldId) (ct_fields table) with
  | Some fieldDef => cf_name fieldDef
  | None => fieldId
  end.

(** The prototype of the [fields] object of a record: [Object.prototype]
    as the object is created, and [null] or a value of the record once an
    assignment to [fields.__proto__] has set it. *)
Inductive Proto : Type :=
| ObjectPrototype
| NullPrototype
| ValuePrototype (v : JsVal).

(** The [fields] object: its own properties and its prototype. *)
Record Fields : Type := mkFields {
  own : gmap string JsVal;
  proto : Proto
}.

(** What the setter of [__proto__] does with a value: an object or
    [null] becomes the prototype, anything else is ignored. *)
Definition set_prototype (value : JsVal) (fields : Fields) : Fields :=
  match value with
  | JObj _ | JArr _ => mkFields (own fields) (ValuePrototype value)
  | JNull => mkFields (own fields) NullPrototype
  | _ => fields
  end.

Definition define_own (name : string) (value : JsVal) (fields : Fields)
  : Fields :=
  mkFields (<[name := value]> (own fields)) (proto fields).

(** The object has a data property [__proto__] of its own. *)
Definition owns_proto_key (v : JsVal) : bool :=
  match v with
  | JObj props => existsb (fun entry => String.eqb (fst entry) "__proto__") props
  | _ => false
  end.

(** [fields[name] = value].  Every name but [__proto__] becomes an own
    property.  For [__proto__] the assignment looks for the property on
    the object and then up its prototype chain: an own property is
    written; the accessor of [Object.prototype], where the chain reaches
    it first, sets the prototype; a chain that holds no such property,
    or a data property of that name, gets the object an own property. *)
Definition assign (name : string) (value : JsVal) (fields : Fields) : Fields :=
  if negb (String.eqb name "__proto__") then define_own name value fields
  else
    match own fields !! name with
    | Some _ => define_own name value fields
    | None =>
        match proto fields with
        | ObjectPrototype => set_prototype value fields
        | NullPrototype => define_own name value fields
        | ValuePrototype v =>
            if owns_proto_key v then define_own name value fields
            else set_prototype value fields
        end
    end.

(** The [for] loop over [Object.entries(record.fields ?? {})]. *)
Fixpoint assign_fields (table : CachedTable) (entries : list (string * JsVal))
  (fields : Fields) : Result Fields :=
  match entries with
  | [] => Ok fields
  | (fieldId, value) :: rest =>
      rbind (resolveFieldValue value) (fun shown =>
      assign_fields table rest (assign (field_key table fieldId) shown fields))
  end.

(** The callback of [(result.data ?? []).map(...)]: the record returned
    carries the own properties of [fields]. *)
Definition show_record (table : CachedTable) (record : SoftrRecord)
  : Result ShownRecord :=
  rbind (assign_fields table (default [] (rec_fields record))
           (mkFields ∅ ObjectPrototype)) (fun fields =>
  Ok {| shown_id := rec_id record; shown_fields := own fields |}).

Fixpoint map_records (f : SoftrRecord -> Result ShownRecord)
  (l : list SoftrRecord) : Result (list ShownRecord) :=
  match l with
  | [] => Ok []
  | x :: l' =>
      rbind (f x) (fun y => rbind (map_records f l') (fun ys => Ok (y :: ys)))
  end.

Section WithNumber.

Variable Number : string -> JsVal.

(** The async callback of [searchableTables.map(...)]: how the promise of
    one table settles. *)
Definition search_table (senv : SearchEnv) (databaseId query : string)
  (limit : Z) (table : CachedTable) : Result (option Group) :=
  match table_condition Number query table with
  | None => Ok None
  | Some condition =>
      rbind (softrPost senv databaseId (ct_id table)
                       (search_body condition limit)) (fun result =>
      rbind (map_records (show_record table)
                         (default [] (reply_data result))) (fun records =>
      Ok (Some {| tableId := ct_id table;
                  tableName := ct_name table;
                  records := records;
                  total := coalesce (reply_total result)
                                    (JNum (Z.of_nat (length records))) |})))
  end.

(** [r.status === "fulfilled" && r.value && r.value.records.length > 0] *)
Definition fulfilled_with_records (r : Result (option Group)) : option Group :=
  match r with
  | Ok (Some group) =>
      match records group with
      | [] => None
      | _ :: _ => Some group
      end
  | Ok None | Throw _ => None
  end.

(** [searchSoftrRecords(query, {limit})], given what [getCachedTables()]
    returns. *)
Definition searchSoftrRecords (senv : SearchEnv) (tables : list CachedTable)
  (query : string) (limit : Z) : Result (list Group) :=
  if String.eqb query "" || String.eqb (trim query) "" then Ok []
  else
    rbind (getDatabaseId (env senv)) (fun databaseId =>
    match tables with
    | [] => Ok []
    | _ :: _ =>
        let settled :=
          map (search_table senv databaseId query limit)
              (List.filter is_searchable tables) in
        Ok (omap fulfilled_with_records settled)
    end).

Section WithCache.

(** [getCachedTables()]: the tables read from the cache, in the order the
    database returns them. *)
Variable getCachedTables : Db -> list CachedTable.

Variable JSON_stringify : JsVal -> string.

Record SearchData : Type := mkSearchData {
  results : list Group;
  query : string;
  error : option string
}.

(** The body of the [try] of the search route's loader. *)
Definition search_with_schema (senv : SearchEnv) (q : string) : M Db (list Group) :=
  let* hasData := gets hasCachedData in
  (if hasData then ret 0%nat else syncSoftrData JSON_stringify (env senv)) ;;
  let* tables := gets getCachedTables in
  lift (searchSoftrRecords senv tables q 10).

(** The loader of the search route, for the [q] of the request. *)
Definition search_loader (senv : SearchEnv) (q : string) : M Db SearchData :=
  if String.eqb (trim q) ""
  then ret {| results := []; query := q; error := None |}
  else
    try_catch
      (let* results := search_with_schema senv q in
       ret {| results := results; query := q; error := None |})
      (fun message =>
         ret {| results := []; query := q; error := Some message |}).

End WithCache.

End WithNumber.

End Search.

(** ** The n8n client: the workflow list and its five-minute cache *)

Module Workflows.

Definition CACHE_TTL : Z := 5 * 60 * 1000.

(** [workflowsCache] *)
Record Cache : Type := mkCache {
  data : JsVal;
  expiresAt : Z
}.

Definition initial : Cache := {| data := JNull; expiresAt := 0 |}.

(** The requests made so far and the cache. *)
Record State : Type := mkState {
  workflowsCache : Cache;
  requests : nat
}.

(** [getWorkflows()]: [now] is the time of the freshness test, [later]
    the time at which a fetched result is stored, [fetch] what
    [n8nFetch("/workflows?active=true")] gives. *)
Definition getWorkflows (now later : Z) (fetch : Result JsVal) : M State JsVal :=
  fun s =>
    let c := workflowsCache s in
    if truthy (data c) && (now <? expiresAt c) then (Done (data c), s)
    else
      match fetch with
      | Throw m => (Raised m, mkState c (S (requests s)))
      | Ok result =>
          (Done result,
           mkState {| data := result; expiresAt := later + CACHE_TTL |}
                   (S (requests s)))
      end.

End Workflows.

(** ** The order workflow route: the execution id of a workflow URL *)

Module OrderWorkflow.

(** [s.split(sep)] for a separator of one character: the pieces between
    the separators, [acc] being the piece under way. *)
Fixpoint split_from (sep : ascii) (acc : string) (s : string) : list string :=
  match s with
  | EmptyString => [acc]
  | String c s' =>
      if Ascii.eqb c sep then acc :: split_from sep "" s'
      else split_from sep (acc +:+ String c "") s'
  end.

Definition split (sep : ascii) (s : string) : list string :=
  split_from sep "" s.

(** [parsed.pathname.split("/").filter(Boolean)] *)
Definition path_parts (pathname : string) : list string :=
  List.filter (fun part => negb (String.eqb part "")) (split "/" pathname).

(** [parts[parts.indexOf(word) + 1]] when the word occurs, for parts that
    are not empty. *)
Fixpoint following (word : string) (parts : list string) : option string :=
  match parts with
  | [] => None
  | part :: rest =>
      if String.eqb part word then head rest else following word rest
  end.

Section WithURL.

(** [new URL(url).pathname]: throws on a string that is no URL. *)
Variable URL_pathname : string -> Result string.

(** [extractExecutionId(url)] *)
Definition extractExecutionId (url : string) : option string :=
  if String.eqb url "" then None
  else
    match URL_pathname url with
    | Throw _ => None
    | Ok pathname =>
        let parts := path_parts pathname in
        match following "executions" parts with
        | Some id => Some id
        | None =>
            match following "execution" parts with
            | Some id => Some id
            | None => last parts
            end
        end
    end.

(** The answer of the route's action: [json({ok, result, error}, {status})],
    the status being 200 where none is given. *)
Record ActionReply : Type := mkActionReply {
  ok : bool;
  result : option JsVal;
  error : option string;
  status : Z
}.

(** [action]: [url] is the form's field, absent or a string; the second
    component lists the ids [retryExecution] was called with. *)
Definition action (url : option string)
  (retryExecution : string -> Result JsVal) : ActionReply * list string :=
  let url := default "" url in
  match extractExecutionId url with
  | None =>
      ({| ok := false; result := None;
          error := Some "No execution ID found in URL"; status := 400 |}, [])
  | Some executionId =>
      match retryExecution executionId with
      | Ok result =>
          ({| ok := true; result := Some result; error := None;
              status := 200 |}, [executionId])
      | Throw message =>
          ({| ok := false; result := None; error := Some message;
              status := 500 |}, [executionId])
      end
  end.

End WithURL.

(** The character occurs in the string. *)
Fixpoint occurs (c : ascii) (s : string) : bool :=
  match s with
  | EmptyString => false
  | String c' s' => Ascii.eqb c' c || occurs c s'
  end.

End OrderWorkflow.

(** ** The search route's action: update or delete a record, then log *)

Module SearchAction.

(** The fields of the submitted form, each absent or a string. *)
Record Form : Type := mkForm {
  _action : option string;
  tableId : option string;
  recordId : option string;
  orderGid : option string;
  fieldId : option string;
  fieldName : option string;
  value : option string;
  oldValue : option string
}.

(** The entry handed to [appendChangeLog]. *)
Inductive Entry : Type :=
| softr_field_update (table recordId field oldValue : string)
    (newValue : option string)
| softr_record_delete (table recordId : string).

(** The calls the action makes. *)
Inductive Call : Type :=
| CallUpdate (tableId recordId fieldId : string) (value : option string)
| CallDelete (tableId recordId : string)
| CallAppend (orderGid : string) (entry : Entry).

(** What each call gives: it returns or throws. *)
Definition Remote : Type := Call -> Result unit.

Record Reply : Type := mkReply {
  ok : bool;
  error : option string;
  status : Z
}.

(** A form value that is truthy: present and not the empty string. *)
Definition present (v : option string) : option string :=
  match v with
  | Some s => if String.eqb s "" then None else Some s
  | None => None
  end.

(** [await f(...)], the call noted in the list of calls made. *)
Definition call (remote : Remote) (c : Call) : M (list Call) unit :=
  fun calls =>
    (match remote c with Ok _ => Done tt | Throw m => Raised m end,
     calls ++ [c]).

(** [if (orderGid) await appendChangeLog(admin, orderGid, entry)] *)
Definition log (remote : Remote) (orderGid : option string) (entry : Entry)
  : M (list Call) unit :=
  match present orderGid with
  | Some gid => call remote (CallAppend gid entry)
  | None => ret tt
  end.

Definition ok_reply : Reply := {| ok := true; error := None; status := 200 |}.

Definition failed (message : string) (status : Z) : Reply :=
  {| ok := false; error := Some message; status := status |}.

(** [action] *)
Definition action (remote : Remote) (form : Form) : M (list Call) Reply :=
  match present (tableId form), present (recordId form) with
  | Some tableId, Some recordId =>
      if bool_decide (_action form = Some "update")
      then
        match present (fieldId form) with
        | None => ret (failed "Missing fieldId" 400)
        | Some fieldId =>
            let fieldName := default fieldId (present (fieldName form)) in
            let oldValue := default "" (present (oldValue form)) in
            try_catch
              (call remote (CallUpdate tableId recordId fieldId (value form)) ;;
               log remote (orderGid form)
                 (softr_field_update tableId recordId fieldName oldValue
                    (value form)) ;;
               ret ok_reply)
              (fun message => ret (failed message 500))
        end
      else
        try_catch
          (call remote (CallDelete tableId recordId) ;;
           log remote (orderGid form) (softr_record_delete tableId recordId) ;;
           ret ok_reply)
          (fun message => ret (failed message 500))
  | _, _ => ret (failed "Missing tableId or recordId" 400)
  end.

(** The call changes a record. *)
Definition is_change (c : Call) : bool :=
  match c with
  | CallAppend _ _ => false
  | _ => true
  end.

End SearchAction.

Module SearchActionSpec.

Import SearchAction.

(** The change-log entry that describes a change call. *)
Definition entry_of (form : Form) (change : Call) : option Entry :=
  match change with
  | CallUpdate t r f v =>
      Some (softr_field_update t r
              (default f (present (fieldName form)))
              (default "" (present (oldValue form))) v)
  | CallDelete t r => Some (softr_record_delete t r)
  | CallAppend _ _ => None
  end.

End SearchActionSpec.

(** ** Path names, for the properties of the execution id *)

Module OrderWorkflowSpec.

Import OrderWorkflow.

(** A path segment: not empty, no slash inside. *)
Definition segment (part : string) : Prop :=
  part <> "" /\ occurs "/" part = false.

(** The path name made of the given segments, each behind its slash. *)
Definition pathname_of (parts : list string) : string :=
  foldr (fun part rest => "/" +:+ part +:+ rest) "" parts.

End OrderWorkflowSpec.

(** ** More sample data *)

Module MoreSamples.

(** A first start: nothing cached, no pass made yet. *)
Definition fresh_world : Sync.World :=
  Sync.mkWorld ∅ false 0 1770000000000 [] [].

Definition three_pages_content : list (list Exec.t) :=
  [[Samples.execution "B" "success"; Samples.execution "C" "success"];
   [Samples.execution "A" "success"];
   [Samples.execution "D" "success"]].

(** An order record as the search endpoint returns it: a number, a
    select value and a field the cached schema does not know. *)
Definition order_record : Search.SoftrRecord :=
  Search.mkRecord (JStr "rec1")
    (Some [("f1", JNum 1042);
           ("f2", JObj [("id", JStr "c7"); ("label", JStr "Jansen")]);
           ("f9", JStr "unmapped")]).

(** The same record with one more field, whose id is [__proto__]. *)
Definition proto_record : Search.SoftrRecord :=
  Search.mkRecord (JStr "rec2")
    (Some [("f1", JNum 1042);
           ("f2", JObj [("id", JStr "c7"); ("label", JStr "Jansen")]);
           ("__proto__", JObj [("polluted", JBool true)]);
           ("f9", JStr "unmapped")]).

(** The orders table answers with one record, the lines table fails. *)
Definition search_env : Search.SearchEnv :=
  Search.mkSearchEnv Samples.healthy_env
    (fun _ tableId _ =>
       if String.eqb tableId "t1"
       then Ok (Search.mkSearchReply (Some [order_record]) JUndefined)
       else Throw "Softr API error 500: Internal Server Error").

(** The same with the lines table answering, without a match. *)
Definition search_env_healed : Search.SearchEnv :=
  Search.mkSearchEnv Samples.healthy_env
    (fun _ tableId _ =>
       if String.eqb tableId "t1"
       then Ok (Search.mkSearchReply (Some [order_record]) JUndefined)
       else Ok (Search.mkSearchReply (Some []) (JNum 0))).

Definition cached_tables : list Softr.CachedTable :=
  [Samples.cached_customers; Samples.cached_lines; Samples.cached_orders].

(** A read of the cache that finds the three sample tables in any filled
    cache. *)
Definition read_tables (db : Softr.Db) : list Softr.CachedTable :=
  if Search.hasCachedData db then cached_tables else [].

(** A stand-in for the URL parser, for URLs of one host. *)
Definition URL_pathname_sample (url : string) : Result string :=
  let origin := "https://n8n.example.com" in
  if String.prefix origin url
  then
    let rest := String.substring (String.length origin)
                  (String.length url - String.length origin) url in
    Ok (if String.eqb rest "" then "/" else rest)
  else Throw "Invalid URL".

(** An edit of one field of an order's record, submitted with the order. *)
Definition edit_form : SearchAction.Form :=
  SearchAction.mkForm (Some "update") (Some "t1") (Some "rec1")
    (Some "gid://shopify/Order/123") (Some "f2") (Some "Customer")
    (Some "Jansen BV") (Some "Jansen").

(** The record service answers, the order's change log does not. *)
Definition log_down : SearchAction.Remote :=
  fun c =>
    match c with
    | SearchAction.CallAppend _ _ => Throw "Shopify unavailable"
    | _ => Ok tt
    end.

End MoreSamples.

(** * Properties *)

(** ** The key extractor *)

Section ExtractFacts.

Import N8n N8nSpec.

Lemma held_get (v : JsVal) (k : string) : held v k = get v k.
Proof.
  unfold held, get. induction (own_props v) as [|[k' x] ps IH]; simpl.
  - reflexivity.
  - rewrite String.eqb_sym. destruct (String.eqb k k'); [reflexivity | exact IH].
Qed.

Lemma held_nullish (v : JsVal) (k : string) : held v k = opt_get v k.
Proof.
  rewrite held_get. unfold opt_get. destruct v; reflexivity.
Qed.

Lemma lookup_first_In {A} (k : string) (ps : list (string * A)) (x : A) :
  lookup_first k ps = Some x -> In k (map fst ps).
Proof.
  induction ps as [|[k' y] ps IH]; simpl; [discriminate|].
  destruct (String.eqb k k') eqn:Hk.
  - apply String.eqb_eq in Hk. auto.
  - auto.
Qed.

Lemma lookup_first_assoc (k : string) (ps : list (string * JsVal)) :
  assoc k ps = default JUndefined (lookup_first k ps).
Proof.
  induction ps as [|[k' y] ps IH]; simpl; [reflexivity|].
  destruct (String.eqb k k'); [reflexivity | exact IH].
Qed.

Lemma prototype_chain_builtin (v : JsVal) (k : string) :
  In k (map fst (prototype_chain v)) -> In k builtin_names.
Proof.
  unfold builtin_names. intros Hin. right.
  rewrite !map_app, !in_app_iff.
  destruct v; cbv [prototype_chain] in Hin;
    rewrite ?map_app, ?in_app_iff in Hin; try tauto; destruct Hin.
Qed.

(** A key that no prototype defines reads own properties only. *)
Lemma read_plain (v : JsVal) (k : string) :
  plain_key k -> read v k = Value (get v k).
Proof.
  intros Hplain. unfold read, get. rewrite lookup_first_assoc.
  destruct (lookup_first k (own_props v)) as [x|]; [reflexivity|].
  assert (Hchain : lookup_first k (prototype_chain v) = None).
  { destruct (lookup_first k (prototype_chain v)) as [m|] eqn:Hm; [|reflexivity].
    destruct Hplain. eapply prototype_chain_builtin, lookup_first_In, Hm. }
  rewrite Hchain. destruct (own_length v); [|reflexivity].
  destruct (String.eqb k "length") eqn:Hk; [|reflexivity].
  apply String.eqb_eq in Hk. destruct Hplain. left. auto.
Qed.

Lemma opt_read_plain (v : JsVal) (k : string) :
  plain_key k -> opt_read v k = Value (held v k).
Proof.
  intros Hplain. rewrite held_nullish. unfold opt_read, opt_get.
  destruct (nullish v); [reflexivity | apply read_plain, Hplain].
Qed.

Variable key : string.

Hypothesis key_plain : plain_key key.

Lemma walk_app (l1 l2 : list Sight) :
  walk key (l1 ++ l2) =
  match walk key l1 with
  | Some None => walk key l2
  | r => r
  end.
Proof.
  induction l1 as [|[item|] l1 IH]; simpl; [reflexivity| |reflexivity].
  destruct (defined _); [reflexivity | exact IH].
Qed.

Lemma for_each_walk {B} (body : B -> Result (option Found))
  (seen : B -> list Sight) (l : list B) :
  (forall x, settled (body x) = walk key (seen x)) ->
  settled (for_each body l) = walk key (flat_map seen l).
Proof.
  intros Hbody. induction l as [|x l IH]; simpl; [reflexivity|].
  rewrite walk_app, <- (Hbody x).
  destruct (body x) as [[v|]|m]; simpl; [reflexivity | exact IH | reflexivity].
Qed.

Lemma for_of_walk (body : JsVal -> Result (option Found))
  (seen : JsVal -> list Sight) (v : JsVal) :
  (forall x, settled (body x) = walk key (seen x)) ->
  settled (for_of body v) =
  walk key (match listed v with
        | Some l => flat_map seen l
        | None => [Broken]
        end).
Proof.
  intros Hbody. unfold for_of.
  destruct v; simpl; try reflexivity; apply for_each_walk, Hbody.
Qed.

Lemma scan_item_walk (item : JsVal) :
  settled (scan_item key item) = walk key [Item item].
Proof.
  unfold scan_item. cbv zeta. rewrite <- held_nullish, (opt_read_plain _ _ key_plain).
  simpl. destruct (defined _); reflexivity.
Qed.

Lemma flat_map_Item (l : list JsVal) : flat_map (fun x => [Item x]) l = map Item l.
Proof. induction l; simpl; congruence. Qed.

Lemma scan_output_walk (output : JsVal) :
  settled (scan_output key output) = walk key (sights_of_output output).
Proof.
  unfold scan_output, sights_of_output.
  destruct (truthy output); [|reflexivity].
  rewrite (for_of_walk _ (fun x => [Item x])) by apply scan_item_walk.
  destruct (listed output); [rewrite flat_map_Item|]; reflexivity.
Qed.

Lemma scan_run_walk (run : JsVal) :
  settled (scan_run key run) = walk key (sights_of_run run).
Proof.
  unfold scan_run, sights_of_run. cbv zeta. rewrite <- !held_nullish.
  destruct (truthy _); [|reflexivity].
  apply for_of_walk, scan_output_walk.
Qed.

Lemma scan_runData_walk (runData : JsVal) :
  settled (scan_runData key runData) = walk key (sights runData).
Proof.
  unfold scan_runData, sights, Object_keys.
  apply for_each_walk. intros nodeName. unfold scan_node, sights_of_node.
  rewrite held_get. apply for_of_walk, scan_run_walk.
Qed.

Lemma verdict_walk (l : list Sight) :
  verdict key l =
  match walk key l with
  | Some (Some (Value v)) => v
  | _ => JNull
  end.
Proof.
  induction l as [|[item|] l IH]; simpl; [reflexivity| |reflexivity].
  destruct (held (held item "json") key); simpl; try reflexivity. exact IH.
Qed.

Lemma walk_value (l : list Sight) (m : Native) : walk key l <> Some (Some (Member m)).
Proof.
  induction l as [|[item|] l IH]; simpl; try discriminate.
  destruct (defined _); [discriminate | exact IH].
Qed.

Lemma falsy_no_sights (runData : JsVal) :
  truthy runData = false -> sights runData = [].
Proof.
  unfold sights.
  destruct runData as [| |b|n| |s|l|ps]; simpl; try reflexivity; try discriminate.
  destruct s; [reflexivity | discriminate].
Qed.

(** The extractor, for a key that no prototype defines, in the terms of
    the description: the value it returns and the lines it writes. *)
Lemma extract_logged (execution : JsVal) :
  extractFromExecutionData execution key
  = Ok (Value (found execution key),
        if nowhere_to_look execution key then [debug_line execution] else []).
Proof.
  unfold found, nowhere_to_look. cbv zeta.
  unfold extractFromExecutionData, extract_try, top_level_value,
    annotation_value, runData_of, custom_data, annotation_data, run_data.
  rewrite <- !held_nullish, !(opt_read_plain _ _ key_plain). simpl found_defined.
  destruct (defined (held (held execution "customData") key)); [reflexivity|].
  destruct (defined (held (held (held execution "annotation") "customData") key));
    [reflexivity|].
  cbv zeta.
  set (runData := held (held (held execution "data") "resultData") "runData").
  rewrite verdict_walk, <- scan_runData_walk.
  pose proof (scan_runData_walk runData) as Hw.
  destruct (truthy runData) eqn:Ht; simpl.
  - destruct (scan_runData key runData) as [[[v|m]|]|m]; simpl in *;
      try reflexivity.
    symmetry in Hw. apply walk_value in Hw. destruct Hw.
  - rewrite (falsy_no_sights _ Ht) in Hw.
    destruct (scan_runData key runData) as [[f|]|m]; simpl in Hw;
      try discriminate. reflexivity.
Qed.

Lemma extract_described (execution : JsVal) :
  exists lines,
    extractFromExecutionData execution key
    = Ok (Value (found execution key), lines).
Proof. rewrite extract_logged. eauto. Qed.

End ExtractFacts.

(** A key written out is seen to be no built-in name by going through
    the names. *)
Ltac plain_key_holds :=
  let H := fresh in
  intros H; vm_compute in H;
  repeat (destruct H as [H|H]; [discriminate|]); exact H.

(** C9, as stated, fails.  A structural deviation behind the first match
    is not noticed: the match is returned, not none.  And a key that names
    a built-in member, as [constructor] does, is found in a custom-data
    map that does not hold it. *)
Lemma deviation_behind_match_is_not_reported :
  ~ (forall execution key,
       N8nSpec.deviates execution ->
       exists lines,
         N8n.extractFromExecutionData execution key = Ok (Value JNull, lines)) /\
  ~ (forall execution key,
       N8nSpec.held (N8nSpec.custom_data execution) key = JUndefined ->
       N8nSpec.held (N8nSpec.annotation_data execution) key = JUndefined ->
       N8nSpec.run_data execution = JUndefined ->
       exists lines,
         N8n.extractFromExecutionData execution key = Ok (Value JNull, lines)).
Proof.
  split.
  - intros Hclaim.
    destruct (Hclaim Samples.broken_behind_match "orderNumber")
      as (lines & Hrun).
    + unfold N8nSpec.deviates. vm_compute. auto.
    + vm_compute in Hrun. discriminate.
  - intros Hclaim.
    destruct (Hclaim (JObj [("customData", JObj [])]) "constructor")
      as (lines & Hrun); try reflexivity.
    vm_compute in Hrun. discriminate.
Qed.

(** C9, amended.  For a key that names no built-in member the extractor
    answers with the value the top-level custom data holds under the key
    if it holds one, else with the value the custom data of the annotation
    holds under the key if it holds one, else with the outcome of the
    scan of every node's every run's every output item in node-map order:
    the payload's value of the first item that holds the key, unless a
    part that cannot be walked is met first, and none ([null]) where the
    scan meets such a part first or ends without a match.  Whatever the
    key, it never throws. *)
Theorem extractFromExecutionData_fail_soft (execution : JsVal) (key : string) :
  (exists r, N8n.extractFromExecutionData execution key = Ok r) /\
  (Js.plain_key key ->
   let top := N8nSpec.held (N8nSpec.custom_data execution) key in
   let ann := N8nSpec.held (N8nSpec.annotation_data execution) key in
   let seen := N8nSpec.sights (N8nSpec.run_data execution) in
   (exists lines,
      N8n.extractFromExecutionData execution key =
      Ok (Value (if defined top then top
                 else if defined ann then ann
                 else N8nSpec.verdict key seen), lines)) /\
   (forall before item rest,
      seen = map N8nSpec.Item before ++ N8nSpec.Item item :: rest ->
      Forall (fun earlier =>
                N8nSpec.held (N8nSpec.held earlier "json") key = JUndefined)
             before ->
      N8nSpec.held (N8nSpec.held item "json") key <> JUndefined ->
      N8nSpec.verdict key seen = N8nSpec.held (N8nSpec.held item "json") key) /\
   (forall before rest,
      seen = map N8nSpec.Item before ++ rest ->
      Forall (fun earlier =>
                N8nSpec.held (N8nSpec.held earlier "json") key = JUndefined)
             before ->
      rest = [] \/ (exists rest', rest = N8nSpec.Broken :: rest') ->
      N8nSpec.verdict key seen = JNull)).
Proof.
  split.
  - unfold N8n.extractFromExecutionData.
    destruct (N8n.extract_try execution key); eauto.
  - intros Hplain. cbv zeta. split; [apply extract_described, Hplain|].
    assert (Hskip : forall before rest,
      Forall (fun earlier =>
                N8nSpec.held (N8nSpec.held earlier "json") key = JUndefined)
             before ->
      N8nSpec.verdict key (map N8nSpec.Item before ++ rest)
      = N8nSpec.verdict key rest).
    { intros before rest Hnone.
      induction Hnone as [|earlier before Hearlier _ IH]; simpl; [reflexivity|].
      rewrite Hearlier. exact IH. }
    split.
    + intros before item rest -> Hnone Hitem. rewrite (Hskip _ _ Hnone). simpl.
      destruct (N8nSpec.held (N8nSpec.held item "json") key); congruence.
    + intros before rest -> Hnone Hrest. rewrite (Hskip _ _ Hnone).
      destruct Hrest as [->|[rest' ->]]; reflexivity.
Qed.

Lemma extractFromExecutionData_fail_soft_witness :
  N8n.extractFromExecutionData Samples.sample_document "customer"
  = Ok (Value (JStr "c-9"), []) /\
  N8n.extractFromExecutionData Samples.annotated_document "orderNumber"
  = Ok (Value (JNum 1042), []) /\
  N8n.extractFromExecutionData Samples.sample_document "orderNumber"
  = Ok (Value (JStr "A7"), []) /\
  N8n.extractFromExecutionData Samples.sample_document "invoice"
  = Ok (Value JNull, []) /\
  N8n.extractFromExecutionData Samples.broken_before_match "orderNumber"
  = Ok (Value JNull, []).
Proof.
  refine (conj _ (conj _ (conj _ (conj _ _)))).
  - destruct (extractFromExecutionData_fail_soft Samples.sample_document "customer")
      as (_ & Hkey).
    destruct Hkey as ((lines & Hrun) & _); [plain_key_holds|].
    rewrite Hrun. vm_compute in Hrun. injection Hrun as <-. reflexivity.
  - destruct (extractFromExecutionData_fail_soft Samples.annotated_document
                "orderNumber") as (_ & Hkey).
    destruct Hkey as ((lines & Hrun) & _); [plain_key_holds|].
    rewrite Hrun. vm_compute in Hrun. injection Hrun as <-. reflexivity.
  - destruct (extractFromExecutionData_fail_soft Samples.sample_document
                "orderNumber") as (_ & Hkey).
    destruct Hkey as ((lines & Hrun) & _); [plain_key_holds|].
    rewrite Hrun. vm_compute in Hrun. injection Hrun as <-. reflexivity.
  - destruct (extractFromExecutionData_fail_soft Samples.sample_document
                "invoice") as (_ & Hkey).
    destruct Hkey as ((lines & Hrun) & _); [plain_key_holds|].
    rewrite Hrun. vm_compute in Hrun. injection Hrun as <-. reflexivity.
  - destruct (extractFromExecutionData_fail_soft Samples.broken_before_match
                "orderNumber") as (_ & Hkey).
    destruct Hkey as ((lines & Hrun) & _); [plain_key_holds|].
    rewrite Hrun. vm_compute in Hrun. injection Hrun as <-. reflexivity.
Defined.

(** ** The execution sync engine *)

Section SyncFacts.

Import Sync SyncSpec.

Lemma is_to_sync_iff (c : gmap string ExecutionOrder) (e : Exec.t) :
  is_to_sync c e = true <-> to_sync c e.
Proof.
  unfold is_to_sync, to_sync.
  destruct (c !! key_of e) as [row|] eqn:Hrow.
  - rewrite negb_true_iff. split.
    + intros Hne. right. exists row. split; [reflexivity|].
      intros Heq. rewrite Heq, String.eqb_refl in Hne. discriminate.
    + intros [Hnone | (row' & Hsome & Hne)]; [discriminate|].
      injection Hsome as <-. apply String.eqb_neq. exact Hne.
  - split; auto.
Qed.

(** The status map built from [findMany] agrees with the cache on the ids
    asked for. *)
Lemma existingMap_lookup (ids : list string) (c : gmap string ExecutionOrder)
  (k : string) :
  k ∈ ids ->
  (list_to_map (findMany_status ids c) : gmap string string) !! k
  = status <$> c !! k.
Proof.
  intros Hk. unfold findMany_status.
  change (map (fun kv : string * ExecutionOrder => (kv.1, status kv.2)))
    with (fmap (M:=list) (prod_map (@id string) status)).
  rewrite list_to_map_fmap, list_to_map_to_list, lookup_fmap.
  rewrite map_lookup_filter. destruct (c !! k) as [row|]; simpl; [|reflexivity].
  rewrite option_guard_True by exact Hk. reflexivity.
Qed.

Lemma toSync_of_filter (c : gmap string ExecutionOrder) (page : list Exec.t) :
  toSync_of c page = List.filter (is_to_sync c) page.
Proof.
  unfold toSync_of. apply List.filter_ext_in. intros e He.
  unfold new_or_changed, is_to_sync, key_of.
  rewrite existingMap_lookup.
  - destruct (c !! String_ (Exec.id e)); reflexivity.
  - apply list_elem_of_In, in_map_iff. eauto.
Qed.

Lemma console_log_run (lines : list string) (w : World) :
  for_ console_log lines w = (Done tt, logged lines w).
Proof.
  revert w. induction lines as [|line lines IH]; intros w; simpl.
  - unfold ret, logged. rewrite app_nil_r. destruct w; reflexivity.
  - unfold bind, console_log, modify. rewrite IH. unfold logged, print. simpl.
    rewrite <- app_assoc. reflexivity.
Qed.

Lemma upsert_run (e : Exec.t) (w : World) :
  upsert e w
  = (Done tt, emit (EvUpsert e)
                (set_cache (upsert_row e) (logged (snd (extraction e)) w))).
Proof.
  unfold upsert, upsert_row, orderNumber_value, extraction, key_of.
  unfold N8n.extractFromExecutionData.
  destruct (N8n.extract_try _ _) as [[found lines]|m];
    unfold bind at 1; cbn [lift ret raise fst snd]; unfold bind;
    rewrite console_log_run; reflexivity.
Qed.

Lemma upsertBatch_run (batch : list Exec.t) (w : World) :
  upsertBatch batch w = (Done tt, batch_world batch w).
Proof.
  unfold upsertBatch. revert w.
  induction batch as [|e batch IH]; intros w; simpl.
  - unfold ret, batch_world, debug_lines. simpl. rewrite !app_nil_r.
    destruct w; reflexivity.
  - unfold bind at 1. rewrite upsert_run, IH. f_equal.
    unfold batch_world, debug_lines, emit, set_cache, logged. simpl.
    rewrite <- !app_assoc. reflexivity.
Qed.

Lemma length_zero_eqb {A} (l : list A) :
  (Z.of_nat (length l) =? 0) = true <-> l = [].
Proof.
  rewrite Z.eqb_eq. destruct l; simpl; split; intros H;
    try reflexivity; try discriminate; lia.
Qed.

(** One iteration of the incremental loop. *)
Lemma incrementalSync_loop_step (remote : Remote) (fuel : nat)
  (cur : option string) (n : Z) (w : World) :
  incrementalSync_loop remote (S fuel) cur n w =
  let w1 := fetched remote (page_request cur) w in
  match page_at remote cur with
  | Throw m => (Raised m, w1)
  | Ok response =>
      let batch := List.filter (is_to_sync (cache w))
                               (default [] (data response)) in
      match batch with
      | [] => (Done n, w1)
      | _ :: _ =>
          let n' := n + Z.of_nat (length batch) in
          let w2 := batch_world batch w1 in
          match truthy_cursor (nextCursor response) with
          | None => (Done n', w2)
          | Some next => incrementalSync_loop remote fuel (Some next) n' w2
          end
      end
  end.
Proof.
  cbn [incrementalSync_loop]. unfold page_at, fetched.
  unfold bind at 1. unfold getExecutions, bind at 1, modify, lift.
  destruct (answer (remote (page_request cur))) as [response|m];
    [|reflexivity].
  cbn [ret raise].
  destruct (Z.of_nat (length (default [] (data response))) =? 0) eqn:Hlen.
  - apply length_zero_eqb in Hlen. rewrite Hlen. reflexivity.
  - unfold bind at 1, gets. cbn [cache emit elapse].
    rewrite toSync_of_filter.
    destruct (List.filter _ _) as [|e batch] eqn:Hbatch.
    + reflexivity.
    + assert (Hpos : (0 <? Z.of_nat (length (e :: batch))) = true)
        by (apply Z.ltb_lt; simpl; lia).
      assert (Hnz : (Z.of_nat (length (e :: batch)) =? 0) = false)
        by (apply Z.eqb_neq; simpl; lia).
      rewrite Hpos, Hnz. unfold bind at 1. rewrite upsertBatch_run.
      destruct (truthy_cursor (nextCursor response)); reflexivity.
Qed.

Lemma upserts_of_app (a b : list Event) :
  upserts_of (a ++ b) = upserts_of a ++ upserts_of b.
Proof. apply omap_app. Qed.

Lemma upserts_of_upserts (batch : list Exec.t) :
  upserts_of (map EvUpsert batch) = batch.
Proof. induction batch; simpl; unfold upserts_of in *; simpl; congruence. Qed.

Lemma upsert_all_app (a b : list Exec.t) (c : gmap string ExecutionOrder) :
  upsert_all (a ++ b) c = upsert_all b (upsert_all a c).
Proof. apply foldl_app. Qed.

Lemma effects_refl (w : World) : effects w w [].
Proof. unfold effects. simpl. rewrite app_nil_r. auto. Qed.

Lemma effects_trans (w1 w2 w3 : World) (a b : list Event) :
  effects w1 w2 a -> effects w2 w3 b -> effects w1 w3 (a ++ b).
Proof.
  intros (Ht1 & Hc1 & Hg1 & Hl1) (Ht2 & Hc2 & Hg2 & Hl2).
  unfold effects. rewrite Ht2, Ht1, Hc2, Hc1, Hg2, Hl2.
  rewrite upserts_of_app, upsert_all_app, app_assoc. auto.
Qed.

Lemma effects_fetched (remote : Remote) (req : Request) (w : World) :
  effects w (fetched remote req w) [EvFetch req].
Proof. unfold effects. simpl. auto. Qed.

Lemma effects_batch (batch : list Exec.t) (w : World) :
  effects w (batch_world batch w) (map EvUpsert batch).
Proof. unfold effects. simpl. rewrite upserts_of_upserts. auto. Qed.

Lemma effects_print (line : string) (w : World) : effects w (print line w) [].
Proof. unfold effects. simpl. rewrite app_nil_r. auto. Qed.

Lemma effects_fetch_batch (remote : Remote) (req : Request)
  (batch : list Exec.t) (w : World) :
  effects w (batch_world batch (fetched remote req w))
          (EvFetch req :: map EvUpsert batch).
Proof.
  apply (effects_trans w (fetched remote req w) _ [EvFetch req]);
    [apply effects_fetched | apply effects_batch].
Qed.

(** Every run of the incremental loop is a run in the sense of
    [inc_run]. *)
Lemma incrementalSync_loop_run (remote : Remote) (fuel : nat) :
  forall (cur : option string) (n : Z) (w : World),
  exists evs,
    effects w (incrementalSync_loop remote fuel cur n w).2 evs /\
    inc_run remote (cache w) cur evs
            (finished (incrementalSync_loop remote fuel cur n w).1) /\
    opens_with_fetch fuel cur evs.
Proof.
  induction fuel as [|fuel IH]; intros cur n w.
  - exists []. split; [apply effects_refl|].
    split; [constructor | intros H; congruence].
  - rewrite incrementalSync_loop_step. cbv zeta.
    destruct (page_at remote cur) as [response|m] eqn:Hpage.
    + destruct (List.filter _ _) as [|e batch] eqn:Hbatch.
      * exists [EvFetch (page_request cur)].
        split; [apply effects_fetched|].
        split; [eapply inc_caught_up; eauto | intros _; eauto].
      * destruct (truthy_cursor (nextCursor response)) as [next|] eqn:Hnext.
        -- set (w2 := batch_world (e :: batch) (fetched remote (page_request cur) w)).
           destruct (IH (Some next) (n + Z.of_nat (length (e :: batch))) w2)
             as (evs & Heff & Hrun & _).
           exists ((EvFetch (page_request cur) :: map EvUpsert (e :: batch)) ++ evs).
           split; [|split].
           ++ eapply effects_trans; [apply effects_fetch_batch | exact Heff].
           ++ rewrite <- app_comm_cons.
              apply (inc_next_page remote _ _ response (e :: batch) next);
                auto; congruence.
           ++ intros _. rewrite <- app_comm_cons. eauto.
        -- exists (EvFetch (page_request cur) :: map EvUpsert (e :: batch)).
           split; [apply effects_fetch_batch|].
           split; [|intros _; eauto].
           apply (inc_last_page remote _ _ response); auto; congruence.
    + exists [EvFetch (page_request cur)].
      split; [apply effects_fetched|].
      split; [eapply inc_fetch_failed; eauto | intros _; eauto].
Qed.

Lemma upsert_row_twice (e : Exec.t) (c : gmap string ExecutionOrder) :
  upsert_row e (upsert_row e c) = upsert_row e c.
Proof.
  unfold upsert_row, prisma_upsert.
  destruct (c !! key_of e) as [old|] eqn:Hold;
    rewrite lookup_insert_eq, insert_insert_eq; reflexivity.
Qed.

(** One iteration of the backfill loop. *)
Lemma fullBackfill_loop_step (remote : Remote) (fuel : nat)
  (cur : option string) (total : Z) (w : World) :
  fullBackfill_loop remote (S fuel) cur total w =
  let w1 := fetched remote (page_request cur) w in
  match page_at remote cur with
  | Throw m => (Raised m, w1)
  | Ok response =>
      let page := default [] (data response) in
      match page with
      | [] => (Done total, w1)
      | _ :: _ =>
          let total' := total + Z.of_nat (length page) in
          let w2 := batch_world page w1 in
          match truthy_cursor (nextCursor response) with
          | None => (Done total', w2)
          | Some next => fullBackfill_loop remote fuel (Some next) total' w2
          end
      end
  end.
Proof.
  cbn [fullBackfill_loop]. unfold page_at, fetched.
  unfold bind at 1. unfold getExecutions, bind at 1, modify, lift.
  destruct (answer (remote (page_request cur))) as [response|m];
    [|reflexivity].
  cbn [ret raise].
  destruct (default [] (data response)) as [|e page] eqn:Hpage; [reflexivity|].
  assert (Hnz : (Z.of_nat (length (e :: page)) =? 0) = false)
    by (apply Z.eqb_neq; simpl; lia).
  rewrite Hnz. unfold bind at 1. rewrite upsertBatch_run.
  destruct (truthy_cursor (nextCursor response)); reflexivity.
Qed.

Lemma fullBackfill_loop_effects (remote : Remote) (fuel : nat) :
  forall (cur : option string) (total : Z) (w : World),
  exists evs,
    effects w (fullBackfill_loop remote fuel cur total w).2 evs /\
    opens_with_fetch fuel cur evs.
Proof.
  induction fuel as [|fuel IH]; intros cur total w.
  - exists []. split; [apply effects_refl | intros H; congruence].
  - rewrite fullBackfill_loop_step. cbv zeta.
    destruct (page_at remote cur) as [response|m].
    + destruct (default [] (data response)) as [|e page].
      * exists [EvFetch (page_request cur)].
        split; [apply effects_fetched | intros _; eauto].
      * destruct (truthy_cursor (nextCursor response)) as [next|].
        -- set (w2 := batch_world (e :: page) (fetched remote (page_request cur) w)).
           destruct (IH (Some next) (total + Z.of_nat (length (e :: page))) w2)
             as (evs & Heff & _).
           exists ((EvFetch (page_request cur) :: map EvUpsert (e :: page)) ++ evs).
           split; [|intros _; rewrite <- app_comm_cons; eauto].
           eapply effects_trans; [apply effects_fetch_batch | exact Heff].
        -- exists (EvFetch (page_request cur) :: map EvUpsert (e :: page)).
           split; [apply effects_fetch_batch | intros _; eauto].
    + exists [EvFetch (page_request cur)].
      split; [apply effects_fetched | intros _; eauto].
Qed.

Lemma effects_print_after (w w1 : World) (evs : list Event) (line : string) :
  effects w w1 evs -> effects w (print line w1) evs.
Proof.
  intros H. rewrite <- (app_nil_r evs).
  eapply effects_trans; [exact H | apply effects_print].
Qed.

Lemma effects_print_before (w w1 : World) (evs : list Event) (line : string) :
  effects (print line w) w1 evs -> effects w w1 evs.
Proof.
  intros H. change evs with ([] ++ evs).
  eapply effects_trans; [apply effects_print | exact H].
Qed.

Lemma fullBackfill_effects (remote : Remote) (fuel : nat) (w : World) :
  exists evs,
    effects w (fullBackfill remote fuel w).2 evs /\
    opens_with_fetch fuel None evs.
Proof.
  unfold fullBackfill. unfold bind at 1. unfold console_log at 1, modify.
  unfold bind at 1.
  destruct (fullBackfill_loop_effects remote fuel None 0
              (print "[n8n-sync] Starting full backfill..." w))
    as (evs & Heff & Hopen).
  exists evs. split; [|exact Hopen].
  apply effects_print_before in Heff.
  destruct (fullBackfill_loop remote fuel None 0 _) as [[total|m|] w1];
    simpl in *; auto using effects_print_after.
Qed.

Lemma incrementalSync_effects (remote : Remote) (fuel : nat) (w : World) :
  exists evs,
    effects w (incrementalSync remote fuel w).2 evs /\
    opens_with_fetch fuel None evs.
Proof.
  unfold incrementalSync. unfold bind at 1.
  destruct (incrementalSync_loop_run remote fuel None 0 w)
    as (evs & Heff & _ & Hopen).
  exists evs. split; [|exact Hopen].
  destruct (incrementalSync_loop remote fuel None 0 w) as [[n|m|] w1];
    simpl in *; auto.
  destruct (0 <? n); simpl; auto using effects_print_after.
Qed.

Lemma sync_pass_effects (remote : Remote) (fuel : nat) (w : World) :
  exists evs,
    effects w (sync_pass remote fuel w).2 evs /\
    opens_with_fetch fuel None evs.
Proof.
  unfold sync_pass, bind, gets.
  destruct (Nat.eqb _ _);
    [apply fullBackfill_effects | apply incrementalSync_effects].
Qed.

(** The call is a no-op while a pass is running or the cooldown lasts. *)
Lemma syncExecutions_skipped (remote : Remote) (fuel : nat) (w : World) :
  syncInProgress w = true \/ now w - lastSyncTime w < SYNC_COOLDOWN ->
  syncExecutions remote fuel w = (Done tt, w).
Proof.
  intros H. unfold syncExecutions, bind, gets.
  destruct (syncInProgress w); [reflexivity|].
  destruct H as [H|H]; [discriminate|].
  apply Z.ltb_lt in H. rewrite H. reflexivity.
Qed.

(** Otherwise it runs one pass under the guard and releases it. *)
Lemma syncExecutions_pass (remote : Remote) (fuel : nat) (w : World) :
  syncInProgress w = false ->
  SYNC_COOLDOWN <= now w - lastSyncTime w ->
  syncExecutions remote fuel w =
  match sync_pass remote fuel (set_syncInProgress true w) with
  | (Done _, w1) => (Done tt, release w1)
  | (Raised m, w1) =>
      (Done tt, release (print ("[n8n-sync] Sync failed: " +:+ m) w1))
  | (Pending, w1) => (Pending, w1)
  end.
Proof.
  intros Hfree Hcool. unfold syncExecutions, bind at 1, gets.
  rewrite Hfree. unfold bind at 1. unfold bind at 1.
  apply Z.ltb_ge in Hcool. rewrite Hcool.
  unfold bind at 1, modify, try_finally, try_catch.
  destruct (sync_pass remote fuel (set_syncInProgress true w))
    as [[[]|m|] w1]; reflexivity.
Qed.

Lemma upsert_row_keeps (e : Exec.t) (c : gmap string ExecutionOrder) (k : string) :
  is_Some (c !! k) -> is_Some (upsert_row e c !! k).
Proof.
  intros Hk. unfold upsert_row, prisma_upsert.
  destruct (c !! key_of e) eqn:He; apply lookup_insert_is_Some';
    right; exact Hk.
Qed.

Lemma upsert_row_has (e : Exec.t) (c : gmap string ExecutionOrder) :
  is_Some (upsert_row e c !! key_of e).
Proof.
  unfold upsert_row, prisma_upsert.
  destruct (c !! key_of e); rewrite lookup_insert_eq; eauto.
Qed.

Lemma upsert_all_keeps (batch : list Exec.t) :
  forall (c : gmap string ExecutionOrder) (k : string),
  is_Some (c !! k) -> is_Some (upsert_all batch c !! k).
Proof.
  induction batch as [|e batch IH]; intros c k Hk; simpl; [exact Hk|].
  apply IH, upsert_row_keeps, Hk.
Qed.

(** Every item upserted has a row afterwards. *)
Lemma upsert_all_has (batch : list Exec.t) :
  forall (c : gmap string ExecutionOrder) (e : Exec.t),
  In e batch -> is_Some (upsert_all batch c !! key_of e).
Proof.
  induction batch as [|e' batch IH]; intros c e; simpl; [tauto|].
  intros [->|Hin]; [|apply IH, Hin].
  apply upsert_all_keeps, upsert_row_has.
Qed.

End SyncFacts.

(** C1. In an incremental sync an item of a fetched page is to sync
    exactly when its id is absent from the cache or its status differs
    from the cached status; each fetch is followed by the upserts of the
    to-sync items of its page and by no other upsert; and the loop returns
    on the first page without a to-sync item, without a further fetch.
    With the cache [A: success, B: running] and the pages
    [B: success, C: success], [A: success] and a third one, B and C are
    upserted and the third page is not fetched. *)
Theorem incrementalSync_stops_when_caught_up :
  (forall (remote : Sync.Remote) (fuel : nat) (cur : option string) (n : Z)
          (w : Sync.World),
     let r := Sync.incrementalSync_loop remote fuel cur n w in
     (forall page e,
        In e (Sync.toSync_of (Sync.cache w) page) <->
        In e page /\ SyncSpec.to_sync (Sync.cache w) e) /\
     (exists evs,
        SyncSpec.effects w r.2 evs /\
        SyncSpec.inc_run remote (Sync.cache w) cur evs (SyncSpec.finished r.1)) /\
     (forall response,
        fuel <> O ->
        SyncSpec.page_at remote cur = Ok response ->
        (forall e, In e (default [] (Sync.data response)) ->
                   ~ SyncSpec.to_sync (Sync.cache w) e) ->
        r = (Done n, SyncSpec.fetched remote (Sync.page_request cur) w))) /\
  (let r := Sync.incrementalSync Samples.three_pages 10 Samples.world_AB in
   r.1 = Done tt /\
   Sync.trace r.2 =
     [Sync.EvFetch (Sync.page_request None);
      Sync.EvUpsert (Samples.execution "B" "success");
      Sync.EvUpsert (Samples.execution "C" "success");
      Sync.EvFetch (Sync.page_request (Some "page-2"))] /\
   Sync.cache r.2 !! "A" = Some (Samples.row "success") /\
   Sync.cache r.2 !! "B" = Some (Samples.row "success") /\
   Sync.cache r.2 !! "C" = Some (Samples.row "success") /\
   Sync.cache r.2 !! "D" = None).
Proof.
  split.
  - intros remote fuel cur n w. cbv zeta. split; [|split].
    + intros page e. rewrite toSync_of_filter, List.filter_In, is_to_sync_iff.
      reflexivity.
    + destruct (incrementalSync_loop_run remote fuel cur n w)
        as (evs & Heff & Hrun & _).
      eauto.
    + intros response Hfuel Hpage Hnone.
      destruct fuel as [|fuel]; [congruence|].
      rewrite incrementalSync_loop_step. cbv zeta. rewrite Hpage.
      destruct (List.filter _ _) as [|e batch] eqn:Hbatch; [reflexivity|].
      assert (He : In e (List.filter (SyncSpec.is_to_sync (Sync.cache w))
                           (default [] (Sync.data response))))
        by (rewrite Hbatch; left; reflexivity).
      apply List.filter_In in He as [Hin Hsync].
      apply is_to_sync_iff in Hsync. destruct (Hnone e Hin Hsync).
  - vm_compute. repeat split; reflexivity.
Qed.

Lemma incrementalSync_stops_when_caught_up_witness :
  Sync.incrementalSync_loop Samples.three_pages 5 (Some "page-2") 7
                            Samples.world_AB
  = (Done 7, SyncSpec.fetched Samples.three_pages
               (Sync.page_request (Some "page-2")) Samples.world_AB).
Proof.
  destruct incrementalSync_stops_when_caught_up as [Hgeneral _].
  destruct (Hgeneral Samples.three_pages 5%nat (Some "page-2") 7
                     Samples.world_AB) as (_ & _ & Hstop).
  eapply Hstop.
  - discriminate.
  - reflexivity.
  - intros e [<-|[]] Hsync. apply is_to_sync_iff in Hsync.
    vm_compute in Hsync. discriminate.
Defined.

(** The extractor finds for the order number what the document holds
    for it. *)
Lemma orderNumber_found (e : Exec.t) :
  SyncSpec.orderNumber_value e
  = Value (N8nSpec.found (Exec.document e) "orderNumber").
Proof.
  unfold SyncSpec.orderNumber_value, SyncSpec.extraction.
  destruct (extract_described "orderNumber" ltac:(plain_key_holds)
              (Exec.document e)) as [lines ->].
  reflexivity.
Qed.

Lemma extraction_lines (e : Exec.t) :
  snd (SyncSpec.extraction e)
  = if N8nSpec.nowhere_to_look (Exec.document e) "orderNumber"
    then [N8n.debug_line (Exec.document e)] else [].
Proof.
  unfold SyncSpec.extraction.
  rewrite (extract_logged "orderNumber" ltac:(plain_key_holds)).
  reflexivity.
Qed.

Lemma orderNumber_column_text (v : JsVal) :
  SyncSpec.text_of v (Sync.orderNumber_column (Value v)).
Proof. destruct v; reflexivity. Qed.

Lemma optDate_date (v : JsVal) : SyncSpec.date_of v (Sync.optDate v).
Proof. unfold SyncSpec.date_of, Sync.optDate. destruct (truthy v); reflexivity. Qed.

(** C5. The upsert of an execution item sets every field of a row that
    did not exist: the order number the document holds, as text, the
    workflow id, the status, both dates and the mode; on an existing row
    it refreshes orderNumber, status and stoppedAt and leaves startedAt,
    workflowId and mode as they were; it touches no other row; and
    applying the same item a second time leaves the cache as the first
    application left it. *)
Theorem upsert_create_update_idempotent (exec : Exec.t) (w : Sync.World) :
  let k := String_ (Exec.id exec) in
  let number := N8nSpec.found (Exec.document exec) "orderNumber" in
  let w' := (Sync.upsert exec w).2 in
  (Sync.upsert exec w).1 = Done tt /\
  (Sync.cache w !! k = None ->
   exists row, Sync.cache w' !! k = Some row /\
     SyncSpec.text_of number (Sync.orderNumber row) /\
     Sync.workflowId row = String_ (Exec.workflowId exec) /\
     Sync.status row = Exec.status exec /\
     SyncSpec.date_of (Exec.startedAt exec) (Sync.startedAt row) /\
     SyncSpec.date_of (Exec.stoppedAt exec) (Sync.stoppedAt row) /\
     Sync.mode row = Exec.mode exec) /\
  (forall old, Sync.cache w !! k = Some old ->
   exists row, Sync.cache w' !! k = Some row /\
     SyncSpec.text_of number (Sync.orderNumber row) /\
     Sync.status row = Exec.status exec /\
     SyncSpec.date_of (Exec.stoppedAt exec) (Sync.stoppedAt row) /\
     Sync.startedAt row = Sync.startedAt old /\
     Sync.workflowId row = Sync.workflowId old /\
     Sync.mode row = Sync.mode old) /\
  (forall k', k' <> k -> Sync.cache w' !! k' = Sync.cache w !! k') /\
  Sync.cache (Sync.upsert exec w').2 = Sync.cache w'.
Proof.
  cbv zeta. rewrite !upsert_run.
  cbn [fst snd Sync.emit Sync.set_cache Sync.cache SyncSpec.logged].
  unfold SyncSpec.upsert_row at 1 2 3, Sync.prisma_upsert, SyncSpec.key_of.
  rewrite orderNumber_found.
  split; [reflexivity|]. split; [|split; [|split]].
  - intros Hnone. rewrite Hnone. eexists. rewrite lookup_insert_eq.
    split; [reflexivity|]. simpl.
    auto 10 using orderNumber_column_text, optDate_date.
  - intros old Hold. rewrite Hold. eexists. rewrite lookup_insert_eq.
    split; [reflexivity|]. simpl.
    auto 10 using orderNumber_column_text, optDate_date.
  - intros k' Hk'.
    destruct (Sync.cache w !! String_ (Exec.id exec));
      rewrite lookup_insert_ne by congruence; reflexivity.
  - apply upsert_row_twice.
Qed.

Lemma upsert_create_update_idempotent_witness :
  Sync.cache (Sync.upsert Samples.numbered_execution Samples.world_AB).2 !! "N"
  = Some (Sync.mkRow (Some "1042") "wf-1" "success"
            (Some (Sync.NewDate (JStr "2026-02-06T10:00:00Z")))
            (Some (Sync.NewDate (JStr "2026-02-06T10:00:05Z")))
            (Some "webhook")) /\
  Sync.cache (Sync.upsert (Samples.execution "B" "success") Samples.world_AB).2
    !! "B"
  = Some (Sync.mkRow None "wf-1" "success"
            (Some (Sync.NewDate (JStr "2026-02-06T10:00:00Z")))
            (Some (Sync.NewDate (JStr "2026-02-06T10:00:05Z")))
            (Some "webhook")).
Proof.
  split.
  - destruct (upsert_create_update_idempotent
                Samples.numbered_execution Samples.world_AB)
      as (_ & Hcreate & _).
    destruct Hcreate
      as (row & Hrow & Hnumber & Hworkflow & Hstatus & Hstarted & Hstopped & Hmode);
      [reflexivity|].
    transitivity (Some row); [exact Hrow|].
    destruct row. cbn in *. subst. reflexivity.
  - destruct (upsert_create_update_idempotent
                (Samples.execution "B" "success") Samples.world_AB)
      as (_ & _ & Hupdate & _).
    destruct (Hupdate (Samples.row "running"))
      as (row & Hrow & Hnumber & Hstatus & Hstopped & Hstarted & Hworkflow & Hmode);
      [reflexivity|].
    transitivity (Some row); [exact Hrow|].
    destruct row. cbn in *. subst. reflexivity.
Defined.

(** C3, as stated, fails: after a pass that raised, the guard is free but
    the cooldown is not cleared; the stamp is set to the time the pass
    ended, and the cooldown test holds the next call back. *)
Lemma cooldown_not_cleared_by_failed_pass :
  ~ (forall (remote : Sync.Remote) (fuel : nat) (w w1 : Sync.World) (m : string),
       Sync.syncInProgress w = false ->
       Sync.SYNC_COOLDOWN <= Sync.now w - Sync.lastSyncTime w ->
       Sync.sync_pass remote fuel (Sync.set_syncInProgress true w)
         = (Raised m, w1) ->
       SyncSpec.cooldown_cleared (Sync.syncExecutions remote fuel w).2).
Proof.
  intros Hclaim.
  apply (Hclaim Samples.failing_second_page 10%nat Samples.world_AB
           (Sync.sync_pass Samples.failing_second_page 10
              (Sync.set_syncInProgress true Samples.world_AB)).2
           "n8n API error 502: Bad Gateway").
  - reflexivity.
  - vm_compute. discriminate.
  - vm_compute. reflexivity.
  - vm_compute. reflexivity.
Qed.

(** C3, amended. When the pass of a call raises, the call still returns
    normally with the error logged, the guard flag is cleared and the
    cooldown stamp is set to the time the pass ended; the rows upserted
    before the error stay in the cache; a call made before the cooldown
    has elapsed does nothing, and a call made after it runs a new pass. *)
Theorem syncExecutions_failed_pass (remote : Sync.Remote) (fuel : nat)
  (w w1 : Sync.World) (m : string) :
  Sync.syncInProgress w = false ->
  Sync.SYNC_COOLDOWN <= Sync.now w - Sync.lastSyncTime w ->
  Sync.sync_pass remote fuel (Sync.set_syncInProgress true w) = (Raised m, w1) ->
  let r := Sync.syncExecutions remote fuel w in
  r.1 = Done tt /\
  Sync.console r.2 = Sync.console w1 ++ ["[n8n-sync] Sync failed: " +:+ m] /\
  Sync.syncInProgress r.2 = false /\
  Sync.lastSyncTime r.2 = Sync.now r.2 /\
  (exists evs,
     Sync.trace r.2 = Sync.trace w ++ evs /\
     Sync.cache r.2 = SyncSpec.upsert_all (SyncSpec.upserts_of evs) (Sync.cache w) /\
     forall e, In e (SyncSpec.upserts_of evs) ->
               is_Some (Sync.cache r.2 !! SyncSpec.key_of e)) /\
  (forall remote' fuel' d,
     d < Sync.SYNC_COOLDOWN ->
     Sync.syncExecutions remote' fuel' (Sync.elapse d r.2)
     = (Done tt, Sync.elapse d r.2)) /\
  (forall remote' fuel' d,
     Sync.SYNC_COOLDOWN <= d ->
     exists rest,
       Sync.trace (Sync.syncExecutions remote' (S fuel') (Sync.elapse d r.2)).2
       = Sync.trace r.2 ++ Sync.EvFetch (Sync.page_request None) :: rest).
Proof.
  intros Hfree Hcool Hpass. cbv zeta.
  rewrite (syncExecutions_pass remote fuel w Hfree Hcool), Hpass.
  cbn [fst snd].
  destruct (sync_pass_effects remote fuel (Sync.set_syncInProgress true w))
    as (evs & Heff & _).
  rewrite Hpass in Heff. destruct Heff as (Htrace & Hcache & _ & _).
  cbn [snd Sync.trace Sync.cache Sync.set_syncInProgress] in Htrace, Hcache.
  repeat split.
  - exists evs. cbn. rewrite Htrace, Hcache. repeat split.
    intros e He. apply upsert_all_has, He.
  - intros remote' fuel' d Hd. apply syncExecutions_skipped. right.
    cbn. lia.
  - intros remote' fuel' d Hd.
    set (w' := Sync.elapse d (SyncSpec.release
                 (Sync.print ("[n8n-sync] Sync failed: " +:+ m) w1))).
    rewrite (syncExecutions_pass remote' (S fuel') w');
      [|reflexivity|cbn; lia].
    destruct (sync_pass_effects remote' (S fuel') (Sync.set_syncInProgress true w'))
      as (evs' & (Htrace' & _) & Hopen).
    destruct Hopen as [rest ->]; [discriminate|].
    exists rest.
    destruct (Sync.sync_pass remote' (S fuel') _) as [[[]|m'|] w2];
      cbn in *; exact Htrace'.
Qed.

Lemma syncExecutions_failed_pass_witness :
  let r := Sync.syncExecutions Samples.failing_second_page 10 Samples.world_AB in
  Sync.syncInProgress r.2 = false /\
  Sync.lastSyncTime r.2 = Sync.now r.2 /\
  Sync.syncExecutions Samples.three_pages 10 (Sync.elapse 1000 r.2)
  = (Done tt, Sync.elapse 1000 r.2).
Proof.
  destruct (syncExecutions_failed_pass Samples.failing_second_page 10%nat
              Samples.world_AB
              (Sync.sync_pass Samples.failing_second_page 10
                 (Sync.set_syncInProgress true Samples.world_AB)).2
              "n8n API error 502: Bad Gateway")
    as (_ & _ & Hguard & Hstamp & _ & Hskip & _).
  - reflexivity.
  - vm_compute. discriminate.
  - vm_compute. reflexivity.
  - cbv zeta. split; [exact Hguard|]. split; [exact Hstamp|].
    apply Hskip. reflexivity.
Defined.

(** ** The schema cache *)

Section SoftrFacts.

Import Softr SoftrSpec.

Variable JSON_stringify : JsVal -> string.

Abbreviation insert_field := (Softr.insert_field JSON_stringify).
Abbreviation create_table := (Softr.create_table JSON_stringify).
Abbreviation replace_all := (Softr.replace_all JSON_stringify).
Abbreviation syncSoftrData := (Softr.syncSoftrData JSON_stringify).
Abbreviation field_row := (Softr.field_row JSON_stringify).

(** The rows added by the nested field inserts of one table. *)
Lemma insert_fields_spec (t : Api.Table) (fs : list Api.Field) :
  forall db o db',
    for_ (insert_field t) fs db = (o, db') ->
    o <> Pending /\
    (o = Done tt ->
     softrTable db' = softrTable db /\
     forall id row,
       softrField db' !! id = Some row <->
       softrField db !! id = Some row \/
       exists f, In f fs /\ Api.id f = id /\ row = field_row t f).
Proof.
  induction fs as [|f fs IH]; intros db o db'; simpl.
  - intros [= <- <-]. split; [discriminate|]. intros _. split; [reflexivity|].
    intros id row. split; [auto|]. intros [H|(f & [] & _)]. exact H.
  - unfold bind at 1, Softr.insert_field at 1.
    destruct (softrField db !! Api.id f) eqn:Hfresh.
    + intros [= <- <-]. split; discriminate.
    + intros Hrest. apply IH in Hrest as [Hnp Hdone].
      split; [exact Hnp|]. intros Ho.
      destruct (Hdone Ho) as [Htab Hfld]. cbn in Htab, Hfld.
      split; [exact Htab|]. intros id row. rewrite Hfld, lookup_insert_Some.
      split.
      * intros [[[<- <-]|[_ H]]|(f' & Hin & Hid & Hrow)]; eauto 6.
      * intros [H|(f' & [<-|Hin] & Hid & Hrow)]; eauto 6.
        left. right. split; [congruence | exact H].
Qed.

(** The rows added by the creation of a list of tables. *)
Lemma create_tables_spec (env : Env) (ts : list Api.Table) :
  forall db o db',
    for_ (create_table env) ts db = (o, db') ->
    o <> Pending /\
    (o = Done tt ->
     (forall id row,
        softrTable db' !! id = Some row <->
        softrTable db !! id = Some row \/
        exists t, In t ts /\ Api.table_id t = id /\ row = table_row env t) /\
     (forall id row,
        softrField db' !! id = Some row <->
        softrField db !! id = Some row \/
        exists t f, In t ts /\ In f (fields_of t) /\ Api.id f = id /\
                    row = field_row t f)).
Proof.
  induction ts as [|t ts IH]; intros db o db'; simpl.
  - intros [= <- <-]. split; [discriminate|]. intros _.
    split; intros id row; (split; [auto|]).
    + intros [H|(t & [] & _)]. exact H.
    + intros [H|(t & f & [] & _)]. exact H.
  - unfold bind at 1, Softr.create_table at 1.
    destruct (softrTable db !! Api.table_id t) eqn:Hfresh.
    + intros [= <- <-]. split; discriminate.
    + destruct (for_ (insert_field t) (fields_of t) _) as [o1 db1] eqn:Hfields.
      apply insert_fields_spec in Hfields as [Hnp1 Hdone1].
      destruct o1 as [[]|m|]; [|intros [= <- <-]; split; discriminate|congruence].
      destruct (Hdone1 eq_refl) as [Htab1 Hfld1]. cbn in Htab1, Hfld1.
      intros Hrest. apply IH in Hrest as [Hnp Hdone].
      split; [exact Hnp|]. intros Ho. destruct (Hdone Ho) as [Htab Hfld].
      split; intros id row.
      * rewrite Htab, Htab1, lookup_insert_Some. split.
        -- intros [[[<- <-]|[_ H]]|(t' & Hin & Hid & Hrow)]; eauto 6.
        -- intros [H|(t' & [<-|Hin] & Hid & Hrow)]; eauto 6.
           left. right. split; [congruence | exact H].
      * rewrite Hfld, Hfld1. split.
        -- intros [[H|(f & Hin & Hid & Hrow)]|(t' & f & Hin & Hf & Hid & Hrow)];
             eauto 10.
        -- intros [H|(t' & f & [<-|Hin] & Hf & Hid & Hrow)]; eauto 10.
Qed.

(** The rows the code builds are the rows described, and no others are. *)
Lemma table_stored_iff (env : Env) (t : Api.Table) (row : SoftrTable) :
  table_stored env t row <-> row = table_row env t.
Proof.
  unfold table_stored. split.
  - destruct row. cbn. intros (-> & -> & -> & -> & ->). reflexivity.
  - intros ->. cbn. auto.
Qed.

Lemma text_of_iff (v : JsVal) (column : option string) :
  SyncSpec.text_of v column <-> column = Sync.optString v.
Proof. destruct v; reflexivity. Qed.

Lemma date_of_iff (v : JsVal) (column : option Sync.DateTime) :
  SyncSpec.date_of v column <-> column = Sync.optDate v.
Proof.
  unfold SyncSpec.date_of, Sync.optDate. destruct (truthy v); reflexivity.
Qed.

Lemma field_stored_iff (t : Api.Table) (f : Api.Field) (row : SoftrField) :
  field_stored JSON_stringify t f row <-> row = field_row t f.
Proof.
  unfold field_stored. rewrite text_of_iff, !date_of_iff. split.
  - destruct row. cbn.
    intros (-> & -> & -> & -> & -> & -> & -> & -> & Hoptions & -> & ->).
    unfold Softr.field_row. f_equal.
    destruct (truthy (Api.options f)); exact Hoptions.
  - intros ->. cbn. repeat split. destruct (truthy (Api.options f)); reflexivity.
Qed.

(** Calls made through [tx] act on the view and leave the committed
    tables alone. *)
Lemma for_through_tx {B} (call : B -> M Db unit) (l : list B) (c v : Db) :
  for_ (fun x => through tx (call x)) l (mkTx c v)
  = ((for_ call l v).1, mkTx c (for_ call l v).2).
Proof.
  revert v. induction l as [|x l IH]; intros v; simpl; [reflexivity|].
  unfold bind, through. cbn [view committed].
  destruct (call x v) as [[[]|m|] v1]; cbn [fst snd]; [apply IH | reflexivity..].
Qed.

Lemma replace_all_run (env : Env) (ts : list Api.Table) (c v : Db) :
  replace_all env ts (mkTx c v)
  = ((for_ (create_table env) ts (mkDb ∅ ∅)).1,
     mkTx c (for_ (create_table env) ts (mkDb ∅ ∅)).2).
Proof.
  unfold Softr.replace_all, bind, through, deleteMany_fields,
    deleteMany_tables, modify.
  cbn [fst snd view committed softrTable]. apply for_through_tx.
Qed.

(** A committed replacement holds the given tables and nothing else. *)
Lemma replace_all_spec (env : Env) (ts : list Api.Table) (db' : Db)
  (o : Outcome unit) :
  for_ (create_table env) ts (mkDb ∅ ∅) = (o, db') ->
  o <> Pending /\
  (o = Done tt ->
   holds_tables env ts db' /\ holds_fields JSON_stringify ts db').
Proof.
  intros Hrun. apply create_tables_spec in Hrun as [Hnp Hdone].
  split; [exact Hnp|]. intros Ho. destruct (Hdone Ho) as [Htab Hfld].
  cbn in Htab, Hfld. split; intros id row.
  - rewrite Htab, lookup_empty. setoid_rewrite table_stored_iff.
    split; [intros [H|H]; [discriminate|exact H] | auto].
  - rewrite Hfld, lookup_empty. setoid_rewrite field_stored_iff.
    split; [intros [H|H]; [discriminate|exact H] | auto].
Qed.

(** [syncSoftrData] step by step. *)
Lemma syncSoftrData_unfold (env : Env) (db : Db) :
  syncSoftrData env db =
  match getDatabaseId env with
  | Throw m => (Raised m, db)
  | Ok databaseId =>
      match getTables env databaseId with
      | Throw m => (Raised m, db)
      | Ok tablesList =>
          match Promise_all (detail_fetches env databaseId tablesList) with
          | Throw m => (Raised m, db)
          | Ok detailed =>
              match for_ (create_table env) (filter_Boolean detailed)
                         (mkDb ∅ ∅) with
              | (Done _, db') => (Done (length (filter_Boolean detailed)), db')
              | (Raised m, _) => (Raised m, db)
              | (Pending, _) => (Pending, db)
              end
          end
      end
  end.
Proof.
  unfold Softr.syncSoftrData, bind, lift, transaction.
  destruct (getDatabaseId env) as [databaseId|m]; [|reflexivity].
  cbn [ret raise].
  destruct (getTables env databaseId) as [tablesList|m]; [|reflexivity].
  cbn [ret raise].
  destruct (Promise_all _) as [detailed|m]; [|reflexivity].
  cbn [ret raise]. rewrite replace_all_run.
  destruct (for_ (create_table env) (filter_Boolean detailed) (mkDb ∅ ∅))
    as [[[]|m|] db']; reflexivity.
Qed.

Lemma Promise_all_Ok {A} (l : list A) : Promise_all (map Ok l) = Ok l.
Proof. induction l as [|a l IH]; simpl; [|rewrite IH]; reflexivity. Qed.

Lemma Promise_all_Throw {A} (ps : list (Result A)) (m : string) :
  In (Throw m) ps -> exists m', Promise_all ps = Throw m'.
Proof.
  induction ps as [|p ps IH]; simpl; [tauto|].
  intros [->|Hin]; [eauto|].
  destruct p as [a|m0]; [|eauto].
  destruct (IH Hin) as [m' ->]. eauto.
Qed.

Lemma Promise_all_returned {A} (promises : list (Result A)) (results : list A) :
  Promise_all promises = Ok results -> promises = map Ok results.
Proof.
  revert results. induction promises as [|[a|m] ps IH]; simpl; intros results Hall.
  - injection Hall as <-. reflexivity.
  - destruct (Promise_all ps) as [rest|m]; [|discriminate].
    injection Hall as <-. simpl. f_equal. apply IH. reflexivity.
  - discriminate.
Qed.

Lemma surviving_Ok (detailed : list (option Api.Table)) :
  surviving (map Ok detailed) = filter_Boolean detailed.
Proof.
  unfold surviving, filter_Boolean.
  induction detailed as [|[t|] l IH]; simpl; unfold omap in *; simpl;
    congruence.
Qed.

Lemma filter_Boolean_In {A} (l : list (option A)) (a : A) :
  In a (filter_Boolean l) <-> In (Some a) l.
Proof.
  unfold filter_Boolean. rewrite <- !list_elem_of_In, list_elem_of_omap.
  split.
  - intros (o & Ho & Heq). simpl in Heq. subst o. exact Ho.
  - intros H. exists (Some a). auto.
Qed.

(** Fresh, pairwise distinct ids: the inserts go through. *)
Lemma insert_fields_ok (t : Api.Table) (fs : list Api.Field) :
  forall db,
    NoDup (map Api.id fs) ->
    (forall f, In f fs -> softrField db !! Api.id f = None) ->
    exists db', for_ (insert_field t) fs db = (Done tt, db').
Proof.
  induction fs as [|f fs IH]; intros db Hnd Hfresh; simpl.
  - unfold ret. eauto.
  - unfold bind at 1, Softr.insert_field at 1.
    rewrite (Hfresh f) by (left; reflexivity).
    apply NoDup_cons in Hnd as [Hnotin Hnd].
    apply IH; [exact Hnd|]. intros f' Hin. cbn.
    rewrite lookup_insert_ne; [apply Hfresh; right; exact Hin|].
    intros Heq. apply Hnotin. rewrite Heq.
    apply list_elem_of_In, in_map, Hin.
Qed.

Lemma create_tables_ok (env : Env) (ts : list Api.Table) :
  forall db,
    NoDup (table_ids ts) ->
    NoDup (field_ids ts) ->
    (forall id, In id (table_ids ts) -> softrTable db !! id = None) ->
    (forall id, In id (field_ids ts) -> softrField db !! id = None) ->
    exists db', for_ (create_table env) ts db = (Done tt, db').
Proof.
  induction ts as [|t ts IH]; intros db Hnt Hnf Hft Hff; simpl.
  - unfold ret. eauto.
  - unfold bind at 1, Softr.create_table at 1.
    rewrite (Hft (Api.table_id t)) by (left; reflexivity).
    cbn [table_ids map] in Hnt. apply NoDup_cons in Hnt as [Htnotin Hnt].
    cbn [field_ids flat_map] in Hnf, Hff.
    apply NoDup_app in Hnf as (Hnf1 & Hdisj & Hnf2).
    set (db0 := mkDb _ _).
    destruct (insert_fields_ok t (fields_of t) db0 Hnf1) as [db1 Hdb1].
    { intros f Hin. apply Hff, in_or_app. left. apply in_map, Hin. }
    rewrite Hdb1.
    destruct (insert_fields_spec t _ _ _ _ Hdb1) as [_ Hspec].
    destruct (Hspec eq_refl) as [Htab1 Hfld1]. cbn in Htab1, Hfld1.
    apply IH; [exact Hnt | exact Hnf2 | |].
    + intros id Hin. rewrite Htab1, lookup_insert_ne.
      * apply Hft. right. exact Hin.
      * intros Heq. apply Htnotin. rewrite Heq. apply list_elem_of_In, Hin.
    + intros id Hin. apply eq_None_not_Some. intros [row Hrow].
      apply Hfld1 in Hrow as [Hrow|(f & Hf & Hid & _)].
      * rewrite Hff in Hrow by (apply in_or_app; right; exact Hin).
        discriminate.
      * apply (Hdisj id); [|apply list_elem_of_In, Hin].
        rewrite <- Hid. apply list_elem_of_In, in_map, Hf.
Qed.

Lemma replace_all_ok (env : Env) (ts : list Api.Table) :
  NoDup (table_ids ts) -> NoDup (field_ids ts) ->
  exists db', for_ (create_table env) ts (mkDb ∅ ∅) = (Done tt, db').
Proof.
  intros Hnt Hnf.
  apply create_tables_ok; auto; intros id _; apply lookup_empty.
Qed.

(** Inserts that all went through had fresh, pairwise distinct ids. *)
Lemma insert_fields_done (t : Api.Table) (fs : list Api.Field) :
  forall db db',
    for_ (insert_field t) fs db = (Done tt, db') ->
    NoDup (map Api.id fs) /\
    forall f, In f fs -> softrField db !! Api.id f = None.
Proof.
  induction fs as [|f fs IH]; intros db db'; simpl.
  - intros _. split; [constructor | intros f []].
  - unfold bind at 1, Softr.insert_field at 1.
    destruct (softrField db !! Api.id f) eqn:Hfresh; [discriminate|].
    intros Hrest. apply IH in Hrest as [Hnd Hfree]. cbn in Hfree.
    split.
    + apply NoDup_cons. split; [|exact Hnd].
      intros Hin. apply list_elem_of_In, in_map_iff in Hin as (f' & Hid & Hin).
      specialize (Hfree f' Hin). apply lookup_insert_None in Hfree as [_ Hne].
      congruence.
    + intros f' [<-|Hin]; [exact Hfresh|].
      specialize (Hfree f' Hin). apply lookup_insert_None in Hfree. tauto.
Qed.

Lemma create_tables_done (env : Env) (ts : list Api.Table) :
  forall db db',
    for_ (create_table env) ts db = (Done tt, db') ->
    NoDup (table_ids ts) /\ NoDup (field_ids ts) /\
    (forall id, In id (table_ids ts) -> softrTable db !! id = None) /\
    (forall id, In id (field_ids ts) -> softrField db !! id = None).
Proof.
  induction ts as [|t ts IH]; intros db db'; simpl.
  - intros _. repeat split; try constructor; intros id [].
  - unfold bind at 1, Softr.create_table at 1.
    destruct (softrTable db !! Api.table_id t) eqn:Hfresh; [discriminate|].
    destruct (for_ (insert_field t) (fields_of t) _) as [o1 db1] eqn:Hfields.
    destruct o1 as [[]|m|]; [|discriminate|discriminate].
    destruct (insert_fields_spec t _ _ _ _ Hfields) as [_ Hspec].
    destruct (Hspec eq_refl) as [Htab1 Hfld1]. cbn in Htab1, Hfld1.
    apply insert_fields_done in Hfields as [Hnd1 Hfree1]. cbn in Hfree1.
    intros Hrest. apply IH in Hrest as (Hnt & Hnf & Hft & Hff).
    assert (Hmine : forall f, In f (fields_of t) ->
              is_Some (softrField db1 !! Api.id f)).
    { intros f Hf. exists (field_row t f).
      apply Hfld1. right. eauto. }
    split; [|split; [|split]].
    + cbn [table_ids map]. apply NoDup_cons. split; [|exact Hnt].
      intros Hin. apply list_elem_of_In in Hin.
      specialize (Hft _ Hin). rewrite Htab1, lookup_insert_eq in Hft.
      discriminate.
    + cbn [field_ids flat_map]. apply NoDup_app. split; [exact Hnd1|].
      split; [|exact Hnf].
      intros id Hin1 Hin2. apply list_elem_of_In in Hin1, Hin2.
      apply in_map_iff in Hin1 as (f & <- & Hf).
      destruct (Hmine f Hf) as [row Hrow].
      rewrite (Hff _ Hin2) in Hrow. discriminate.
    + intros id [<-|Hin]; [exact Hfresh|].
      specialize (Hft _ Hin). rewrite Htab1 in Hft.
      apply lookup_insert_None in Hft. tauto.
    + intros id Hin. cbn [field_ids flat_map] in Hin.
      apply in_app_or in Hin as [Hin|Hin].
      * apply in_map_iff in Hin as (f & <- & Hf). apply Hfree1, Hf.
      * specialize (Hff _ Hin). apply eq_None_not_Some. intros [row Hrow].
        assert (Hsome : softrField db1 !! id = Some row)
          by (apply Hfld1; left; exact Hrow).
        congruence.
Qed.

(** The outcome of the sync once every fetch has returned. *)
Lemma syncSoftrData_fetched (env : Env) (db : Db) (databaseId : string)
  (tablesList : list string) (detailed : list (option Api.Table)) :
  getDatabaseId env = Ok databaseId ->
  getTables env databaseId = Ok tablesList ->
  Promise_all (detail_fetches env databaseId tablesList) = Ok detailed ->
  let tables := filter_Boolean detailed in
  (NoDup (table_ids tables) /\ NoDup (field_ids tables) ->
   exists db', syncSoftrData env db = (Done (length tables), db') /\
               holds_tables env tables db' /\
               holds_fields JSON_stringify tables db') /\
  (~ (NoDup (table_ids tables) /\ NoDup (field_ids tables)) ->
   exists m, syncSoftrData env db = (Raised m, db)).
Proof.
  intros Hdb Hlist Hall. cbv zeta.
  rewrite syncSoftrData_unfold, Hdb, Hlist, Hall.
  destruct (for_ (create_table env) (filter_Boolean detailed) (mkDb ∅ ∅))
    as [[[]|m|] db'] eqn:Hrun.
  - destruct (replace_all_spec _ _ _ _ Hrun) as [_ Hdone].
    split; [eauto|]. intros Hclash. destruct Hclash.
    apply create_tables_done in Hrun. tauto.
  - split; [|eauto]. intros [Hnt Hnf].
    destruct (replace_all_ok env _ Hnt Hnf) as [db'' Hok]. congruence.
  - destruct (replace_all_spec _ _ _ _ Hrun) as [Hnp _]. congruence.
Qed.

End SoftrFacts.

(** C2. The table sync replaces the schema cache all or nothing.  The
    deletes and the inserts are made in the view of one transaction and
    leave the committed tables alone until it commits.  A run that
    commits leaves exactly the rows of the fetched tables and of their
    nested fields, every former row gone; a run that raises, in a fetch
    before the transaction or inside it, leaves the cache as it was. *)
Theorem syncSoftrData_all_or_nothing (JSON_stringify : JsVal -> string)
  (env : Softr.Env) (db : Softr.Db) :
  let r := Softr.syncSoftrData JSON_stringify env db in
  (forall tables,
     Softr.committed
       (Softr.replace_all JSON_stringify env tables (Softr.mkTx db db)).2
     = db) /\
  (forall m, r.1 = Raised m -> r.2 = db) /\
  (forall m databaseId tablesList,
     Softr.getDatabaseId env = Throw m \/
     Softr.getDatabaseId env = Ok databaseId /\
       (Softr.getTables env databaseId = Throw m \/
        Softr.getTables env databaseId = Ok tablesList /\
        Softr.Promise_all (Softr.detail_fetches env databaseId tablesList)
          = Throw m) ->
     r = (Raised m, db)) /\
  (forall n, r.1 = Done n ->
     exists databaseId tablesList,
       Softr.getDatabaseId env = Ok databaseId /\
       Softr.getTables env databaseId = Ok tablesList /\
       let fetches := map (Softr.getTable env databaseId) tablesList in
       let tables := SoftrSpec.surviving fetches in
       (forall m, ~ In (Throw m) fetches) /\
       n = length tables /\
       SoftrSpec.holds_tables env tables r.2 /\
       SoftrSpec.holds_fields JSON_stringify tables r.2) /\
  r.1 <> Pending.
Proof.
  cbv zeta. split; [intros tables; rewrite replace_all_run; reflexivity|].
  rewrite syncSoftrData_unfold. repeat split.
  - intros m.
    destruct (Softr.getDatabaseId env) as [databaseId|m1]; [|reflexivity].
    destruct (Softr.getTables env databaseId) as [tablesList|m2]; [|reflexivity].
    destruct (Softr.Promise_all _) as [detailed|m3]; [|reflexivity].
    destruct (for_ _ _ _) as [[[]|m4|] db'];
      [discriminate|reflexivity|discriminate].
  - intros m databaseId tablesList [->|[-> [->|[-> ->]]]]; reflexivity.
  - intros n.
    destruct (Softr.getDatabaseId env) as [databaseId|m1]; [|discriminate].
    destruct (Softr.getTables env databaseId) as [tablesList|m2] eqn:Hlist;
      [|discriminate].
    destruct (Softr.Promise_all _) as [detailed|m3] eqn:Hall; [|discriminate].
    destruct (for_ _ _ _) as [[[]|m4|] db'] eqn:Hrun;
      [|discriminate|discriminate].
    intros [= <-].
    destruct (replace_all_spec _ _ _ _ _ Hrun) as [_ Hdone].
    destruct (Hdone eq_refl) as [Htab Hfld].
    exists databaseId, tablesList. cbn [snd].
    split; [reflexivity|]. split; [exact Hlist|]. cbv zeta.
    apply Promise_all_returned in Hall.
    change (Softr.detail_fetches env databaseId tablesList)
      with (map (Softr.getTable env databaseId) tablesList) in Hall.
    rewrite Hall, surviving_Ok.
    split; [|split; [reflexivity | split; assumption]].
    intros m (d & [=] & _)%in_map_iff.
  - destruct (Softr.getDatabaseId env) as [databaseId|m1]; [|discriminate].
    destruct (Softr.getTables env databaseId) as [tablesList|m2]; [|discriminate].
    destruct (Softr.Promise_all _) as [detailed|m3]; [|discriminate].
    destruct (for_ _ _ _) as [[[]|m4|] db'] eqn:Hrun;
      try discriminate.
    destruct (replace_all_spec _ _ _ _ _ Hrun) as [Hnp _]. congruence.
Qed.

(** Against a cache that holds the tables [t2] and [t9]: a transaction
    that fails on its last insert, after both deletes and two table
    creations in its view, leaves the cache as it was, and so does a
    failed detail fetch; a run that commits leaves the three fetched
    tables with their fields, and [t9] with its field is gone. *)
Lemma syncSoftrData_all_or_nothing_witness :
  Softr.syncSoftrData Samples.stringify_sample Samples.clashing_env
    Samples.cached_before
  = (Raised "Unique constraint failed on the fields: (`id`)",
     Samples.cached_before) /\
  Softr.softrTable
    (Softr.view (Softr.replace_all Samples.stringify_sample Samples.clashing_env
                   [Samples.orders; Samples.lines; Samples.clashing]
                   (Softr.mkTx Samples.cached_before Samples.cached_before)).2)
    !! "t9" = None /\
  is_Some (Softr.softrTable Samples.cached_before !! "t9") /\
  (Softr.syncSoftrData Samples.stringify_sample Samples.third_detail_fails
     Samples.cached_before).2 = Samples.cached_before /\
  (let r := Softr.syncSoftrData Samples.stringify_sample Samples.healthy_env
              Samples.cached_before in
   r.1 = Done 3%nat /\
   Softr.softrTable r.2 !! "t9" = None /\
   Softr.softrField r.2 !! "f8" = None /\
   Softr.softrTable r.2 !! "t1"
   = Some (Softr.mkTableRow "Webattelier - orders" None (Some "f1") None
             1770991200) /\
   Softr.softrField r.2 !! "f2"
   = Some (Softr.mkFieldRow "t1" "Customer" "TEXT" true false false false
             None None
             (Some (Sync.NewDate (JStr "2026-02-13T14:00:00Z"))) None)).
Proof.
  destruct (syncSoftrData_all_or_nothing Samples.stringify_sample
              Samples.clashing_env Samples.cached_before)
    as (_ & Hclash & _).
  destruct (syncSoftrData_all_or_nothing Samples.stringify_sample
              Samples.third_detail_fails Samples.cached_before)
    as (_ & Hfetch & _).
  destruct (syncSoftrData_all_or_nothing Samples.stringify_sample
              Samples.healthy_env Samples.cached_before)
    as (_ & _ & _ & Hdone & _).
  split; [|split; [|split; [|split]]].
  - specialize (Hclash "Unique constraint failed on the fields: (`id`)").
    destruct (Softr.syncSoftrData Samples.stringify_sample Samples.clashing_env
                Samples.cached_before) as [o db'] eqn:Hrun.
    cbn [fst snd] in Hclash.
    assert (Ho : o = Raised "Unique constraint failed on the fields: (`id`)")
      by (apply (f_equal fst) in Hrun; vm_compute in Hrun; congruence).
    rewrite (Hclash Ho), Ho. reflexivity.
  - vm_compute. reflexivity.
  - vm_compute. eauto.
  - apply (Hfetch "Softr API error 500: Internal Server Error").
    vm_compute. reflexivity.
  - cbv zeta. destruct (Hdone 3%nat) as
      (databaseId & tablesList & Hdb & Hlist & Hheld);
      [vm_compute; reflexivity|].
    injection Hdb as <-. injection Hlist as <-.
    cbv zeta in Hheld. destruct Hheld as (_ & _ & Htab & Hfld).
    split; [vm_compute; reflexivity|].
    split; [|split; [|split]].
    + apply eq_None_not_Some. intros [row Hrow].
      apply Htab in Hrow as (t & Hin & Hid & _).
      vm_compute in Hin. destruct Hin as [<-|[<-|[<-|[]]]]; discriminate.
    + apply eq_None_not_Some. intros [row Hrow].
      apply Hfld in Hrow as (t & f & Hin & Hf & Hid & _).
      vm_compute in Hin. destruct Hin as [<-|[<-|[<-|[]]]];
        vm_compute in Hf; intuition (subst; discriminate).
    + apply Htab. exists Samples.orders.
      split; [vm_compute; auto|]. split; [reflexivity|].
      repeat split.
    + apply Hfld. exists Samples.orders, (Samples.field "f2" "Customer" "TEXT").
      split; [vm_compute; auto|]. split; [vm_compute; auto|].
      split; [reflexivity|]. repeat split.
Defined.

(** C4, as stated, fails: a table whose detail fetch failed is not
    filtered out.  With three tables listed and the third detail fetch
    throwing, the two remaining tables are not synced and no count is
    returned. *)
Lemma failed_detail_fetch_is_not_filtered_out :
  ~ (forall (JSON_stringify : JsVal -> string) (env : Softr.Env) (db : Softr.Db)
            (databaseId : string) (tablesList : list string),
       Softr.getDatabaseId env = Ok databaseId ->
       Softr.getTables env databaseId = Ok tablesList ->
       let tables :=
         SoftrSpec.surviving (Softr.detail_fetches env databaseId tablesList) in
       NoDup (SoftrSpec.table_ids tables) ->
       NoDup (SoftrSpec.field_ids tables) ->
       let r := Softr.syncSoftrData JSON_stringify env db in
       r.1 = Done (length tables) /\ SoftrSpec.holds_tables env tables r.2).
Proof.
  intros Hclaim.
  destruct (Hclaim Samples.stringify_sample Samples.third_detail_fails
              (Softr.mkDb ∅ ∅) "db1" ["t1"; "t2"; "t3"]) as [Hcount _].
  - reflexivity.
  - reflexivity.
  - apply (bool_decide_unpack _). vm_compute. exact I.
  - apply (bool_decide_unpack _). vm_compute. exact I.
  - vm_compute in Hcount. discriminate.
Qed.

(** C4, amended. The table sync fetches the detail of every listed table.
    If one of these fetches fails, the sync fails before the transaction
    and the cache stays as it was.  If all return, the tables whose fetch
    returned nothing are dropped and the others replace the cache in one
    transaction: with pairwise distinct table ids and pairwise distinct
    field ids it commits and the sync returns the count of these tables;
    otherwise it fails, and the sync with it, the cache staying as it
    was.  A count is returned in no other case. *)
Theorem syncSoftrData_detail_fetches (JSON_stringify : JsVal -> string)
  (env : Softr.Env) (db : Softr.Db) (databaseId : string)
  (tablesList : list string) :
  Softr.getDatabaseId env = Ok databaseId ->
  Softr.getTables env databaseId = Ok tablesList ->
  let fetches := Softr.detail_fetches env databaseId tablesList in
  let tables := SoftrSpec.surviving fetches in
  let distinct :=
    NoDup (SoftrSpec.table_ids tables) /\ NoDup (SoftrSpec.field_ids tables) in
  let r := Softr.syncSoftrData JSON_stringify env db in
  length fetches = length tablesList /\
  (forall i tableId, tablesList !! i = Some tableId ->
     fetches !! i = Some (Softr.getTable env databaseId tableId)) /\
  (forall m, In (Throw m) fetches -> exists m', r = (Raised m', db)) /\
  (forall detailed, fetches = map Ok detailed ->
     (forall t, In t tables <-> In (Some t) detailed) /\
     (distinct ->
      r.1 = Done (length tables) /\
      SoftrSpec.holds_tables env tables r.2 /\
      SoftrSpec.holds_fields JSON_stringify tables r.2) /\
     (~ distinct -> exists m, r = (Raised m, db))) /\
  (forall n, r.1 = Done n ->
     n = length tables /\ distinct /\
     exists detailed, fetches = map Ok detailed).
Proof.
  intros Hdb Hlist. cbv zeta.
  split; [apply length_map|]. split; [|split; [|split]].
  - intros i tableId Hi. unfold Softr.detail_fetches.
    rewrite list_lookup_fmap, Hi. reflexivity.
  - intros m Hin. rewrite syncSoftrData_unfold, Hdb, Hlist.
    destruct (Promise_all_Throw _ _ Hin) as [m' ->]. eauto.
  - intros detailed Hdetailed.
    assert (Hall : Softr.Promise_all
                     (Softr.detail_fetches env databaseId tablesList)
                   = Ok detailed) by (rewrite Hdetailed; apply Promise_all_Ok).
    rewrite Hdetailed, surviving_Ok.
    destruct (syncSoftrData_fetched JSON_stringify env db _ _ _ Hdb Hlist Hall)
      as [Hcommit Hfail].
    split; [intros t; apply filter_Boolean_In|]. split; [|exact Hfail].
    intros Hdistinct. destruct (Hcommit Hdistinct) as (db' & -> & Hholds).
    split; [reflexivity | exact Hholds].
  - intros n Hn.
    destruct (Softr.Promise_all (Softr.detail_fetches env databaseId tablesList))
      as [detailed|m] eqn:Hall.
    + pose proof (Promise_all_returned _ _ Hall) as Hdetailed.
      rewrite Hdetailed, surviving_Ok.
      destruct (syncSoftrData_fetched JSON_stringify env db _ _ _ Hdb Hlist Hall)
        as [Hcommit Hfail].
      destruct (decide (NoDup (SoftrSpec.table_ids (Softr.filter_Boolean detailed))
                        /\ NoDup (SoftrSpec.field_ids (Softr.filter_Boolean detailed))))
        as [Hdistinct|Hclash].
      * destruct (Hcommit Hdistinct) as (db' & Hrun & _).
        rewrite Hrun in Hn. injection Hn as <-. eauto.
      * destruct (Hfail Hclash) as [m Hrun]. rewrite Hrun in Hn. discriminate.
    + rewrite syncSoftrData_unfold, Hdb, Hlist, Hall in Hn. discriminate.
Qed.

Lemma syncSoftrData_detail_fetches_witness :
  (exists m', Softr.syncSoftrData Samples.stringify_sample
                Samples.third_detail_fails Samples.cached_three
              = (Raised m', Samples.cached_three)) /\
  (Softr.syncSoftrData Samples.stringify_sample Samples.healthy_env
     (Softr.mkDb ∅ ∅)).1 = Done 3%nat /\
  (exists m', Softr.syncSoftrData Samples.stringify_sample
                Samples.clashing_env Samples.cached_three
              = (Raised m', Samples.cached_three)).
Proof.
  split; [|split].
  - destruct (syncSoftrData_detail_fetches Samples.stringify_sample
                Samples.third_detail_fails Samples.cached_three
                "db1" ["t1"; "t2"; "t3"] eq_refl eq_refl)
      as (_ & _ & Hfail & _).
    apply (Hfail "Softr API error 500: Internal Server Error").
    vm_compute. auto.
  - destruct (syncSoftrData_detail_fetches Samples.stringify_sample
                Samples.healthy_env (Softr.mkDb ∅ ∅)
                "db1" ["t1"; "t2"; "t3"] eq_refl eq_refl)
      as (_ & _ & _ & Hall & _).
    destruct (Hall [Some Samples.orders; Some Samples.lines; Some Samples.swatches])
      as (_ & Hcommit & _); [reflexivity|].
    apply Hcommit. split; apply (bool_decide_unpack _); vm_compute; exact I.
  - destruct (syncSoftrData_detail_fetches Samples.stringify_sample
                Samples.clashing_env Samples.cached_three
                "db1" ["t1"; "t2"; "t3"] eq_refl eq_refl)
      as (_ & _ & _ & Hall & _).
    destruct (Hall [Some Samples.orders; Some Samples.lines; Some Samples.clashing])
      as (_ & _ & Hfail); [reflexivity|].
    apply Hfail. intros [_ Hnf].
    apply (bool_decide_pack _) in Hnf. vm_compute in Hnf. exact Hnf.
Defined.

(** ** The display form of raw field values *)

Section ResolveFacts.

Import Softr SoftrSpec.

Lemma attachment_shown (att : JsVal) :
  nullish att = false -> attachment att = Ok (shown_attachment att).
Proof.
  intros Hatt. unfold attachment, get_strict. rewrite Hatt. reflexivity.
Qed.

Lemma Array_map_shown (l : list JsVal) :
  Forall (fun att => nullish att = false) l ->
  Array_map attachment l = Ok (map shown_attachment l).
Proof.
  induction 1 as [|att l Hatt _ IH]; simpl; [reflexivity|].
  rewrite (attachment_shown att Hatt), IH. reflexivity.
Qed.

Lemma carries_url_not_nullish (att : JsVal) :
  carries_url att = true -> nullish att = false.
Proof. destruct att; simpl; congruence. Qed.

Lemma attachment_list_first (v : JsVal) :
  attachment_list v = true ->
  carries_label v = false /\ first_carries_url v = true /\
  Forall (fun att => nullish att = false) (elems v).
Proof.
  destruct v as [| |b|n| |s|[|first rest]|ps]; simpl; try discriminate.
  intros [Hfirst Hrest]%andb_true_iff. split; [reflexivity|]. split.
  - destruct first; simpl in *; try discriminate. exact Hfirst.
  - constructor; [apply carries_url_not_nullish, Hfirst|].
    apply Forall_forall. intros att Hatt.
    apply carries_url_not_nullish.
    rewrite forallb_forall in Hrest. apply Hrest, list_elem_of_In, Hatt.
Qed.

Lemma resolve_labelled (v : JsVal) :
  carries_label v = true -> resolveFieldValue v = Ok (get v "label").
Proof.
  destruct v; simpl; try discriminate.
  unfold resolveFieldValue. simpl. intros ->. reflexivity.
Qed.

Lemma resolve_first_url (v : JsVal) :
  carries_label v = false -> first_carries_url v = true ->
  Forall (fun att => nullish att = false) (elems v) ->
  resolveFieldValue v = Ok (JArr (map shown_attachment (elems v))).
Proof.
  destruct v as [| |b|n| |s|[|first rest]|ps]; simpl; try discriminate.
  intros _ Hfirst Hall. unfold resolveFieldValue. cbn [nullish typeof_object
    Array_isArray negb andb]. rewrite Hfirst.
  rewrite (Array_map_shown _ Hall). reflexivity.
Qed.

Lemma resolve_other (v : JsVal) :
  carries_label v = false -> first_carries_url v = false ->
  resolveFieldValue v = Ok v.
Proof.
  destruct v as [| |b|n| |s|[|first rest]|ps]; simpl; try reflexivity.
  - intros _ Hfirst. unfold resolveFieldValue. simpl. rewrite Hfirst.
    reflexivity.
  - intros Hlabel _. unfold resolveFieldValue. simpl. rewrite Hlabel.
    reflexivity.
Qed.

(** The elements after the first are read without a guard: a [null]
    among them makes the resolver throw. *)
Lemma resolve_null_element_throws :
  exists m, resolveFieldValue (JArr [JObj [("url", JStr "u1")]; JNull]) = Throw m.
Proof. eexists. reflexivity. Qed.

End ResolveFacts.

(** C8, as stated, fails: a list that is not a list of objects carrying a
    url, and no labelled object either, can still be rewritten.  The list
    [{url: "u1"}, {id: "x"}] is turned into two [{url, filename}] objects,
    because only the first element is probed. *)
Lemma resolveFieldValue_mixed_list_changes :
  ~ (forall v, SoftrSpec.carries_label v = false ->
               SoftrSpec.attachment_list v = false ->
               Softr.resolveFieldValue v = Ok v).
Proof.
  intros Hclaim.
  specialize (Hclaim (JArr [JObj [("url", JStr "u1")]; JObj [("id", JStr "x")]])
                     eq_refl eq_refl).
  vm_compute in Hclaim. discriminate.
Qed.

(** C8, amended. The display resolver maps a non-array object carrying a
    label to that label; a non-empty list whose first element carries a
    url and none of whose elements is null or undefined to the list of
    [{url, filename}] of its elements, the filename being "Download" when
    absent or empty, and every non-empty list of objects carrying a url
    is such a list; and every value that is neither a non-array object
    carrying a label nor a list whose first element carries a url, null,
    plain strings and the lists whose first element carries no url among
    them, to itself. *)
Theorem resolveFieldValue_display (v : JsVal) :
  (SoftrSpec.carries_label v = true ->
   Softr.resolveFieldValue v = Ok (get v "label")) /\
  (SoftrSpec.carries_label v = false ->
   SoftrSpec.first_carries_url v = true ->
   Forall (fun att => nullish att = false) (elems v) ->
   Softr.resolveFieldValue v
   = Ok (JArr (map SoftrSpec.shown_attachment (elems v)))) /\
  (SoftrSpec.attachment_list v = true ->
   Softr.resolveFieldValue v
   = Ok (JArr (map SoftrSpec.shown_attachment (elems v)))) /\
  (SoftrSpec.carries_label v = false ->
   SoftrSpec.first_carries_url v = false ->
   Softr.resolveFieldValue v = Ok v) /\
  (forall att, get att "filename" = JUndefined ->
     SoftrSpec.shown_attachment att
     = JObj [("url", get att "url"); ("filename", JStr "Download")]) /\
  Softr.resolveFieldValue (JObj [("id", JStr "x"); ("label", JStr "Blue")])
  = Ok (JStr "Blue") /\
  Softr.resolveFieldValue (JArr [JObj [("url", JStr "u1")]])
  = Ok (JArr [JObj [("url", JStr "u1"); ("filename", JStr "Download")]]) /\
  Softr.resolveFieldValue JNull = Ok JNull /\
  (forall s, Softr.resolveFieldValue (JStr s) = Ok (JStr s)).
Proof.
  split; [apply resolve_labelled|].
  split; [apply resolve_first_url|].
  split.
  { intros (Hlabel & Hfirst & Hall)%attachment_list_first.
    apply resolve_first_url; assumption. }
  split; [apply resolve_other|].
  split.
  { intros att Hnone. unfold SoftrSpec.shown_attachment. rewrite Hnone.
    reflexivity. }
  repeat split.
Qed.

Lemma resolveFieldValue_display_witness :
  Softr.resolveFieldValue
    (JArr [JObj [("url", JStr "u1"); ("filename", JStr "a.pdf")];
           JObj [("url", JStr "u2")]])
  = Ok (JArr [JObj [("url", JStr "u1"); ("filename", JStr "a.pdf")];
              JObj [("url", JStr "u2"); ("filename", JStr "Download")]]) /\
  Softr.resolveFieldValue (JArr [JStr "red"; JStr "blue"])
  = Ok (JArr [JStr "red"; JStr "blue"]).
Proof.
  split.
  - destruct (resolveFieldValue_display
                (JArr [JObj [("url", JStr "u1"); ("filename", JStr "a.pdf")];
                       JObj [("url", JStr "u2")]]))
      as (_ & _ & Hlist & _).
    apply Hlist. reflexivity.
  - destruct (resolveFieldValue_display (JArr [JStr "red"; JStr "blue"]))
      as (_ & _ & _ & Hother & _).
    apply Hother; reflexivity.
Defined.

(** ** The search requests *)

Section SearchFacts.

Import Softr SoftrSpec.

Lemma list_ascii_of_string_app (a b : string) :
  String.list_ascii_of_string (a +:+ b)
  = String.list_ascii_of_string a ++ String.list_ascii_of_string b.
Proof. induction a as [|c a IH]; simpl; [|rewrite IH]; reflexivity. Qed.

Lemma trim_start_blank (pre l : list ascii) :
  Forall (fun c => Ascii.is_space c = true) pre ->
  trim_start (pre ++ l) = trim_start l.
Proof. induction 1 as [|c pre Hc _ IH]; simpl; [|rewrite Hc]; auto. Qed.

Lemma trim_start_app (l post : list ascii) :
  trim_start (l ++ post) =
  match trim_start l with
  | [] => trim_start post
  | kept => kept ++ post
  end.
Proof.
  induction l as [|c l IH]; simpl.
  - destruct (trim_start post); reflexivity.
  - destruct (Ascii.is_space c); [exact IH | reflexivity].
Qed.

Lemma trim_start_blank_nil (l : list ascii) :
  Forall (fun c => Ascii.is_space c = true) l -> trim_start l = [].
Proof.
  intros H. rewrite <- (app_nil_r l), (trim_start_blank l [] H). reflexivity.
Qed.

(** White space around a query does not survive the trim. *)
Lemma trim_padded (pre q post : string) :
  blank pre -> blank post -> trim (pre +:+ q +:+ post) = trim q.
Proof.
  unfold blank, trim. intros Hpre Hpost.
  rewrite !list_ascii_of_string_app, (trim_start_blank _ _ Hpre).
  rewrite trim_start_app.
  destruct (trim_start (String.list_ascii_of_string q)) as [|c kept] eqn:Hq.
  - rewrite (trim_start_blank_nil _ Hpost). reflexivity.
  - rewrite rev_app_distr, trim_start_blank; [reflexivity|].
    apply Forall_forall. intros x Hx. rewrite Forall_forall in Hpost.
    apply Hpost. apply list_elem_of_In. apply list_elem_of_In, in_rev in Hx.
    exact Hx.
Qed.

Lemma trim_empty : trim "" = "".
Proof. reflexivity. Qed.

(** The early return sees only the trimmed query. *)
Lemma empty_query_test (query : string) :
  String.eqb query "" || String.eqb (trim query) ""
  = String.eqb (trim query) "".
Proof.
  destruct (String.eqb_spec query "") as [->|Hne]; reflexivity.
Qed.

Variable Number : string -> JsVal.

Lemma field_condition_trim (q1 q2 : string) (f : CachedField) :
  trim q1 = trim q2 -> field_condition Number q1 f = field_condition Number q2 f.
Proof. intros H. unfold field_condition. rewrite H. reflexivity. Qed.

Lemma table_condition_trim (q1 q2 : string) (table : CachedTable) :
  trim q1 = trim q2 -> table_condition Number q1 table = table_condition Number q2 table.
Proof.
  intros H. unfold table_condition.
  destruct (search_fields (ct_name table)) as [fieldNames|]; [|reflexivity].
  destruct (List.filter _ _) as [|f fs]; [reflexivity|].
  rewrite (map_ext_in _ _ (f :: fs)
             (fun x _ => field_condition_trim q1 q2 x H)).
  reflexivity.
Qed.

Lemma search_requests_trim (q1 q2 : string) (limit : Z) (tables : list CachedTable) :
  trim q1 = trim q2 ->
  search_requests Number q1 limit tables = search_requests Number q2 limit tables.
Proof.
  intros H. unfold search_requests. rewrite !empty_query_test, H.
  destruct (String.eqb (trim q2) ""); [reflexivity|].
  induction (List.filter is_searchable tables) as [|t ts IH]; [reflexivity|].
  cbn [omap list_omap]. rewrite (table_condition_trim q1 q2 t H), IH.
  reflexivity.
Qed.

End SearchFacts.

(** C10. The conditions the search builds carry the trimmed query, as a
    number for NUMBER and FORMULA fields and as text otherwise, so a query
    and the same query with white space added before or after it yield the
    same condition for every table and the same search requests. *)
Theorem search_conditions_ignore_padding (Number : string -> JsVal)
  (pre q post : string) (limit : Z) (tables : list Softr.CachedTable) :
  SoftrSpec.blank pre -> SoftrSpec.blank post ->
  let padded := pre +:+ q +:+ post in
  (forall f, get (Softr.field_condition Number padded f) "rightSide"
             = if Softr.includes (Softr.cf_type f) ["NUMBER"; "FORMULA"]
               then Number (Softr.trim q) else JStr (Softr.trim q)) /\
  (forall table, Softr.table_condition Number padded table
                 = Softr.table_condition Number q table) /\
  Softr.search_requests Number padded limit tables
  = Softr.search_requests Number q limit tables.
Proof.
  intros Hpre Hpost. cbv zeta.
  pose proof (trim_padded pre q post Hpre Hpost) as Htrim.
  split; [|split].
  - intros f. unfold Softr.field_condition. rewrite Htrim. reflexivity.
  - intros table. apply table_condition_trim, Htrim.
  - apply search_requests_trim, Htrim.
Qed.

Lemma search_conditions_ignore_padding_witness :
  Softr.search_requests Samples.Number_sample "  1042 " 10
    [Samples.cached_customers; Samples.cached_lines; Samples.cached_orders]
  = Softr.search_requests Samples.Number_sample "1042" 10
    [Samples.cached_customers; Samples.cached_lines; Samples.cached_orders] /\
  Softr.table_condition Samples.Number_sample "  1042 " Samples.cached_orders
  = Some (JObj [("leftSide", JStr "f1"); ("operator", JStr "IS");
                ("rightSide", JNum 1042)]).
Proof.
  destruct (search_conditions_ignore_padding Samples.Number_sample
              "  " "1042" " " 10
              [Samples.cached_customers; Samples.cached_lines;
               Samples.cached_orders])
    as (_ & Htable & Hrequests).
  - repeat constructor.
  - repeat constructor.
  - split; [exact Hrequests|].
    transitivity (Softr.table_condition Samples.Number_sample "1042"
                    Samples.cached_orders);
      [exact (Htable Samples.cached_orders) | reflexivity].
Defined.

(** ** The node timeline *)

Section TimelineFacts.

Import Detail DetailSpec.

Lemma counted_start_key (s : NodeRunSummary) : counted_start s = start_key s.
Proof. unfold counted_start, start_key. destruct (startTime s); reflexivity. Qed.

Lemma compare_start_le (a b : NodeRunSummary) :
  (compare_start a b <=? 0) = true <-> starts_no_later a b.
Proof.
  unfold compare_start, starts_no_later. rewrite Z.leb_le.
  pose proof (counted_start_key a). pose proof (counted_start_key b). lia.
Qed.

Lemma sort_insert_perm (x : NodeRunSummary) (l : list NodeRunSummary) :
  Permutation (sort_insert compare_start x l) (x :: l).
Proof.
  induction l as [|y l IH]; simpl; [reflexivity|].
  destruct (compare_start x y <=? 0); [reflexivity|].
  rewrite IH. apply perm_swap.
Qed.

Lemma Array_sort_perm (l : list NodeRunSummary) :
  Permutation (Array_sort compare_start l) l.
Proof.
  induction l as [|x l IH]; simpl; [reflexivity|].
  rewrite sort_insert_perm, IH. reflexivity.
Qed.

Lemma sort_insert_sorted (x : NodeRunSummary) (l : list NodeRunSummary) :
  StronglySorted starts_no_later l ->
  StronglySorted starts_no_later (sort_insert compare_start x l).
Proof.
  induction 1 as [|y l Hsorted IH Hy]; simpl.
  - repeat constructor.
  - destruct (compare_start x y <=? 0) eqn:Hcmp.
    + apply compare_start_le in Hcmp.
      constructor; [constructor; assumption|].
      constructor; [exact Hcmp|].
      eapply Forall_impl; [exact Hy|]. unfold starts_no_later in *.
      intros z Hz. lia.
    + assert (Hyx : starts_no_later y x).
      { unfold starts_no_later.
        destruct (Z.le_gt_cases (counted_start y) (counted_start x))
          as [H|H]; [exact H|].
        assert (Hle : starts_no_later x y) by (unfold starts_no_later; lia).
        apply compare_start_le in Hle. congruence. }
      constructor; [exact IH|].
      apply Forall_forall. intros z Hz.
      apply list_elem_of_In in Hz.
      apply (Permutation_in _ (sort_insert_perm x l)) in Hz as [<-|Hz];
        [exact Hyx|].
      rewrite Forall_forall in Hy. apply Hy, list_elem_of_In, Hz.
Qed.

Lemma Array_sort_sorted (l : list NodeRunSummary) :
  StronglySorted starts_no_later (Array_sort compare_start l).
Proof.
  induction l as [|x l IH]; simpl; [constructor | apply sort_insert_sorted, IH].
Qed.

Variable runData : gmap string (list Run).

(** The summary of a node whose name is no inherited member says it ran
    exactly when the run data hold a run list for it that is not
    empty. *)
Lemma summarize_ran (node : WorkflowNode) :
  plain_name (node_name node) ->
  ran (summarize runData node) = has_run runData node.
Proof.
  intros Hplain. unfold summarize, has_run, runs_of. cbn [ran].
  destruct (runData !! node_name node) as [[|run runs]|]; try reflexivity.
  destruct (Js.lookup_first (node_name node) Js.Object_prototype)
    as [m|] eqn:Hm; [|reflexivity].
  destruct Hplain. exact (lookup_first_In _ _ _ Hm).
Qed.

(** The summary of a node the run data hold a run list for. *)
Lemma summarize_own (node : WorkflowNode) (runs : list Run) :
  runData !! node_name node = Some runs ->
  summarize runData node =
  let lastRun := last runs in
  {| name := node_name node;
     type := last_segment <$> node_type node;
     ran := match runs with [] => false | _ => true end;
     startTime := lastRun ≫= run_startTime;
     executionTime := lastRun ≫= run_executionTime;
     error := match lastRun with
              | Some run => coalesce (opt_get (run_error run) "message") JNull
              | None => JNull
              end;
     output := expose (output_items lastRun) |}.
Proof.
  intros Hruns. unfold summarize, runs_of. rewrite Hruns.
  destruct runs as [|r rs]; reflexivity.
Qed.

Lemma summarize_last (node : WorkflowNode) (runs : list Run) (run : Run) :
  runData !! node_name node = Some runs ->
  last runs = Some run ->
  summarize runData node =
  {| name := node_name node;
     type := last_segment <$> node_type node;
     ran := true;
     startTime := run_startTime run;
     executionTime := run_executionTime run;
     error := coalesce (opt_get (run_error run) "message") JNull;
     output := expose (output_items (Some run)) |}.
Proof.
  intros Hruns Hlast. rewrite (summarize_own node runs Hruns). cbv zeta.
  rewrite Hlast. destruct runs as [|r rs]; [discriminate | reflexivity].
Qed.

Lemma flat_channels (main : list JsVal) :
  Forall (fun channel => Array_isArray channel = true \/ channel = JNull) main ->
  payloads main =
  List.filter truthy (map (fun entry => opt_get entry "json")
                          (flat_map channel_items main)).
Proof.
  unfold payloads, flat.
  induction 1 as [|channel main Hchannel _ IH]; [reflexivity|].
  cbn [flat_map]. rewrite !map_app, !List.filter_app, IH. f_equal.
  destruct Hchannel as [Harr| ->]; [|reflexivity].
  destruct channel; try discriminate. reflexivity.
Qed.

(** The names of the summaries that ran, for nodes of plain names. *)
Lemma ran_names (workflowNodes : list WorkflowNode) :
  (forall node, In node workflowNodes -> plain_name (node_name node)) ->
  map name (List.filter ran (map (summarize runData) workflowNodes))
  = map node_name (List.filter (has_run runData) workflowNodes).
Proof.
  induction workflowNodes as [|node rest IH]; intros Hplain; [reflexivity|].
  cbn [map List.filter].
  rewrite (summarize_ran node) by (apply Hplain; left; reflexivity).
  destruct (has_run runData node); cbn [map];
    rewrite IH by (intros n Hn; apply Hplain; right; exact Hn); reflexivity.
Qed.

End TimelineFacts.

Section TimelineMembers.

Import Detail DetailSpec.

Lemma output_items_payloads (run : Run) :
  output_items (Some run) = payloads (default [] (run_main run)).
Proof. unfold output_items, payloads. destruct (run_main run); reflexivity. Qed.

Lemma timeline_In (execution : Execution) (s : NodeRunSummary) :
  let workflowNodes := default [] (workflowNodes execution) in
  let runData := default ∅ (Detail.runData execution) in
  In s (timeline execution) <->
  exists node, In node workflowNodes /\ s = summarize runData node /\
               ran s = true.
Proof.
  cbv zeta. unfold timeline. split.
  - intros Hin. apply (Permutation_in _ (Array_sort_perm _)) in Hin.
    apply List.filter_In in Hin as [Hin Hran].
    apply in_map_iff in Hin as (node & <- & Hnode). eauto.
  - intros (node & Hnode & -> & Hran).
    apply (Permutation_in _ (Permutation_sym (Array_sort_perm _))).
    apply List.filter_In. split; [apply in_map, Hnode | exact Hran].
Qed.

(** In a sorted list no entry stands before an entry it starts later
    than. *)
Lemma sorted_before (l before after : list NodeRunSummary)
  (a b : NodeRunSummary) :
  StronglySorted starts_no_later l ->
  l = before ++ b :: after -> In a after -> starts_no_later b a.
Proof.
  intros Hsorted. revert before.
  induction Hsorted as [|x l Hsorted IH Hx]; intros before Heq Ha.
  - destruct before; discriminate.
  - destruct before as [|y before]; simpl in Heq; injection Heq as -> ->.
    + rewrite Forall_forall in Hx. apply Hx, list_elem_of_In, Ha.
    + apply (IH before eq_refl Ha).
Qed.

End TimelineMembers.

(** C6, counterexample.  A missing start time counts as 0, and 0 is not
    the earliest start there is: of two nodes that ran, one without start
    time and one that started 5 ms before the epoch, the timeline shows
    the second first.  And a defined node named [constructor] is in the
    timeline though the run data hold no run list at all. *)
Lemma missing_start_is_not_earliest :
  map (fun s => (Detail.name s, Detail.ran s, Detail.startTime s))
      (Detail.timeline Samples.early_execution)
  = [("Legacy", true, Some (-5)); ("Webhook", true, None)] /\
  Detail.runData Samples.inherited_execution = Some ∅ /\
  map (fun s => (Detail.name s, Detail.ran s, Detail.startTime s))
      (Detail.timeline Samples.inherited_execution)
  = [("constructor", true, None)].
Proof. repeat split; vm_compute; reflexivity. Qed.

(** C6. Where no defined node is named like a member every object
    inherits, the node timeline holds exactly the defined nodes whose run
    list is not empty, each marked as ran and with the start time of the
    node's last run, in ascending order of start time, a missing start
    time counting as 0: an entry without start time stands behind no entry
    of a positive start time and before no entry of a negative one. *)
Theorem timeline_ran_sorted (execution : Detail.Execution) :
  let workflowNodes := default [] (Detail.workflowNodes execution) in
  let runData := default ∅ (Detail.runData execution) in
  let tl := Detail.timeline execution in
  (forall node, In node workflowNodes ->
     DetailSpec.plain_name (Detail.node_name node)) ->
  Permutation (map Detail.name tl)
    (map Detail.node_name
       (List.filter (DetailSpec.has_run runData) workflowNodes)) /\
  (forall s, In s tl ->
     Detail.ran s = true /\
     exists runs run,
       runData !! Detail.name s = Some runs /\ last runs = Some run /\
       Detail.startTime s = Detail.run_startTime run) /\
  StronglySorted DetailSpec.starts_no_later tl /\
  (forall before after a b,
     tl = before ++ b :: after -> In a after ->
     (Detail.startTime a = None ->
      forall t, Detail.startTime b = Some t -> t <= 0) /\
     (Detail.startTime b = None ->
      forall t, Detail.startTime a = Some t -> 0 <= t)).
Proof.
  cbv zeta. intros Hplain.
  split; [|split; [|split]].
  - unfold Detail.timeline. cbv zeta.
    rewrite (Permutation_map Detail.name (Array_sort_perm _)).
    rewrite (ran_names _ _ Hplain). reflexivity.
  - intros s Hs. apply timeline_In in Hs as (node & Hnode & -> & Hran).
    split; [exact Hran|].
    rewrite (summarize_ran _ node (Hplain node Hnode)) in Hran.
    unfold DetailSpec.has_run in Hran.
    destruct (default ∅ (Detail.runData execution) !! Detail.node_name node)
      as [runs|] eqn:Hruns; [|discriminate].
    destruct runs as [|r rs]; [discriminate|].
    destruct (last (r :: rs)) as [run|] eqn:Hlast;
      [|apply last_None in Hlast; discriminate].
    exists (r :: rs), run.
    rewrite (summarize_last _ node _ run Hruns Hlast).
    cbn [Detail.name Detail.startTime]. auto.
  - apply Array_sort_sorted.
  - intros before after a b Heq Ha.
    pose proof (sorted_before _ before after a b
                  (Array_sort_sorted _) Heq Ha) as Hle.
    unfold DetailSpec.starts_no_later, DetailSpec.counted_start in Hle.
    split.
    + intros Hnone t Hsome. rewrite Hnone, Hsome in Hle. exact Hle.
    + intros Hnone t Hsome. rewrite Hnone, Hsome in Hle. exact Hle.
Qed.

(** Nodes with start times 300, none (not run) and 100: two entries,
    ordered 100 then 300. *)
Lemma timeline_ran_sorted_witness :
  map Detail.name (Detail.timeline Samples.detail_execution)
  = ["Webhook"; "Lookup"] /\
  map Detail.startTime (Detail.timeline Samples.detail_execution)
  = [Some 100; Some 300] /\
  Permutation (map Detail.name (Detail.timeline Samples.detail_execution))
              ["Lookup"; "Webhook"] /\
  Forall (fun s => Detail.ran s = true)
         (Detail.timeline Samples.detail_execution) /\
  StronglySorted DetailSpec.starts_no_later
                 (Detail.timeline Samples.detail_execution).
Proof.
  assert (Hplain : forall node,
             In node (default [] (Detail.workflowNodes Samples.detail_execution)) ->
             DetailSpec.plain_name (Detail.node_name node)).
  { intros node [<-|[<-|[<-|[]]]]; intros H; vm_compute in H;
      repeat (destruct H as [H|H]; [discriminate|]); exact H. }
  destruct (timeline_ran_sorted Samples.detail_execution Hplain)
    as (Hnames & Hran & Hsorted & _).
  split; [reflexivity|]. split; [reflexivity|].
  split; [exact Hnames|]. split; [|exact Hsorted].
  apply Forall_forall. intros s Hs. apply list_elem_of_In in Hs.
  apply (Hran s Hs).
Defined.

(** C7. The output of a node of the timeline is computed from the output
    channels of its last run: the channels are flattened into one list,
    the payload of each entry is taken and the entries without one are
    left out; a single payload is exposed as it is, several as the list,
    none as no output. *)
Theorem node_output_exposed (execution : Detail.Execution)
  (node : Detail.WorkflowNode) (runs : list Detail.Run) (run : Detail.Run) :
  let workflowNodes := default [] (Detail.workflowNodes execution) in
  let runData := default ∅ (Detail.runData execution) in
  In node workflowNodes ->
  runData !! Detail.node_name node = Some runs ->
  last runs = Some run ->
  let s := Detail.summarize runData node in
  let main := default [] (Detail.run_main run) in
  let items := DetailSpec.payloads main in
  In s (Detail.timeline execution) /\
  (forall x, In x items <->
     truthy x = true /\
     exists entry, In entry (Detail.flat main) /\ x = opt_get entry "json") /\
  (Forall (fun channel => Array_isArray channel = true \/ channel = JNull) main ->
   items = List.filter truthy
             (map (fun entry => opt_get entry "json")
                  (flat_map DetailSpec.channel_items main))) /\
  (forall x, items = [x] -> Detail.output s = x) /\
  ((1 < length items)%nat -> Detail.output s = JArr items) /\
  (items = [] -> Detail.output s = JNull).
Proof.
  cbv zeta. intros Hnode Hruns Hlast. split.
  { apply timeline_In. exists node. split; [exact Hnode|].
    split; [reflexivity|].
    rewrite (summarize_last _ node runs run Hruns Hlast). reflexivity. }
  rewrite (summarize_last _ node runs run Hruns Hlast).
  cbn [Detail.output]. rewrite output_items_payloads.
  split; [|split; [|split; [|split]]].
  - intros x. unfold DetailSpec.payloads.
    rewrite List.filter_In, in_map_iff. split.
    + intros [(entry & <- & Hentry) Hx]. eauto.
    + intros [Hx (entry & Hentry & ->)]. eauto.
  - apply flat_channels.
  - intros x ->. reflexivity.
  - destruct (DetailSpec.payloads _) as [|x [|y l]]; simpl; [lia|lia|reflexivity].
  - intros ->. reflexivity.
Qed.

Lemma node_output_exposed_witness :
  Detail.output (Detail.summarize
                   (default ∅ (Detail.runData Samples.detail_execution))
                   (Detail.mkNode "Lookup" (Some "n8n-nodes-base.httpRequest")))
  = JArr [JObj [("a", JNum 1)]; JObj [("a", JNum 2)]].
Proof.
  destruct (node_output_exposed Samples.detail_execution
              (Detail.mkNode "Lookup" (Some "n8n-nodes-base.httpRequest"))
              [Samples.run_at (Some 300)
                 (Some [JArr [JObj [("json", JObj [("a", JNum 1)])];
                              JObj [("json", JObj [("a", JNum 2)])]]])]
              (Samples.run_at (Some 300)
                 (Some [JArr [JObj [("json", JObj [("a", JNum 1)])];
                              JObj [("json", JObj [("a", JNum 2)])]]])))
    as (_ & _ & _ & _ & Hseveral & _).
  - simpl. auto.
  - reflexivity.
  - reflexivity.
  - apply Hseveral. simpl. lia.
Defined.

(** * Further properties of the code *)

(** ** The execution sync engine: whole passes *)

Section PassFacts.

Import Sync SyncSpec Paging.

Lemma upserts_of_fetch_batch (req : Request) (batch : list Exec.t) (evs : list Event) :
  upserts_of ((EvFetch req :: map EvUpsert batch) ++ evs)
  = batch ++ upserts_of evs.
Proof.
  rewrite upserts_of_app. f_equal.
  change (upserts_of (EvFetch req :: map EvUpsert batch))
    with (upserts_of (map EvUpsert batch)).
  apply upserts_of_upserts.
Qed.

(** On a remote with finitely many pages the backfill loop, given one
    iteration more than there are pages, returns having upserted every
    item of every page in order. *)
Lemma fullBackfill_loop_serves (remote : Remote) (cur : option string)
  (pages : list (list Exec.t)) :
  serves remote cur pages ->
  forall (fuel : nat) (total : Z) (w : World),
    (length pages < fuel)%nat ->
    exists evs,
      (fullBackfill_loop remote fuel cur total w).1
      = Done (total + Z.of_nat (length (concat pages))) /\
      effects w (fullBackfill_loop remote fuel cur total w).2 evs /\
      upserts_of evs = concat pages.
Proof.
  induction 1 as [cur response Hpage Hempty
                 |cur response page Hpage Hdata Hne Hnext
                 |cur response page next rest Hpage Hdata Hne Hnext Hrest IH];
    intros fuel total w Hfuel;
    (destruct fuel as [|fuel]; [simpl in Hfuel; lia|]);
    rewrite fullBackfill_loop_step; cbv zeta; rewrite Hpage.
  - rewrite Hempty. exists [EvFetch (page_request cur)].
    simpl. rewrite Z.add_0_r. auto using effects_fetched.
  - rewrite Hdata. destruct page as [|e page]; [congruence|]. rewrite Hnext.
    exists (EvFetch (page_request cur) :: map EvUpsert (e :: page)).
    cbn [fst snd concat]. rewrite app_nil_r.
    split; [reflexivity|]. split; [apply effects_fetch_batch|].
    apply (upserts_of_upserts (e :: page)).
  - rewrite Hdata. destruct page as [|e page]; [congruence|]. rewrite Hnext.
    set (w2 := batch_world (e :: page) (fetched remote (page_request cur) w)).
    destruct (IH fuel (total + Z.of_nat (length (e :: page))) w2)
      as (evs & Hdone & Heff & Hups); [simpl in Hfuel; lia|].
    exists ((EvFetch (page_request cur) :: map EvUpsert (e :: page)) ++ evs).
    split; [|split].
    + rewrite Hdone. f_equal. cbn [concat]. rewrite length_app. lia.
    + eapply effects_trans; [apply effects_fetch_batch | exact Heff].
    + rewrite upserts_of_fetch_batch, Hups. reflexivity.
Qed.

(** On such a remote the incremental loop returns as well. *)
Lemma incrementalSync_loop_serves (remote : Remote) (cur : option string)
  (pages : list (list Exec.t)) :
  serves remote cur pages ->
  forall (fuel : nat) (n : Z) (w : World),
    (length pages < fuel)%nat ->
    exists n', (incrementalSync_loop remote fuel cur n w).1 = Done n'.
Proof.
  induction 1 as [cur response Hpage Hempty
                 |cur response page Hpage Hdata Hne Hnext
                 |cur response page next rest Hpage Hdata Hne Hnext Hrest IH];
    intros fuel n w Hfuel;
    (destruct fuel as [|fuel]; [simpl in Hfuel; lia|]);
    rewrite incrementalSync_loop_step; cbv zeta; rewrite Hpage.
  - rewrite Hempty. simpl. eauto.
  - destruct (List.filter _ _); [eauto|]. rewrite Hnext. eauto.
  - destruct (List.filter _ _); [eauto|]. rewrite Hnext.
    apply IH. simpl in Hfuel. lia.
Qed.

(** A call either returns at once or runs one pass. *)
Lemma syncExecutions_cases (remote : Remote) (fuel : nat) (w : World) :
  syncExecutions remote fuel w = (Done tt, w) /\
    (syncInProgress w = true \/ now w - lastSyncTime w < SYNC_COOLDOWN)
  \/
  syncInProgress w = false /\ SYNC_COOLDOWN <= now w - lastSyncTime w /\
  syncExecutions remote fuel w =
  match sync_pass remote fuel (set_syncInProgress true w) with
  | (Done _, w1) => (Done tt, release w1)
  | (Raised m, w1) =>
      (Done tt, release (print ("[n8n-sync] Sync failed: " +:+ m) w1))
  | (Pending, w1) => (Pending, w1)
  end.
Proof.
  destruct (syncInProgress w) eqn:Hbusy.
  - left. split; [apply syncExecutions_skipped|]; auto.
  - destruct (Z.lt_ge_cases (now w - lastSyncTime w) SYNC_COOLDOWN) as [Hlt|Hge].
    + left. split; [apply syncExecutions_skipped|]; auto.
    + right. split; [reflexivity|]. split; [exact Hge|].
      apply syncExecutions_pass; assumption.
Qed.

(** What a call does to the world, whatever its outcome. *)
Lemma syncExecutions_effects (remote : Remote) (fuel : nat) (w : World) :
  exists evs,
    trace (syncExecutions remote fuel w).2 = trace w ++ evs /\
    cache (syncExecutions remote fuel w).2
    = upsert_all (upserts_of evs) (cache w).
Proof.
  destruct (syncExecutions_cases remote fuel w) as [[-> _]|(_ & _ & ->)].
  - exists []. simpl. rewrite app_nil_r. auto.
  - destruct (sync_pass_effects remote fuel (set_syncInProgress true w))
      as (evs & (Htrace & Hcache & _) & _).
    exists evs.
    destruct (sync_pass remote fuel (set_syncInProgress true w))
      as [[[]|m|] w1]; cbn in *; auto.
Qed.

Lemma upsert_row_origin (e : Exec.t) (c : gmap string ExecutionOrder)
  (k : string) (old : ExecutionOrder) :
  c !! k = Some old ->
  exists new, upsert_row e c !! k = Some new /\ same_origin old new.
Proof.
  intros Hold. unfold upsert_row, prisma_upsert.
  destruct (decide (key_of e = k)) as [<-|Hne].
  - rewrite Hold, lookup_insert_eq. eexists. split; [reflexivity|].
    repeat split.
  - exists old. split; [|repeat split].
    destruct (c !! key_of e); rewrite lookup_insert_ne; auto.
Qed.

Lemma upsert_all_origin (batch : list Exec.t) :
  forall (c : gmap string ExecutionOrder) (k : string) (old : ExecutionOrder),
  c !! k = Some old ->
  exists new, upsert_all batch c !! k = Some new /\ same_origin old new.
Proof.
  induction batch as [|e batch IH]; intros c k old Hold; simpl.
  - exists old. split; [exact Hold | repeat split].
  - destruct (upsert_row_origin e c k old Hold) as (mid & Hmid & H1 & H2 & H3).
    destruct (IH _ k mid Hmid) as (new & Hnew & H4 & H5 & H6).
    exists new. split; [exact Hnew|]. unfold same_origin.
    repeat split; congruence.
Qed.

Lemma upsert_row_other (e : Exec.t) (c : gmap string ExecutionOrder) (k : string) :
  key_of e <> k -> upsert_row e c !! k = c !! k.
Proof.
  intros Hne. unfold upsert_row, prisma_upsert.
  destruct (c !! key_of e); apply lookup_insert_ne, Hne.
Qed.

Lemma upsert_all_other (batch : list Exec.t) :
  forall (c : gmap string ExecutionOrder) (k : string),
  ~ In k (map key_of batch) -> upsert_all batch c !! k = c !! k.
Proof.
  induction batch as [|e batch IH]; intros c k Hk; simpl; [reflexivity|].
  rewrite IH by (intros H; apply Hk; right; exact H).
  apply upsert_row_other. intros H. apply Hk. left. exact H.
Qed.

Lemma upsert_row_status (e : Exec.t) (c : gmap string ExecutionOrder) :
  exists row, upsert_row e c !! key_of e = Some row /\
              status row = Exec.status e.
Proof.
  unfold upsert_row, prisma_upsert.
  destruct (c !! key_of e); rewrite lookup_insert_eq; eauto.
Qed.

(** With pairwise distinct ids, each item of a batch ends with its own
    status in the cache. *)
Lemma upsert_all_status (batch : list Exec.t) :
  forall (c : gmap string ExecutionOrder) (e : Exec.t),
  NoDup (map key_of batch) -> In e batch ->
  exists row, upsert_all batch c !! key_of e = Some row /\
              status row = Exec.status e.
Proof.
  induction batch as [|e' batch IH]; intros c e Hnd Hin; simpl; [destruct Hin|].
  cbn [map] in Hnd. apply NoDup_cons in Hnd as [Hnotin Hnd].
  destruct Hin as [->|Hin]; [|apply IH; assumption].
  rewrite upsert_all_other; [apply upsert_row_status|].
  intros H. apply Hnotin, list_elem_of_In, H.
Qed.

Lemma NoDup_map_filter (f : Exec.t -> bool) (l : list Exec.t) :
  NoDup (map key_of l) -> NoDup (map key_of (List.filter f l)).
Proof.
  induction l as [|e l IH]; simpl; [auto|].
  intros [Hnotin Hnd]%NoDup_cons.
  destruct (f e); [|auto]. cbn [map]. apply NoDup_cons. split; [|auto].
  intros H. apply Hnotin. apply list_elem_of_In in H.
  apply list_elem_of_In. apply in_map_iff in H as (x & Hx & Hin).
  apply in_map_iff. exists x. split; [exact Hx|].
  apply List.filter_In in Hin. tauto.
Qed.

(** Once the to-sync items of a page are upserted, no item of the page is
    to sync. *)
Lemma page_settled (c : gmap string ExecutionOrder) (page : list Exec.t) :
  NoDup (map key_of page) ->
  forall e, In e page ->
    is_to_sync (upsert_all (List.filter (is_to_sync c) page) c) e = false.
Proof.
  intros Hnd e He. unfold is_to_sync at 1.
  destruct (is_to_sync c e) eqn:Hsync.
  - destruct (upsert_all_status (List.filter (is_to_sync c) page) c e)
      as (row & -> & Hstatus).
    + apply NoDup_map_filter, Hnd.
    + apply List.filter_In. auto.
    + rewrite Hstatus, String.eqb_refl. reflexivity.
  - rewrite upsert_all_other.
    + exact Hsync.
    + intros Hin. apply in_map_iff in Hin as (e' & Hkey & Hin').
      apply List.filter_In in Hin' as [Hin' Hsync'].
      assert (e' = e); [|congruence].
      clear - Hnd He Hin' Hkey.
      induction page as [|x page IH]; [destruct He|].
      cbn [map] in Hnd. apply NoDup_cons in Hnd as [Hnotin Hnd].
      destruct He as [->|He], Hin' as [->|Hin']; auto.
      * exfalso. apply Hnotin. rewrite <- Hkey.
        apply list_elem_of_In, in_map, Hin'.
      * exfalso. apply Hnotin. rewrite Hkey.
        apply list_elem_of_In, in_map, He.
Qed.

End PassFacts.

Section CallFacts.

Import Sync SyncSpec Paging.

Lemma fullBackfill_unfold (remote : Remote) (fuel : nat) (w : World) :
  fullBackfill remote fuel w =
  match fullBackfill_loop remote fuel None 0
          (print "[n8n-sync] Starting full backfill..." w) with
  | (Done total, w1) =>
      (Done tt, print ("[n8n-sync] Full backfill complete: " +:+ pretty total
                       +:+ " executions indexed.") w1)
  | (Raised m, w1) => (Raised m, w1)
  | (Pending, w1) => (Pending, w1)
  end.
Proof.
  unfold fullBackfill, bind, console_log, modify.
  destruct (fullBackfill_loop remote fuel None 0 _) as [[total|m|] w1];
    reflexivity.
Qed.

Lemma incrementalSync_unfold (remote : Remote) (fuel : nat) (w : World) :
  incrementalSync remote fuel w =
  match incrementalSync_loop remote fuel None 0 w with
  | (Done n, w1) =>
      if 0 <? n
      then (Done tt, print ("[n8n-sync] Incremental sync: " +:+ pretty n
                            +:+ " executions updated.") w1)
      else (Done tt, w1)
  | (Raised m, w1) => (Raised m, w1)
  | (Pending, w1) => (Pending, w1)
  end.
Proof.
  unfold incrementalSync, bind, console_log, modify.
  destruct (incrementalSync_loop remote fuel None 0 w) as [[n|m|] w1];
    [destruct (0 <? n)| |]; reflexivity.
Qed.

Lemma sync_pass_empty (remote : Remote) (fuel : nat) (w : World) :
  cache w = ∅ -> sync_pass remote fuel w = fullBackfill remote fuel w.
Proof.
  intros Hempty. unfold sync_pass, bind, gets. rewrite Hempty, map_size_empty.
  reflexivity.
Qed.

Lemma sync_pass_nonempty (remote : Remote) (fuel : nat) (w : World) (k : string) :
  is_Some (cache w !! k) ->
  sync_pass remote fuel w = incrementalSync remote fuel w.
Proof.
  intros Hk. unfold sync_pass, bind, gets.
  destruct (Nat.eqb_spec (size (cache w)) 0) as [Hzero|_]; [|reflexivity].
  apply map_size_empty_iff in Hzero. rewrite Hzero, lookup_empty in Hk.
  destruct Hk as [row Hrow]. discriminate.
Qed.

Lemma debug_lines_app (a b : list Exec.t) :
  debug_lines (a ++ b) = debug_lines a ++ debug_lines b.
Proof. apply flat_map_app. Qed.

(** The backfill loop writes to the console what the extractor writes
    for the items it upserts, and nothing else. *)
Lemma fullBackfill_loop_console (remote : Remote) (fuel : nat) :
  forall (cur : option string) (total : Z) (w : World),
  exists evs,
    trace (fullBackfill_loop remote fuel cur total w).2 = trace w ++ evs /\
    console (fullBackfill_loop remote fuel cur total w).2
    = console w ++ debug_lines (upserts_of evs).
Proof.
  induction fuel as [|fuel IH]; intros cur total w.
  { exists []. simpl. rewrite !app_nil_r. auto. }
  rewrite fullBackfill_loop_step. cbv zeta.
  destruct (page_at remote cur) as [response|m];
    [|exists [EvFetch (page_request cur)]; simpl; rewrite app_nil_r; auto].
  destruct (default [] (data response)) as [|e page];
    [exists [EvFetch (page_request cur)]; simpl; rewrite app_nil_r; auto|].
  destruct (truthy_cursor (nextCursor response)) as [next|].
  - destruct (IH (Some next) (total + Z.of_nat (length (e :: page)))
                (batch_world (e :: page) (fetched remote (page_request cur) w)))
      as (evs & Htrace & Hconsole).
    exists (EvFetch (page_request cur) :: map EvUpsert (e :: page) ++ evs).
    rewrite Htrace, Hconsole. cbn [batch_world fetched emit elapse trace console].
    split; [rewrite <- !app_assoc; simpl; reflexivity|].
    change (EvFetch (page_request cur) :: map EvUpsert (e :: page) ++ evs)
      with ([EvFetch (page_request cur)] ++ map EvUpsert (e :: page) ++ evs).
    rewrite !upserts_of_app, upserts_of_upserts, !debug_lines_app.
    rewrite <- !app_assoc. reflexivity.
  - exists (EvFetch (page_request cur) :: map EvUpsert (e :: page)).
    cbn [snd batch_world fetched emit elapse trace console].
    split; [rewrite <- !app_assoc; simpl; reflexivity|].
    change (EvFetch (page_request cur) :: map EvUpsert (e :: page))
      with ([EvFetch (page_request cur)] ++ map EvUpsert (e :: page)).
    rewrite upserts_of_app, upserts_of_upserts, debug_lines_app. reflexivity.
Qed.

(** The extractor writes one line for each item that has no order number
    in its custom data and no run data, and each such line opens with the
    label. *)
Lemma debug_lines_labelled (batch : list Exec.t) :
  Forall2 (fun line (e : Exec.t) =>
             exists keys, line = "[n8n] Execution top-level keys: " +:+ keys)
          (debug_lines batch)
          (List.filter (fun e => N8nSpec.nowhere_to_look (Exec.document e)
                                   "orderNumber") batch).
Proof.
  unfold debug_lines. induction batch as [|e batch IH]; simpl; [constructor|].
  rewrite extraction_lines.
  destruct (N8nSpec.nowhere_to_look _ _); simpl; [|exact IH].
  constructor; [unfold N8n.debug_line; eauto | exact IH].
Qed.

(** On a remote with finitely many pages a pass returns. *)
Lemma sync_pass_serves (remote : Remote) (pages : list (list Exec.t))
  (fuel : nat) (w : World) :
  serves remote None pages -> (length pages < fuel)%nat ->
  (sync_pass remote fuel w).1 = Done tt.
Proof.
  intros Hserves Hfuel. unfold sync_pass, bind, gets.
  destruct (Nat.eqb _ _).
  - rewrite fullBackfill_unfold.
    destruct (fullBackfill_loop_serves remote None pages Hserves fuel 0
                (print "[n8n-sync] Starting full backfill..." w) Hfuel)
      as (evs & Hdone & _).
    destruct (fullBackfill_loop remote fuel None 0 _) as [o w1].
    cbn in Hdone. rewrite Hdone. reflexivity.
  - rewrite incrementalSync_unfold.
    destruct (incrementalSync_loop_serves remote None pages Hserves fuel 0 w Hfuel)
      as (n' & Hdone).
    destruct (incrementalSync_loop remote fuel None 0 w) as [o w1].
    cbn in Hdone. rewrite Hdone. destruct (0 <? n'); reflexivity.
Qed.

Lemma filter_none {A} (f : A -> bool) (l : list A) :
  (forall x, In x l -> f x = false) -> List.filter f l = [].
Proof.
  induction l as [|x l IH]; intros Hall; [reflexivity|]. simpl.
  rewrite (Hall x) by (left; reflexivity).
  apply IH. intros y Hy. apply Hall. right. exact Hy.
Qed.

Lemma filter_all {A} (f : A -> bool) (l : list A) :
  (forall x, In x l -> f x = true) -> List.filter f l = l.
Proof.
  induction l as [|x l IH]; intros Hall; [reflexivity|]. simpl.
  rewrite (Hall x) by (left; reflexivity). f_equal.
  apply IH. intros y Hy. apply Hall. right. exact Hy.
Qed.

(** A page backfilled into an empty cache is caught up. *)
Lemma backfilled_page_settled (page : list Exec.t) :
  NoDup (map key_of page) ->
  List.filter (is_to_sync (upsert_all page ∅)) page = [].
Proof.
  intros Hnd. apply filter_none. intros e He.
  pose proof (page_settled ∅ page Hnd e He) as Hsettled.
  rewrite (filter_all (is_to_sync ∅) page) in Hsettled; [exact Hsettled|].
  intros x _. unfold is_to_sync. rewrite lookup_empty. reflexivity.
Qed.

End CallFacts.

(** X1. The first call on an empty cache, against a remote with finitely
    many pages and with one loop iteration more than pages allowed, runs
    the full backfill to its end: it upserts every item of every page in
    order, frees the guard and stamps the cooldown; on the console it
    writes the start, then one line of the extractor for each item that
    has neither an order number in its custom data nor run data, then the
    total. *)
Theorem first_sync_backfills_everything (remote : Sync.Remote) (fuel : nat)
  (w : Sync.World) (pages : list (list Exec.t)) :
  Sync.cache w = ∅ ->
  Sync.syncInProgress w = false ->
  Sync.SYNC_COOLDOWN <= Sync.now w - Sync.lastSyncTime w ->
  Paging.serves remote None pages ->
  (length pages < fuel)%nat ->
  let r := Sync.syncExecutions remote fuel w in
  r.1 = Done tt /\
  Sync.cache r.2 = SyncSpec.upsert_all (concat pages) ∅ /\
  (forall e, In e (concat pages) ->
             is_Some (Sync.cache r.2 !! SyncSpec.key_of e)) /\
  SyncSpec.upserts_of (Sync.trace r.2)
  = SyncSpec.upserts_of (Sync.trace w) ++ concat pages /\
  (exists debug,
     Sync.console r.2
     = Sync.console w ++
       ["[n8n-sync] Starting full backfill..."] ++ debug ++
       ["[n8n-sync] Full backfill complete: "
          +:+ pretty (Z.of_nat (length (concat pages)))
          +:+ " executions indexed."] /\
     Forall2 (fun line (e : Exec.t) =>
                exists keys, line = "[n8n] Execution top-level keys: " +:+ keys)
             debug
             (List.filter (fun e => N8nSpec.nowhere_to_look (Exec.document e)
                                      "orderNumber") (concat pages))) /\
  Sync.syncInProgress r.2 = false /\
  Sync.lastSyncTime r.2 = Sync.now r.2.
Proof.
  intros Hempty Hfree Hcool Hserves Hfuel. cbv zeta.
  rewrite (syncExecutions_pass remote fuel w Hfree Hcool).
  rewrite sync_pass_empty by exact Hempty. rewrite fullBackfill_unfold.
  set (w0 := Sync.print "[n8n-sync] Starting full backfill..."
               (Sync.set_syncInProgress true w)).
  destruct (fullBackfill_loop_serves remote None pages Hserves fuel 0 w0 Hfuel)
    as (evs & Hdone & (Htrace & Hcache & _ & _) & Hups).
  destruct (fullBackfill_loop_console remote fuel None 0 w0)
    as (evs' & Htrace' & Hconsole).
  destruct (Sync.fullBackfill_loop remote fuel None 0 w0) as [o w1].
  cbn [fst snd] in Hdone, Htrace, Hcache, Htrace', Hconsole. subst o.
  assert (evs' = evs) as -> by (rewrite Htrace in Htrace'; apply (app_inv_head _ _ _ (eq_sym Htrace'))).
  rewrite Hups in Hconsole.
  cbn [fst snd SyncSpec.release Sync.set_lastSyncTime Sync.set_syncInProgress
       Sync.print Sync.cache Sync.trace Sync.console Sync.syncInProgress
       Sync.lastSyncTime Sync.now].
  rewrite Hups in Hcache. cbn in Hcache. rewrite Hempty in Hcache.
  split; [reflexivity|]. split; [exact Hcache|]. split; [|split; [|split]].
  - intros e He. rewrite Hcache. apply upsert_all_has, He.
  - rewrite Htrace, upserts_of_app, Hups. reflexivity.
  - exists (SyncSpec.debug_lines (concat pages)).
    split; [|apply debug_lines_labelled].
    rewrite Hconsole. cbn. rewrite <- !app_assoc. reflexivity.
  - auto.
Qed.

Lemma first_sync_backfills_everything_witness :
  let r := Sync.syncExecutions Samples.three_pages 4 MoreSamples.fresh_world in
  r.1 = Done tt /\
  Sync.cache r.2
  = SyncSpec.upsert_all (concat MoreSamples.three_pages_content) ∅ /\
  is_Some (Sync.cache r.2 !! "D") /\
  exists debug,
    Sync.console r.2
    = Sync.console MoreSamples.fresh_world ++
      ["[n8n-sync] Starting full backfill..."] ++ debug ++
      ["[n8n-sync] Full backfill complete: 4 executions indexed."] /\
    length debug = 4%nat.
Proof.
  assert (Hserves : Paging.serves Samples.three_pages None
                                  MoreSamples.three_pages_content).
  { eapply Paging.serves_more;
      [reflexivity | reflexivity | discriminate | reflexivity |].
    eapply Paging.serves_more;
      [reflexivity | reflexivity | discriminate | reflexivity |].
    eapply Paging.serves_last;
      [reflexivity | reflexivity | discriminate | reflexivity]. }
  destruct (first_sync_backfills_everything Samples.three_pages 4%nat
              MoreSamples.fresh_world MoreSamples.three_pages_content)
    as (Hdone & Hcache & Hrows & _ & (debug & Hconsole & Hdebug) & _);
    try reflexivity.
  - vm_compute. discriminate.
  - exact Hserves.
  - simpl. lia.
  - cbv zeta. split; [exact Hdone|]. split; [exact Hcache|].
    split; [apply (Hrows (Samples.execution "D" "success")); simpl; auto|].
    exists debug. split; [exact Hconsole|].
    apply Forall2_length in Hdebug. rewrite Hdebug. reflexivity.
Defined.

(** X2. Against a remote with finitely many pages, a call allowed one loop
    iteration more than there are pages always completes, whatever the
    cache holds: skipped, backfilled or incrementally synced, it returns
    normally. *)
Theorem syncExecutions_completes (remote : Sync.Remote) (fuel : nat)
  (w : Sync.World) (pages : list (list Exec.t)) :
  Paging.serves remote None pages ->
  (length pages < fuel)%nat ->
  (Sync.syncExecutions remote fuel w).1 = Done tt.
Proof.
  intros Hserves Hfuel.
  destruct (syncExecutions_cases remote fuel w) as [[-> _]|(_ & _ & ->)];
    [reflexivity|].
  pose proof (sync_pass_serves remote pages fuel
                (Sync.set_syncInProgress true w) Hserves Hfuel) as Hdone.
  destruct (Sync.sync_pass remote fuel _) as [o w1]. cbn in Hdone.
  rewrite Hdone. reflexivity.
Qed.

Lemma syncExecutions_completes_witness :
  (Sync.syncExecutions Samples.three_pages 4 Samples.world_AB).1 = Done tt.
Proof.
  apply (syncExecutions_completes Samples.three_pages 4%nat Samples.world_AB
           MoreSamples.three_pages_content); [|simpl; lia].
  eapply Paging.serves_more;
    [reflexivity | reflexivity | discriminate | reflexivity |].
  eapply Paging.serves_more;
    [reflexivity | reflexivity | discriminate | reflexivity |].
  eapply Paging.serves_last;
    [reflexivity | reflexivity | discriminate | reflexivity].
Defined.

(** X3. A call never raises, whatever the remote answers: it returns, or
    its pass is still running.  A call that returns leaves the guard flag
    as it found it; a call whose pass is still running holds the flag. *)
Theorem syncExecutions_never_raises (remote : Sync.Remote) (fuel : nat)
  (w : Sync.World) :
  let r := Sync.syncExecutions remote fuel w in
  (forall m, r.1 <> Raised m) /\
  (r.1 = Done tt -> Sync.syncInProgress r.2 = Sync.syncInProgress w) /\
  (r.1 = Pending -> Sync.syncInProgress r.2 = true).
Proof.
  cbv zeta.
  destruct (syncExecutions_cases remote fuel w) as [[-> _]|(Hfree & _ & ->)].
  - repeat split; try discriminate; reflexivity.
  - destruct (sync_pass_effects remote fuel (Sync.set_syncInProgress true w))
      as (evs & (_ & _ & Hguard & _) & _).
    destruct (Sync.sync_pass remote fuel _) as [[[]|m|] w1]; cbn in *;
      repeat split; try discriminate; auto.
Qed.

(** X4. At most one pass per cooldown window: after a call that ran a
    pass to its end, on success as on failure, every call made less than
    60 s later returns at once without a request or a write. *)
Theorem one_pass_per_cooldown_window (remote : Sync.Remote) (fuel : nat)
  (w : Sync.World) :
  Sync.syncInProgress w = false ->
  Sync.SYNC_COOLDOWN <= Sync.now w - Sync.lastSyncTime w ->
  let r := Sync.syncExecutions remote fuel w in
  r.1 = Done tt ->
  forall remote' fuel' d,
    d < Sync.SYNC_COOLDOWN ->
    Sync.syncExecutions remote' fuel' (Sync.elapse d r.2)
    = (Done tt, Sync.elapse d r.2).
Proof.
  intros Hfree Hcool. cbv zeta.
  rewrite (syncExecutions_pass remote fuel w Hfree Hcool).
  destruct (Sync.sync_pass remote fuel _) as [[[]|m|] w1]; cbn [fst snd];
    intros Hdone remote' fuel' d Hd; try discriminate;
    apply syncExecutions_skipped; right; cbn; lia.
Qed.

Lemma one_pass_per_cooldown_window_witness :
  let r := Sync.syncExecutions Samples.three_pages 10 Samples.world_AB in
  Sync.syncExecutions Samples.failing_second_page 10 (Sync.elapse 59999 r.2)
  = (Done tt, Sync.elapse 59999 r.2).
Proof.
  cbv zeta.
  apply (one_pass_per_cooldown_window Samples.three_pages 10%nat Samples.world_AB).
  - reflexivity.
  - vm_compute. discriminate.
  - vm_compute. reflexivity.
  - reflexivity.
Defined.

(** X5. Single flight: while the pass of a call has not finished, another
    call returns at once without a request or a write. *)
Theorem call_during_pass_is_skipped (remote : Sync.Remote) (fuel : nat)
  (w : Sync.World) :
  let r := Sync.syncExecutions remote fuel w in
  r.1 = Pending ->
  forall remote' fuel',
    Sync.syncExecutions remote' fuel' r.2 = (Done tt, r.2).
Proof.
  cbv zeta. intros Hpending remote' fuel'.
  apply syncExecutions_skipped. left. revert Hpending.
  destruct (syncExecutions_cases remote fuel w) as [[-> _]|(_ & _ & ->)];
    [discriminate|].
  destruct (sync_pass_effects remote fuel (Sync.set_syncInProgress true w))
    as (evs & (_ & _ & Hguard & _) & _).
  destruct (Sync.sync_pass remote fuel _) as [[[]|m|] w1]; cbn in *;
    try discriminate.
  intros _. exact Hguard.
Qed.

Lemma call_during_pass_is_skipped_witness :
  let r := Sync.syncExecutions Samples.three_pages 1 Samples.world_AB in
  r.1 = Pending /\
  Sync.syncExecutions Samples.three_pages 10 r.2 = (Done tt, r.2).
Proof.
  cbv zeta. split; [vm_compute; reflexivity|].
  apply (call_during_pass_is_skipped Samples.three_pages 1%nat Samples.world_AB).
  vm_compute. reflexivity.
Defined.

(** X6. The cache is append and update only: whatever a call does, every
    row cached before it is still cached after it, with the workflowId,
    startedAt and mode it had. *)
Theorem rows_kept_with_their_origin (remote : Sync.Remote) (fuel : nat)
  (w : Sync.World) (k : string) (old : Sync.ExecutionOrder) :
  Sync.cache w !! k = Some old ->
  exists new,
    Sync.cache (Sync.syncExecutions remote fuel w).2 !! k = Some new /\
    Paging.same_origin old new.
Proof.
  intros Hold.
  destruct (syncExecutions_effects remote fuel w) as (evs & _ & ->).
  apply upsert_all_origin, Hold.
Qed.

Lemma rows_kept_with_their_origin_witness :
  exists new,
    Sync.cache (Sync.syncExecutions Samples.three_pages 10 Samples.world_AB).2
      !! "B" = Some new /\
    Paging.same_origin (Samples.row "running") new.
Proof.
  apply (rows_kept_with_their_origin Samples.three_pages 10%nat Samples.world_AB).
  reflexivity.
Defined.

(** X7. Once the to-sync items of a page with pairwise distinct ids have
    been upserted, the page has no to-sync item left: synced against the
    same page again, the cache is found caught up. *)
Theorem synced_page_is_caught_up (c : gmap string Sync.ExecutionOrder)
  (page : list Exec.t) :
  NoDup (map SyncSpec.key_of page) ->
  Sync.toSync_of (SyncSpec.upsert_all (Sync.toSync_of c page) c) page = [].
Proof.
  intros Hnd. rewrite !toSync_of_filter.
  apply filter_none, page_settled, Hnd.
Qed.

Lemma synced_page_is_caught_up_witness :
  Sync.toSync_of
    (SyncSpec.upsert_all
       (Sync.toSync_of Samples.cache_AB
          [Samples.execution "B" "success"; Samples.execution "C" "success"])
       Samples.cache_AB)
    [Samples.execution "B" "success"; Samples.execution "C" "success"] = [].
Proof.
  apply synced_page_is_caught_up. apply (bool_decide_unpack _).
  vm_compute. exact I.
Defined.

Lemma syncExecutions_never_raises_witness :
  Sync.syncInProgress
    (Sync.syncExecutions Samples.three_pages 1 Samples.world_AB).2 = true /\
  Sync.syncInProgress
    (Sync.syncExecutions Samples.failing_second_page 10 Samples.world_AB).2
  = false.
Proof.
  split.
  - apply (syncExecutions_never_raises Samples.three_pages 1%nat Samples.world_AB).
    vm_compute. reflexivity.
  - destruct (syncExecutions_never_raises Samples.failing_second_page 10%nat
                Samples.world_AB) as (_ & Hdone & _).
    rewrite Hdone; [reflexivity | vm_compute; reflexivity].
Defined.

(** X8. A backfill interrupted by a failing request is not resumed.  When
    the first call on an empty cache stores the first page and the request
    for the second page fails, the call still returns; and as long as the
    remote's first page is the same, a later call past the cooldown runs
    incrementally, finds that page caught up, makes this one request and
    writes nothing, whatever the remote holds on its later pages. *)
Theorem interrupted_backfill_is_not_resumed (remote : Sync.Remote) (fuel : nat)
  (w : Sync.World) (response : Sync.Response) (page : list Exec.t)
  (next m : string) :
  Sync.cache w = ∅ ->
  Sync.syncInProgress w = false ->
  Sync.SYNC_COOLDOWN <= Sync.now w - Sync.lastSyncTime w ->
  SyncSpec.page_at remote None = Ok response ->
  default [] (Sync.data response) = page ->
  page <> [] ->
  NoDup (map SyncSpec.key_of page) ->
  Sync.truthy_cursor (Sync.nextCursor response) = Some next ->
  SyncSpec.page_at remote (Some next) = Throw m ->
  let r := Sync.syncExecutions remote (S (S fuel)) w in
  r.1 = Done tt /\
  Sync.cache r.2 = SyncSpec.upsert_all page ∅ /\
  forall remote' fuel' d response',
    Sync.SYNC_COOLDOWN <= d ->
    SyncSpec.page_at remote' None = Ok response' ->
    default [] (Sync.data response') = page ->
    let r' := Sync.syncExecutions remote' (S fuel') (Sync.elapse d r.2) in
    r'.1 = Done tt /\
    Sync.trace r'.2 = Sync.trace r.2 ++ [Sync.EvFetch (Sync.page_request None)] /\
    Sync.cache r'.2 = Sync.cache r.2.
Proof.
  intros Hempty Hfree Hcool Hpage Hdata Hne Hnd Hnext Hfail. cbv zeta.
  rewrite (syncExecutions_pass remote _ w Hfree Hcool).
  rewrite sync_pass_empty by exact Hempty.
  rewrite fullBackfill_unfold, fullBackfill_loop_step. cbv zeta.
  rewrite Hpage, Hdata.
  destruct page as [|e page]; [congruence|]. rewrite Hnext.
  rewrite fullBackfill_loop_step. cbv zeta. rewrite Hfail.
  cbn [fst snd]. split; [reflexivity|].
  set (w1 := SyncSpec.release _).
  assert (Hcache : Sync.cache w1 = SyncSpec.upsert_all (e :: page) ∅)
    by (cbn; rewrite Hempty; reflexivity).
  split; [exact Hcache|].
  intros remote' fuel' d response' Hd Hpage' Hdata'.
  rewrite (syncExecutions_pass remote' _ (Sync.elapse d w1));
    [|reflexivity|cbn; lia].
  rewrite (sync_pass_nonempty remote' _ _ (SyncSpec.key_of e)).
  2:{ cbn [Sync.cache Sync.set_syncInProgress Sync.elapse]. rewrite Hcache.
      apply upsert_all_has. left. reflexivity. }
  rewrite incrementalSync_unfold, incrementalSync_loop_step. cbv zeta.
  rewrite Hpage', Hdata'.
  cbn [Sync.cache Sync.set_syncInProgress Sync.elapse]. rewrite Hcache.
  rewrite (backfilled_page_settled (e :: page) Hnd).
  cbn. rewrite Hempty. auto.
Qed.

Lemma interrupted_backfill_is_not_resumed_witness :
  let r := Sync.syncExecutions Samples.failing_second_page 5
             MoreSamples.fresh_world in
  let r' := Sync.syncExecutions Samples.three_pages 5 (Sync.elapse 60000 r.2) in
  r'.1 = Done tt /\
  Sync.cache r'.2 = Sync.cache r.2 /\
  Sync.cache r'.2 !! "A" = None.
Proof.
  destruct (interrupted_backfill_is_not_resumed Samples.failing_second_page
              3%nat MoreSamples.fresh_world
              (Sync.mkResponse
                 (Some [Samples.execution "B" "success";
                        Samples.execution "C" "success"])
                 (Some "page-2"))
              [Samples.execution "B" "success"; Samples.execution "C" "success"]
              "page-2" "n8n API error 502: Bad Gateway")
    as (_ & Hcache & Hlater); try reflexivity.
  - vm_compute. discriminate.
  - discriminate.
  - apply (bool_decide_unpack _). vm_compute. exact I.
  - destruct (Hlater Samples.three_pages 4%nat 60000
                (Sync.mkResponse
                   (Some [Samples.execution "B" "success";
                          Samples.execution "C" "success"])
                   (Some "page-2")))
      as (Hdone & _ & Hsame);
      [unfold Sync.SYNC_COOLDOWN; lia | reflexivity | reflexivity |].
    cbv zeta. split; [exact Hdone|]. split; [exact Hsame|].
    rewrite Hsame, Hcache. reflexivity.
Defined.

(** ** The schema cache: what a sync depends on and when it commits *)

Section RestampFacts.

Import Softr SoftrSpec.

Variable JSON_stringify : JsVal -> string.

(** The nested field inserts leave the table rows alone and do not look
    at them. *)
Lemma insert_fields_frame (t : Api.Table) (fs : list Api.Field) :
  forall F, exists o F',
    forall T, for_ (Softr.insert_field JSON_stringify t) fs (mkDb T F)
              = (o, mkDb T F').
Proof.
  induction fs as [|f fs IH]; intros F; simpl.
  - exists (Done tt), F. reflexivity.
  - unfold bind, Softr.insert_field at 1. cbn [softrField softrTable].
    destruct (F !! Api.id f).
    + exists (Raised "Unique constraint failed on the fields: (`id`)"), F.
      reflexivity.
    + apply IH.
Qed.

Lemma stamped_table_row (env1 env2 : Env) (t : Api.Table) :
  stamped (clock env2) (table_row env1 t) = table_row env2 t.
Proof. reflexivity. Qed.

Lemma create_table_step (env : Env) (t : Api.Table)
  (T : gmap string SoftrTable) (F : gmap string SoftrField) :
  Softr.create_table JSON_stringify env t (mkDb T F) =
  match T !! Api.table_id t with
  | Some _ => (Raised "Unique constraint failed on the fields: (`id`)", mkDb T F)
  | None =>
      for_ (Softr.insert_field JSON_stringify t) (fields_of t)
        (mkDb (<[Api.table_id t := table_row env t]> T) F)
  end.
Proof. reflexivity. Qed.

(** The same tables created at another time give the same rows with
    another stamp. *)
Lemma create_tables_restamped (env1 env2 : Env) (ts : list Api.Table) :
  forall T F o d1,
    for_ (Softr.create_table JSON_stringify env1) ts (mkDb T F) = (o, d1) ->
    exists d2,
      for_ (Softr.create_table JSON_stringify env2) ts
        (mkDb (stamped (clock env2) <$> T) F) = (o, d2) /\
      (o = Done tt ->
       softrField d2 = softrField d1 /\
       softrTable d2 = stamped (clock env2) <$> softrTable d1).
Proof.
  induction ts as [|t ts IH]; intros T F o d1; simpl.
  - intros [= <- <-]. eexists. split; [reflexivity|]. auto.
  - unfold bind. rewrite !create_table_step, lookup_fmap.
    destruct (T !! Api.table_id t); cbn [fmap option_fmap option_map].
    + intros [= <- <-]. eexists. split; [reflexivity | discriminate].
    + destruct (insert_fields_frame t (fields_of t) F) as (o' & F' & Hrun).
      rewrite !Hrun.
      destruct o' as [[]|m|].
      * rewrite <- (stamped_table_row env1 env2), <- fmap_insert. apply IH.
      * intros [= <- <-]. eexists. split; [reflexivity | discriminate].
      * intros [= <- <-]. eexists. split; [reflexivity | discriminate].
Qed.

End RestampFacts.

(** X9. The result of a table sync does not depend on what was cached
    before, only on what the remote serves and on the time: two runs
    against the same remote have the same outcome and, when they commit,
    leave the same field rows and the same table rows up to the syncedAt
    stamp, which is the time of each run. *)
Theorem sync_replaces_whatever_was_cached (JSON_stringify : JsVal -> string)
  (env1 env2 : Softr.Env) (db1 db2 : Softr.Db) :
  SoftrSpec.same_remote env1 env2 ->
  let r1 := Softr.syncSoftrData JSON_stringify env1 db1 in
  let r2 := Softr.syncSoftrData JSON_stringify env2 db2 in
  SoftrSpec.finished_alike r1.1 r2.1 /\
  (forall n, r1.1 = Done n ->
     r2.1 = Done n /\
     Softr.softrField r2.2 = Softr.softrField r1.2 /\
     Softr.softrTable r2.2
     = SoftrSpec.stamped (Softr.clock env2) <$> Softr.softrTable r1.2).
Proof.
  intros (Hkey & Hid & Hlist & Hdetail). cbv zeta.
  rewrite !syncSoftrData_unfold.
  unfold Softr.getDatabaseId, Softr.getTables, Softr.detail_fetches,
    Softr.getTable, Softr.getApiKey.
  rewrite <- Hkey, <- Hid, <- Hlist, <- Hdetail.
  destruct (Softr.env_var (Softr.SOFTR_DATABASE_ID env1) _) as [databaseId|m1];
    [|split; [reflexivity | discriminate]].
  destruct (rbind (Softr.env_var (Softr.SOFTR_API_KEY env1) _) _)
    as [tablesList|m2]; [|split; [reflexivity | discriminate]].
  destruct (Softr.Promise_all _) as [detailed|m3];
    [|split; [reflexivity | discriminate]].
  destruct (for_ (Softr.create_table JSON_stringify env1) _ _)
    as [o v1] eqn:Hrun.
  destruct (create_tables_restamped JSON_stringify env1 env2 _ _ _ _ _ Hrun)
    as (v2 & Hrun2 & Hrows).
  rewrite fmap_empty in Hrun2. rewrite Hrun2.
  destruct o as [[]|m4|]; cbn [fst snd].
  - split; [reflexivity|]. intros n [= <-].
    destruct (Hrows eq_refl) as [Hfields Htables]. auto.
  - split; [reflexivity | discriminate].
  - apply replace_all_spec in Hrun as [Hnp _]. congruence.
Qed.

Lemma sync_replaces_whatever_was_cached_witness :
  let r := Softr.syncSoftrData Samples.stringify_sample Samples.healthy_later
             Samples.cached_three in
  Softr.softrField r.2 = Softr.softrField Samples.cached_three /\
  Softr.softrTable r.2 !! "t2"
  = Some (Softr.mkTableRow "Webattelier - lines" (Some "order lines") None None
            1770991260).
Proof.
  destruct (sync_replaces_whatever_was_cached Samples.stringify_sample
              Samples.healthy_env Samples.healthy_later
              (Softr.mkDb ∅ ∅) Samples.cached_three)
    as [_ Hsame].
  - repeat split.
  - destruct (Hsame 3%nat) as (_ & Hfields & Htables); [vm_compute; reflexivity|].
    cbv zeta. split; [exact Hfields|].
    rewrite Htables, lookup_fmap. vm_compute. reflexivity.
Defined.

(** X10. Once all fetches have returned, the sync commits exactly when the
    ids of the fetched tables are pairwise distinct and the ids of all
    their fields are pairwise distinct across tables; a field id shared
    by two tables makes the whole sync fail. *)
Theorem sync_commits_iff_ids_distinct (JSON_stringify : JsVal -> string)
  (env : Softr.Env) (db : Softr.Db) (databaseId : string)
  (tablesList : list string) (detailed : list (option Api.Table)) :
  Softr.getDatabaseId env = Ok databaseId ->
  Softr.getTables env databaseId = Ok tablesList ->
  Softr.Promise_all (Softr.detail_fetches env databaseId tablesList)
    = Ok detailed ->
  let tables := Softr.filter_Boolean detailed in
  let r := Softr.syncSoftrData JSON_stringify env db in
  (r.1 = Done (length tables) <->
   NoDup (SoftrSpec.table_ids tables) /\ NoDup (SoftrSpec.field_ids tables)) /\
  (r.1 <> Done (length tables) -> exists m, r = (Raised m, db)).
Proof.
  intros Hdb Hlist Hall. cbv zeta.
  destruct (syncSoftrData_fetched JSON_stringify env db _ _ _ Hdb Hlist Hall)
    as [Hcommit Hfail].
  destruct (decide (NoDup (SoftrSpec.table_ids (Softr.filter_Boolean detailed))
                    /\ NoDup (SoftrSpec.field_ids (Softr.filter_Boolean detailed))))
    as [Hdistinct|Hclash].
  - destruct (Hcommit Hdistinct) as (db' & -> & _). cbn [fst].
    split; [tauto | congruence].
  - destruct (Hfail Hclash) as [m ->]. cbn [fst].
    split; [split; [discriminate | tauto] | eauto].
Qed.

Lemma sync_commits_iff_ids_distinct_witness :
  ~ NoDup (SoftrSpec.field_ids [Samples.orders; Samples.lines; Samples.clashing]).
Proof.
  intros Hnf.
  destruct (sync_commits_iff_ids_distinct Samples.stringify_sample
              Samples.clashing_env Samples.cached_three "db1"
              ["t1"; "t2"; "t3"]
              [Some Samples.orders; Some Samples.lines; Some Samples.clashing]
              eq_refl eq_refl eq_refl) as [[_ Hcommit] _].
  assert (Hdone : (Softr.syncSoftrData Samples.stringify_sample
                     Samples.clashing_env Samples.cached_three).1 = Done 3%nat).
  { apply Hcommit. split; [|exact Hnf].
    apply (bool_decide_unpack _). vm_compute. exact I. }
  vm_compute in Hdone. discriminate.
Defined.

(** X11. After a committed sync the cache counts as filled exactly when
    at least one table was synced; a failed sync leaves that answer as it
    was.  A sync that finds no table thus leaves the cache counting as
    empty. *)
Theorem hasCachedData_after_sync (JSON_stringify : JsVal -> string)
  (env : Softr.Env) (db : Softr.Db) :
  let r := Softr.syncSoftrData JSON_stringify env db in
  (forall n, r.1 = Done n ->
     Search.hasCachedData r.2 = negb (Nat.eqb n 0)) /\
  (forall m, r.1 = Raised m ->
     Search.hasCachedData r.2 = Search.hasCachedData db).
Proof.
  cbv zeta. rewrite syncSoftrData_unfold.
  destruct (Softr.getDatabaseId env) as [databaseId|m1];
    [|split; [discriminate | reflexivity]].
  destruct (Softr.getTables env databaseId) as [tablesList|m2];
    [|split; [discriminate | reflexivity]].
  destruct (Softr.Promise_all _) as [detailed|m3];
    [|split; [discriminate | reflexivity]].
  destruct (for_ _ _ _) as [[[]|m4|] db'] eqn:Hrun;
    (split; [|try discriminate; reflexivity]); try discriminate.
  intros n [= <-]. cbn [snd].
  destruct (replace_all_spec _ _ _ _ _ Hrun) as [_ Hdone].
  destruct (Hdone eq_refl) as [Htab _].
  unfold Search.hasCachedData.
  destruct (Softr.filter_Boolean detailed) as [|t ts] eqn:Htables.
  - assert (Hempty : Softr.softrTable db' = ∅).
    { apply map_eq. intros id. rewrite lookup_empty.
      apply eq_None_not_Some. intros [row Hrow].
      apply Htab in Hrow as (t & [] & _). }
    rewrite Hempty, map_size_empty. reflexivity.
  - assert (Hsome : Softr.softrTable db' !! Api.table_id t
                    = Some (Softr.table_row env t)).
    { apply Htab. exists t. split; [left; reflexivity|].
      split; [reflexivity|]. repeat split. }
    assert (Hsize : size (Softr.softrTable db') <> 0%nat).
    { apply map_size_ne_0_lookup. eauto. }
    simpl. destruct (size (Softr.softrTable db')); [congruence | reflexivity].
Qed.

Lemma hasCachedData_after_sync_witness :
  Search.hasCachedData Samples.cached_three = true /\
  Search.hasCachedData
    (Softr.syncSoftrData Samples.stringify_sample Samples.third_detail_fails
       (Softr.mkDb ∅ ∅)).2 = false.
Proof.
  split.
  - destruct (hasCachedData_after_sync Samples.stringify_sample
                Samples.healthy_env (Softr.mkDb ∅ ∅)) as [Hdone _].
    apply (Hdone 3%nat). vm_compute. reflexivity.
  - destruct (hasCachedData_after_sync Samples.stringify_sample
                Samples.third_detail_fails (Softr.mkDb ∅ ∅)) as [_ Hfailed].
    rewrite (Hfailed "Softr API error 500: Internal Server Error");
      [reflexivity | vm_compute; reflexivity].
Defined.

(** ** The record search and its route *)

Section SearchMore.

Import Softr SoftrSpec Search.

Variable Number : string -> JsVal.

Lemma trim_blank (q : string) : blank q -> trim q = "".
Proof.
  unfold blank, trim. intros Hq. rewrite (trim_start_blank_nil _ Hq).
  reflexivity.
Qed.

(** A table is searched only if it is configured and has a field of a
    configured name. *)
Lemma table_condition_Some (query : string) (table : CachedTable) (c : JsVal) :
  table_condition Number query table = Some c ->
  is_searchable table = true /\
  exists fieldNames f,
    search_fields (ct_name table) = Some fieldNames /\
    In f (ct_fields table) /\ includes (cf_name f) fieldNames = true.
Proof.
  unfold table_condition, is_searchable.
  destruct (search_fields (ct_name table)) as [fieldNames|]; [|discriminate].
  destruct (List.filter _ _) as [|f fs] eqn:Hfilter; [discriminate|].
  intros _. split; [reflexivity|]. exists fieldNames, f.
  split; [reflexivity|].
  assert (Hin : In f (List.filter (fun f => includes (cf_name f) fieldNames)
                        (ct_fields table)))
    by (rewrite Hfilter; left; reflexivity).
  apply List.filter_In in Hin. exact Hin.
Qed.

Lemma search_table_group (senv : SearchEnv) (databaseId query : string)
  (limit : Z) (table : CachedTable) (g : Group) :
  search_table Number senv databaseId query limit table = Ok (Some g) ->
  tableId g = ct_id table /\ tableName g = ct_name table /\
  exists c, table_condition Number query table = Some c.
Proof.
  unfold search_table.
  destruct (table_condition Number query table) as [c|]; [|discriminate].
  destruct (softrPost _ _ _ _) as [result|m]; [|discriminate]. simpl.
  destruct (map_records _ _) as [records|m]; [|discriminate]. simpl.
  intros [= <-]. eauto.
Qed.

Lemma fulfilled_with_records_Some (r : Result (option Group)) (g : Group) :
  fulfilled_with_records r = Some g <-> r = Ok (Some g) /\ records g <> [].
Proof.
  unfold fulfilled_with_records. split.
  - destruct r as [[g'|]|m]; try discriminate.
    destruct (records g') eqn:Hrec; [discriminate|].
    intros [= <-]. rewrite Hrec. split; [reflexivity | discriminate].
  - intros [-> Hne]. destruct (records g); [congruence | reflexivity].
Qed.

(** The search past its early returns. *)
Lemma searchSoftrRecords_unfold (senv : SearchEnv) (tables : list CachedTable)
  (query : string) (limit : Z) (databaseId : string) :
  trim query <> "" ->
  getDatabaseId (env senv) = Ok databaseId ->
  searchSoftrRecords Number senv tables query limit
  = Ok (omap fulfilled_with_records
          (map (search_table Number senv databaseId query limit)
               (List.filter is_searchable tables))).
Proof.
  intros Hq Hdb. unfold searchSoftrRecords.
  rewrite empty_query_test. apply String.eqb_neq in Hq. rewrite Hq, Hdb.
  destruct tables; reflexivity.
Qed.

(** What one assignment does to the own properties of [fields]. *)
Lemma assign_own_other (name k : string) (value : JsVal) (fields : Fields) :
  k <> name -> own (assign name value fields) !! k = own fields !! k.
Proof using Type.
  clear Number. intros Hne. unfold assign, define_own, set_prototype.
  repeat case_match; simpl; rewrite ?lookup_insert_ne; congruence.
Qed.

Lemma assign_own_self (name : string) (value : JsVal) (fields : Fields) :
  name <> "__proto__" -> own (assign name value fields) !! name = Some value.
Proof using Type.
  clear Number. intros Hne. unfold assign.
  destruct (String.eqb_spec name "__proto__") as [->|_]; [congruence|].
  simpl. apply lookup_insert_eq.
Qed.

Lemma assign_own_from (name k : string) (value x : JsVal) (fields : Fields) :
  own (assign name value fields) !! k = Some x ->
  own fields !! k = Some x \/ (k = name /\ x = value).
Proof using Type.
  clear Number. destruct (decide (k = name)) as [->|Hne].
  - unfold assign, define_own, set_prototype.
    repeat case_match; simpl; rewrite ?lookup_insert_eq; intros Hx;
      try (injection Hx as <-); auto; congruence.
  - rewrite assign_own_other by exact Hne. auto.
Qed.

Lemma assign_first_proto (value : JsVal) (fields : Fields) :
  own fields !! "__proto__" = None -> proto fields = ObjectPrototype ->
  own (assign "__proto__" value fields) !! "__proto__" = None.
Proof using Type.
  clear Number. intros Hown Hproto. unfold assign. simpl.
  rewrite Hown, Hproto. unfold set_prototype. destruct value; exact Hown.
Qed.

Lemma assign_proto_other (name : string) (value : JsVal) (fields : Fields) :
  name <> "__proto__" -> proto (assign name value fields) = proto fields.
Proof using Type.
  clear Number. intros Hne. unfold assign.
  destruct (String.eqb_spec name "__proto__") as [->|_]; [congruence|].
  reflexivity.
Qed.

(** What the loop over the entries of a record leaves in [fields]. *)
Lemma assign_fields_spec (table : CachedTable) (entries : list (string * JsVal)) :
  forall acc fields,
    assign_fields table entries acc = Ok fields ->
    (forall k v, own fields !! k = Some v ->
       own acc !! k = Some v \/
       exists fieldId raw, In (fieldId, raw) entries /\
         k = field_key table fieldId /\ resolveFieldValue raw = Ok v) /\
    (forall k v, own acc !! k = Some v ->
       ~ In k (map (fun entry => field_key table entry.1) entries) ->
       own fields !! k = Some v) /\
    (NoDup (map (fun entry => field_key table entry.1) entries) ->
     forall fieldId raw, In (fieldId, raw) entries ->
       field_key table fieldId <> "__proto__" ->
       exists v, resolveFieldValue raw = Ok v /\
                 own fields !! field_key table fieldId = Some v).
Proof using Type.
  clear Number.
  induction entries as [|[fieldId raw] rest IH]; intros acc fields; simpl.
  - intros [= <-]. split; [auto|]. split; [auto | intros _ ? ? []].
  - destruct (resolveFieldValue raw) as [shown|m] eqn:Hraw; [|discriminate].
    simpl. intros Hrest. destruct (IH _ _ Hrest) as (Hfrom & Hkeep & Hto).
    split; [|split].
    + intros k v Hk. destruct (Hfrom k v Hk) as [Hacc|(id' & raw' & Hin & ? & ?)].
      * apply assign_own_from in Hacc as [Hacc|[-> ->]]; eauto 8.
      * eauto 8.
    + intros k v Hk Hnotin. apply Hkeep; [|tauto].
      rewrite assign_own_other; [exact Hk|].
      intros ->. apply Hnotin. left. reflexivity.
    + intros [Hnotin Hnd]%NoDup_cons id' raw' [[= <- <-]|Hin] Hplain.
      * exists shown. split; [exact Hraw|].
        apply Hkeep; [apply assign_own_self, Hplain|].
        intros H. apply Hnotin, list_elem_of_In, H.
      * apply Hto; assumption.
Qed.

(** A record that names [__proto__] once gets no own key of that name:
    the assignment reaches the accessor of [Object.prototype]. *)
Lemma assign_fields_proto (table : CachedTable) (entries : list (string * JsVal)) :
  forall acc fields,
    assign_fields table entries acc = Ok fields ->
    NoDup (map (fun entry => field_key table entry.1) entries) ->
    own acc !! "__proto__" = None ->
    proto acc = ObjectPrototype \/
      ~ In "__proto__" (map (fun entry => field_key table entry.1) entries) ->
    own fields !! "__proto__" = None.
Proof using Type.
  clear Number.
  induction entries as [|[fieldId raw] rest IH]; intros acc fields; simpl.
  - intros [= <-] _ Hown _. exact Hown.
  - destruct (resolveFieldValue raw) as [shown|m] eqn:Hraw; [|discriminate].
    simpl. intros Hrest [Hnotin Hnd]%NoDup_cons Hown Hproto.
    destruct (decide (field_key table fieldId = "__proto__")) as [Heq|Hne].
    + destruct Hproto as [Hproto|Hno]; [|tauto].
      apply (IH _ _ Hrest Hnd).
      * rewrite Heq. apply assign_first_proto; assumption.
      * right. rewrite <- Heq. intros H. apply Hnotin, list_elem_of_In, H.
    + apply (IH _ _ Hrest Hnd).
      * rewrite assign_own_other by congruence. exact Hown.
      * destruct Hproto as [Hproto|Hno]; [left|right; tauto].
        rewrite assign_proto_other by exact Hne. exact Hproto.
Qed.

End SearchMore.

(** X12. With the database id configured and a query that is not blank,
    the search returns normally whatever the single table searches do: a
    table's group is in the result exactly when that table's own search
    succeeded with at least one record, so a failing table only removes
    its own group; and every group returned belongs to a cached table that
    is configured for search and has a field of a configured name. *)
Theorem search_survives_table_failures (Number : string -> JsVal)
  (senv : Search.SearchEnv) (tables : list Softr.CachedTable)
  (query : string) (limit : Z) (databaseId : string) :
  Softr.getDatabaseId (Search.env senv) = Ok databaseId ->
  Softr.trim query <> "" ->
  exists groups,
    Search.searchSoftrRecords Number senv tables query limit = Ok groups /\
    (forall g, In g groups <->
       exists table, In table tables /\
         Search.search_table Number senv databaseId query limit table
           = Ok (Some g) /\
         Search.records g <> []) /\
    (forall g, In g groups ->
       exists table fieldNames f,
         In table tables /\
         Search.tableId g = Softr.ct_id table /\
         Search.tableName g = Softr.ct_name table /\
         Softr.search_fields (Softr.ct_name table) = Some fieldNames /\
         In f (Softr.ct_fields table) /\
         Softr.includes (Softr.cf_name f) fieldNames = true).
Proof.
  intros Hdb Hq. eexists.
  split; [apply searchSoftrRecords_unfold; eassumption|].
  assert (Hmem : forall g,
    In g (omap Search.fulfilled_with_records
            (map (Search.search_table Number senv databaseId query limit)
                 (List.filter Softr.is_searchable tables))) <->
    exists table, In table tables /\
      Search.search_table Number senv databaseId query limit table = Ok (Some g) /\
      Search.records g <> []).
  { intros g. rewrite <- list_elem_of_In, list_elem_of_omap. split.
    - intros (r & Hr & Hkept). apply fulfilled_with_records_Some in Hkept as [-> Hne].
      apply list_elem_of_In, in_map_iff in Hr as (table & Hrun & Hin).
      apply List.filter_In in Hin as [Hin _]. eauto.
    - intros (table & Hin & Hrun & Hne).
      exists (Ok (Some g)). split; [|apply fulfilled_with_records_Some; auto].
      apply list_elem_of_In, in_map_iff. exists table. split; [exact Hrun|].
      apply List.filter_In. split; [exact Hin|].
      destruct (search_table_group Number _ _ _ _ _ _ Hrun) as (_ & _ & c & Hc).
      apply (table_condition_Some Number _ _ _ Hc). }
  split; [exact Hmem|].
  intros g Hg. apply Hmem in Hg as (table & Hin & Hrun & _).
  destruct (search_table_group Number _ _ _ _ _ _ Hrun) as (Hid & Hname & c & Hc).
  destruct (table_condition_Some Number _ _ _ Hc)
    as (_ & fieldNames & f & Hcfg & Hf & Hincl).
  exists table, fieldNames, f. auto 10.
Qed.

Lemma search_survives_table_failures_witness :
  exists groups,
    Search.searchSoftrRecords Samples.Number_sample MoreSamples.search_env
      MoreSamples.cached_tables " 1042" 10 = Ok groups /\
    map Search.tableName groups = ["Webattelier - orders"].
Proof.
  destruct (search_survives_table_failures Samples.Number_sample
              MoreSamples.search_env MoreSamples.cached_tables " 1042" 10 "db1")
    as (groups & Hrun & _).
  - reflexivity.
  - discriminate.
  - exists groups. split; [exact Hrun|].
    vm_compute in Hrun. injection Hrun as <-. reflexivity.
Defined.

(** X13. In a record returned by the search every own key of [fields] is
    the display key of one of the record's raw field ids, the name of the
    cached field of that id or, where the schema has none, the raw id
    itself, and its value is the display form of the raw value; where the
    display keys of a record are pairwise distinct, every raw field whose
    display key is not [__proto__] is shown under its key, and [fields]
    has no own key [__proto__]: a raw field of that display key is not
    shown. *)
Theorem shown_record_fields (table : Softr.CachedTable)
  (record : Search.SoftrRecord) (shown : Search.ShownRecord) :
  Search.show_record table record = Ok shown ->
  let entries := default [] (Search.rec_fields record) in
  Search.shown_id shown = Search.rec_id record /\
  (forall k v, Search.shown_fields shown !! k = Some v ->
     exists fieldId raw, In (fieldId, raw) entries /\
       k = Search.field_key table fieldId /\
       Softr.resolveFieldValue raw = Ok v) /\
  (NoDup (map (fun entry => Search.field_key table entry.1) entries) ->
   (forall fieldId raw, In (fieldId, raw) entries ->
     Search.field_key table fieldId <> "__proto__" ->
     exists v, Softr.resolveFieldValue raw = Ok v /\
       Search.shown_fields shown !! Search.field_key table fieldId = Some v) /\
   Search.shown_fields shown !! "__proto__" = None) /\
  (forall fieldId,
     (exists f, In f (Softr.ct_fields table) /\ Softr.cf_id f = fieldId /\
                Search.field_key table fieldId = Softr.cf_name f) \/
     (forall f, In f (Softr.ct_fields table) -> Softr.cf_id f <> fieldId) /\
     Search.field_key table fieldId = fieldId).
Proof.
  unfold Search.show_record. cbv zeta.
  destruct (Search.assign_fields table _ _) as [fields|m] eqn:Hrun;
    [|discriminate].
  simpl. intros [= <-]. cbn [Search.shown_id Search.shown_fields].
  destruct (assign_fields_spec table _ _ _ Hrun) as (Hfrom & _ & Hto).
  split; [reflexivity|]. split; [|split].
  - intros k v Hk. destruct (Hfrom k v Hk) as [Hempty|H]; [|exact H].
    simpl in Hempty. rewrite lookup_empty in Hempty. discriminate.
  - intros Hnd. split; [exact (Hto Hnd)|].
    apply (assign_fields_proto table _ _ _ Hrun Hnd); [apply lookup_empty|].
    left. reflexivity.
  - intros fieldId. unfold Search.field_key.
    destruct (List.find _ _) as [f|] eqn:Hfind.
    + left. apply List.find_some in Hfind as [Hin Hid].
      apply String.eqb_eq in Hid. eauto.
    + right. split; [|reflexivity]. intros f Hin Hid.
      apply (List.find_none _ _ Hfind) in Hin.
      rewrite Hid, String.eqb_refl in Hin. discriminate.
Qed.

Lemma shown_record_fields_witness :
  exists shown,
    Search.show_record Samples.cached_orders MoreSamples.proto_record = Ok shown /\
    Search.shown_fields shown !! "ID" = Some (JNum 1042) /\
    Search.shown_fields shown !! "Customer" = Some (JStr "Jansen") /\
    Search.shown_fields shown !! "f9" = Some (JStr "unmapped") /\
    Search.shown_fields shown !! "__proto__" = None.
Proof.
  destruct (Search.show_record Samples.cached_orders MoreSamples.proto_record)
    as [shown|m] eqn:Hrun; [|vm_compute in Hrun; discriminate].
  exists shown. split; [reflexivity|].
  destruct (shown_record_fields Samples.cached_orders MoreSamples.proto_record
              shown Hrun) as (_ & _ & Hto & _).
  assert (Hnd : NoDup (map (fun entry => Search.field_key Samples.cached_orders entry.1)
                         (default [] (Search.rec_fields MoreSamples.proto_record))))
    by (apply (bool_decide_unpack _); vm_compute; exact I).
  destruct (Hto Hnd) as [Hshown Hproto].
  refine (conj _ (conj _ (conj _ Hproto))).
  - destruct (Hshown "f1" (JNum 1042)) as (v & [= <-] & Hv);
      [simpl; auto | discriminate | exact Hv].
  - destruct (Hshown "f2" (JObj [("id", JStr "c7"); ("label", JStr "Jansen")]))
      as (v & [= <-] & Hv); [simpl; auto | discriminate | exact Hv].
  - destruct (Hshown "f9" (JStr "unmapped")) as (v & [= <-] & Hv);
      [simpl; auto | discriminate | exact Hv].
Defined.

(** X14. The search reads the search endpoint only at the requests listed
    by [search_requests]: two endpoints that agree on these give the same
    result.  For a blank query, which has no request, the result is empty
    whatever the configuration. *)
Theorem search_reads_only_its_requests (Number : string -> JsVal)
  (senv1 senv2 : Search.SearchEnv) (tables : list Softr.CachedTable)
  (query : string) (limit : Z) :
  Search.env senv1 = Search.env senv2 ->
  (forall databaseId tableId body,
     In (tableId, body) (Softr.search_requests Number query limit tables) ->
     Search.search_endpoint senv1 databaseId tableId body
     = Search.search_endpoint senv2 databaseId tableId body) ->
  Search.searchSoftrRecords Number senv1 tables query limit
  = Search.searchSoftrRecords Number senv2 tables query limit /\
  (SoftrSpec.blank query ->
   Softr.search_requests Number query limit tables = [] /\
   Search.searchSoftrRecords Number senv1 tables query limit = Ok []).
Proof.
  intros Henv Hagree. split.
  - unfold Search.searchSoftrRecords. rewrite <- Henv.
    unfold Softr.search_requests in Hagree.
    destruct (String.eqb query "" || String.eqb (Softr.trim query) "");
      [reflexivity|].
    destruct (Softr.getDatabaseId (Search.env senv1)) as [databaseId|m];
      [|reflexivity].
    simpl. destruct tables as [|t ts]; [reflexivity|]. do 2 f_equal.
    apply map_ext_in. intros table Hin. unfold Search.search_table.
    destruct (Softr.table_condition Number query table) as [c|] eqn:Hc;
      [|reflexivity].
    unfold Search.softrPost. rewrite <- Henv.
    rewrite (Hagree databaseId (Softr.ct_id table) (Softr.search_body c limit));
      [reflexivity|].
    apply list_elem_of_In, list_elem_of_omap. exists table.
    split; [apply list_elem_of_In, Hin|]. rewrite Hc. reflexivity.
  - intros Hblank. pose proof (trim_blank query Hblank) as Htrim.
    unfold Softr.search_requests, Search.searchSoftrRecords.
    rewrite Htrim, orb_true_r. auto.
Qed.

Lemma search_reads_only_its_requests_witness :
  Search.searchSoftrRecords Samples.Number_sample MoreSamples.search_env
    [Samples.cached_customers; Samples.cached_orders] "1042" 10
  = Search.searchSoftrRecords Samples.Number_sample MoreSamples.search_env_healed
      [Samples.cached_customers; Samples.cached_orders] "1042" 10.
Proof.
  apply (search_reads_only_its_requests Samples.Number_sample
           MoreSamples.search_env MoreSamples.search_env_healed
           [Samples.cached_customers; Samples.cached_orders] "1042" 10).
  - reflexivity.
  - intros databaseId tableId body [[= <- <-]|[]]. reflexivity.
Defined.

Section LoaderFacts.

Variable JSON_stringify : JsVal -> string.

(** The table sync settles, and a run that raises has rolled back. *)
Lemma syncSoftrData_settles (env : Softr.Env) (db db1 : Softr.Db)
  (o : Outcome nat) :
  Softr.syncSoftrData JSON_stringify env db = (o, db1) ->
  o <> Pending /\ (forall m, o = Raised m -> db1 = db).
Proof.
  rewrite syncSoftrData_unfold.
  destruct (Softr.getDatabaseId env) as [databaseId|m];
    [|intros [= <- <-]; split; [discriminate | reflexivity]].
  destruct (Softr.getTables env databaseId) as [tablesList|m];
    [|intros [= <- <-]; split; [discriminate | reflexivity]].
  destruct (Softr.Promise_all _) as [detailed|m];
    [|intros [= <- <-]; split; [discriminate | reflexivity]].
  destruct (for_ _ _ _) as [[[]|m|] db'] eqn:Hrun; intros [= <- <-].
  - split; [discriminate | intros m [=]].
  - split; [discriminate | reflexivity].
  - apply replace_all_spec in Hrun as [Hnp _]. congruence.
Qed.

End LoaderFacts.

(** X15. The loader of the search route always answers, with the query
    it was given.  A blank query is answered with no results, without a
    look at the cache.  A filled schema cache is left as it is; the cache
    changes only by a table sync that committed.  An answer without error
    carries what the search returned over the cached tables; an answer
    with an error has no results, and the error is the message of the
    failed sync, the cache then being as before, or of the search. *)
Theorem search_loader_answers (Number : string -> JsVal)
  (getCachedTables : Softr.Db -> list Softr.CachedTable)
  (JSON_stringify : JsVal -> string)
  (senv : Search.SearchEnv) (q : string) (db : Softr.Db) :
  exists d db',
    Search.search_loader Number getCachedTables JSON_stringify senv q db
      = (Done d, db') /\
    Search.query d = q /\
    (Softr.trim q = "" ->
     d = Search.mkSearchData [] q None /\ db' = db) /\
    (Search.hasCachedData db = true -> db' = db) /\
    (db' <> db ->
     exists n, Softr.syncSoftrData JSON_stringify (Search.env senv) db
               = (Done n, db')) /\
    match Search.error d with
    | None =>
        Softr.trim q = "" /\ Search.results d = [] \/
        Search.searchSoftrRecords Number senv (getCachedTables db') q 10
          = Ok (Search.results d)
    | Some m =>
        Search.results d = [] /\ Softr.trim q <> "" /\
        (Search.hasCachedData db = false /\ db' = db /\
         Softr.syncSoftrData JSON_stringify (Search.env senv) db
           = (Raised m, db) \/
         Search.searchSoftrRecords Number senv (getCachedTables db') q 10
           = Throw m)
    end.
Proof.
  unfold Search.search_loader.
  destruct (String.eqb (Softr.trim q) "") eqn:Hq.
  - apply String.eqb_eq in Hq. exists (Search.mkSearchData [] q None), db.
    simpl. repeat split; auto; congruence.
  - apply String.eqb_neq in Hq.
    unfold try_catch, Search.search_with_schema, bind, gets.
    destruct (Search.hasCachedData db) eqn:Hhas.
    + cbn [ret].
      destruct (Search.searchSoftrRecords Number senv (getCachedTables db) q 10)
        as [groups|m] eqn:Hsearch; cbn [lift ret raise].
      * exists (Search.mkSearchData groups q None), db. simpl.
        repeat split; auto; congruence.
      * exists (Search.mkSearchData [] q (Some m)), db. simpl.
        repeat split; auto; congruence.
    + destruct (Softr.syncSoftrData JSON_stringify (Search.env senv) db)
        as [[n|m|] db1] eqn:Hsync.
      * destruct (Search.searchSoftrRecords Number senv (getCachedTables db1) q 10)
          as [groups|m] eqn:Hsearch; cbn [lift ret raise].
        -- exists (Search.mkSearchData groups q None), db1. simpl.
           repeat split; eauto; congruence.
        -- exists (Search.mkSearchData [] q (Some m)), db1. simpl.
           repeat split; eauto; congruence.
      * destruct (syncSoftrData_settles _ _ _ _ _ Hsync) as [_ Hback].
        rewrite (Hback m eq_refl) in *.
        exists (Search.mkSearchData [] q (Some m)), db. simpl.
        repeat split; auto; congruence.
      * destruct (syncSoftrData_settles _ _ _ _ _ Hsync) as [Hnp _].
        congruence.
Qed.

Lemma search_loader_answers_witness :
  Search.search_loader Samples.Number_sample MoreSamples.read_tables
    Samples.stringify_sample
    (Search.mkSearchEnv Samples.third_detail_fails
       (Search.search_endpoint MoreSamples.search_env))
    "1042" (Softr.mkDb ∅ ∅)
  = (Done (Search.mkSearchData [] "1042"
             (Some "Softr API error 500: Internal Server Error")),
     Softr.mkDb ∅ ∅).
Proof.
  destruct (search_loader_answers Samples.Number_sample MoreSamples.read_tables
              Samples.stringify_sample
              (Search.mkSearchEnv Samples.third_detail_fails
                 (Search.search_endpoint MoreSamples.search_env))
              "1042" (Softr.mkDb ∅ ∅))
    as (d & db' & Hrun & _).
  rewrite Hrun. vm_compute in Hrun. injection Hrun as <- <-. reflexivity.
Defined.

(** X16. What a call of [getWorkflows] returns is what the cache holds
    afterwards, and the call made at most one request.  A truthy result is
    then served from the cache, without a request, to every call before
    the expiry time; a falsy result is never served from the cache: the
    next call makes a request at whatever time.  A call that raises made a
    request that failed and leaves the cache as it was. *)
Theorem getWorkflows_cache (now later : Z) (fetch : Result JsVal)
  (s s1 : Workflows.State) (o : Outcome JsVal) :
  Workflows.getWorkflows now later fetch s = (o, s1) ->
  o <> Pending /\
  (forall v, o = Done v ->
     Workflows.data (Workflows.workflowsCache s1) = v /\
     (s1 = s \/
      fetch = Ok v /\
      Workflows.requests s1 = S (Workflows.requests s) /\
      Workflows.expiresAt (Workflows.workflowsCache s1)
        = later + Workflows.CACHE_TTL) /\
     forall now2 later2 fetch2,
       (truthy v = true ->
        now2 < Workflows.expiresAt (Workflows.workflowsCache s1) ->
        Workflows.getWorkflows now2 later2 fetch2 s1 = (Done v, s1)) /\
       (truthy v = false ->
        Workflows.requests (Workflows.getWorkflows now2 later2 fetch2 s1).2
          = S (Workflows.requests s1))) /\
  (forall m, o = Raised m ->
     fetch = Throw m /\
     Workflows.workflowsCache s1 = Workflows.workflowsCache s /\
     Workflows.requests s1 = S (Workflows.requests s)).
Proof.
  unfold Workflows.getWorkflows. cbv zeta.
  assert (Hnext : forall (s' : Workflows.State) v,
    Workflows.data (Workflows.workflowsCache s') = v ->
    forall now2 later2 fetch2,
      (truthy v = true ->
       now2 < Workflows.expiresAt (Workflows.workflowsCache s') ->
       Workflows.getWorkflows now2 later2 fetch2 s' = (Done v, s')) /\
      (truthy v = false ->
       Workflows.requests (Workflows.getWorkflows now2 later2 fetch2 s').2
         = S (Workflows.requests s'))).
  { intros s' v <- now2 later2 fetch2. unfold Workflows.getWorkflows. cbv zeta.
    split.
    - intros -> Hfresh%Z.ltb_lt. rewrite Hfresh. reflexivity.
    - intros ->. simpl. destruct fetch2; reflexivity. }
  destruct (truthy (Workflows.data (Workflows.workflowsCache s)) &&
            (now <? Workflows.expiresAt (Workflows.workflowsCache s))) eqn:Hhit.
  - intros [= <- <-]. split; [discriminate|]. split; [|intros m [=]].
    intros v [= <-]. split; [reflexivity|]. split; [left; reflexivity|].
    apply Hnext. reflexivity.
  - destruct fetch as [result|m]; intros [= <- <-];
      (split; [discriminate|]); split.
    + intros v [= <-]. split; [reflexivity|].
      split; [right; auto|]. apply Hnext. reflexivity.
    + intros m [=].
    + intros v [=].
    + intros m' [= <-]. auto.
Qed.

Lemma getWorkflows_cache_witness :
  let s1 := (Workflows.getWorkflows 1000 1200 (Ok (JArr [JStr "wf1"]))
               (Workflows.mkState Workflows.initial 0)).2 in
  Workflows.getWorkflows 301199 301300 (Throw "n8n API error 503") s1
  = (Done (JArr [JStr "wf1"]), s1).
Proof.
  intros s1.
  destruct (getWorkflows_cache 1000 1200 (Ok (JArr [JStr "wf1"]))
              (Workflows.mkState Workflows.initial 0) s1
              (Done (JArr [JStr "wf1"])) eq_refl)
    as (_ & Hdone & _).
  destruct (Hdone _ eq_refl) as (_ & _ & Hnext).
  apply Hnext; [reflexivity|]. unfold s1. vm_compute. reflexivity.
Defined.

Section UrlFacts.

Import OrderWorkflow OrderWorkflowSpec.

Lemma append_cons (c : ascii) (a b : string) :
  String c a +:+ b = String c (a +:+ b).
Proof. reflexivity. Qed.

Lemma append_nil_r (s : string) : s +:+ "" = s.
Proof.
  induction s as [|c s IH]; [reflexivity|]. rewrite append_cons. congruence.
Qed.

Lemma append_assoc (a b c : string) : (a +:+ b) +:+ c = a +:+ (b +:+ c).
Proof.
  induction a as [|x a IH]; [reflexivity|]. rewrite !append_cons. congruence.
Qed.

Lemma occurs_app (c : ascii) (a b : string) :
  occurs c (a +:+ b) = occurs c a || occurs c b.
Proof.
  induction a as [|x a IH]; [reflexivity|].
  rewrite append_cons. simpl. rewrite IH, orb_assoc. reflexivity.
Qed.

(** No piece of a split holds the separator. *)
Lemma split_from_pieces (sep : ascii) (s : string) :
  forall acc, occurs sep acc = false ->
    Forall (fun piece => occurs sep piece = false) (split_from sep acc s).
Proof.
  induction s as [|c s IH]; intros acc Hacc; simpl.
  - repeat constructor. exact Hacc.
  - destruct (Ascii.eqb c sep) eqn:Hc.
    + constructor; [exact Hacc | apply IH; reflexivity].
    + apply IH. rewrite occurs_app, Hacc. simpl. rewrite Hc. reflexivity.
Qed.

Lemma path_parts_segments (pathname : string) :
  Forall segment (path_parts pathname).
Proof.
  unfold path_parts, split. apply List.Forall_forall. intros part Hin.
  apply List.filter_In in Hin as [Hin Hne]. split.
  - intros ->. discriminate.
  - pose proof (split_from_pieces "/" pathname "" eq_refl) as Hpieces.
    rewrite List.Forall_forall in Hpieces. apply Hpieces, Hin.
Qed.

(** A split does not look into the piece under way. *)
Lemma split_from_app (sep : ascii) (piece s : string) :
  occurs sep piece = false ->
  forall acc, split_from sep acc (piece +:+ s) = split_from sep (acc +:+ piece) s.
Proof.
  induction piece as [|c piece IH]; simpl; intros Hpiece acc.
  - rewrite append_nil_r. reflexivity.
  - apply orb_false_iff in Hpiece as [Hc Hpiece]. rewrite Hc.
    rewrite (IH Hpiece), append_assoc. reflexivity.
Qed.

Lemma pathname_of_cons (part : string) (parts : list string) :
  pathname_of (part :: parts) = String "/" (part +:+ pathname_of parts).
Proof. reflexivity. Qed.

Lemma split_pathname_of (parts : list string) :
  Forall segment parts ->
  forall acc, split_from "/" acc (pathname_of parts) = acc :: parts.
Proof.
  induction 1 as [|part parts [_ Hpart] _ IH]; intros acc; [reflexivity|].
  rewrite pathname_of_cons. cbn [split_from]. change (Ascii.eqb "/" "/") with true.
  cbv iota. rewrite (split_from_app _ _ _ Hpart), IH. reflexivity.
Qed.

(** Splitting a path name gives back its segments. *)
Lemma path_parts_pathname_of (parts : list string) :
  Forall segment parts -> path_parts (pathname_of parts) = parts.
Proof.
  intros Hparts. unfold path_parts, split.
  rewrite (split_pathname_of parts Hparts). simpl.
  induction Hparts as [|part parts [Hne _] _ IH]; simpl; [reflexivity|].
  apply String.eqb_neq in Hne. rewrite Hne. simpl. congruence.
Qed.

Lemma following_In (word : string) (parts : list string) (id : string) :
  following word parts = Some id -> In id parts.
Proof.
  induction parts as [|part rest IH]; simpl; [discriminate|].
  destruct (String.eqb part word); [|auto].
  destruct rest as [|next rest]; simpl; [discriminate|].
  intros [= <-]. auto.
Qed.

Lemma following_app (word : string) (before rest : list string) :
  ~ In word before ->
  following word (before ++ word :: rest) = head rest.
Proof.
  induction before as [|part before IH]; simpl; intros Hnotin.
  - rewrite String.eqb_refl. reflexivity.
  - destruct (String.eqb part word) eqn:Hpart.
    + apply String.eqb_eq in Hpart. tauto.
    + apply IH. tauto.
Qed.

Lemma following_absent (word : string) (parts : list string) :
  ~ In word parts -> following word parts = None.
Proof.
  induction parts as [|part rest IH]; simpl; intros Hnotin; [reflexivity|].
  destruct (String.eqb part word) eqn:Hpart.
  - apply String.eqb_eq in Hpart. tauto.
  - apply IH. tauto.
Qed.

Lemma following_nil (word : string) (parts : list string) :
  last parts = None -> following word parts = None.
Proof. intros ->%last_None. reflexivity. Qed.

End UrlFacts.

(** An id that is found is a segment of the URL's path. *)
Lemma extractExecutionId_Some (URL_pathname : string -> Result string)
  (url id : string) :
  OrderWorkflow.extractExecutionId URL_pathname url = Some id ->
  url <> "" /\
  exists pathname, URL_pathname url = Ok pathname /\
    In id (OrderWorkflow.path_parts pathname) /\
    id <> "" /\ OrderWorkflow.occurs "/" id = false.
Proof.
  unfold OrderWorkflow.extractExecutionId.
  destruct (String.eqb url "") eqn:Hurl; [discriminate|].
  apply String.eqb_neq in Hurl.
  destruct (URL_pathname url) as [pathname|m]; [|discriminate]. cbv zeta.
  intros Hid. split; [exact Hurl|]. exists pathname. split; [reflexivity|].
  assert (Hpart : In id (OrderWorkflow.path_parts pathname)).
  { destruct (OrderWorkflow.following "executions" _) as [id1|] eqn:H1.
    - injection Hid as <-. apply (following_In _ _ _ H1).
    - destruct (OrderWorkflow.following "execution" _) as [id2|] eqn:H2.
      + injection Hid as <-. apply (following_In _ _ _ H2).
      + apply last_Some in Hid as (l & ->). apply in_or_app. right. left.
        reflexivity. }
  split; [exact Hpart|].
  pose proof (path_parts_segments pathname) as Hseg.
  rewrite List.Forall_forall in Hseg. apply (Hseg id Hpart).
Qed.

(** X17. The execution id taken from a workflow URL is always one of the
    segments of the URL's path: a string that is not empty and holds no
    slash.  There is no id exactly for the empty URL, for a string that is
    no URL, and for a URL whose path has no segment. *)
Theorem extractExecutionId_is_path_segment
  (URL_pathname : string -> Result string) (url : string) :
  (forall id, OrderWorkflow.extractExecutionId URL_pathname url = Some id ->
     url <> "" /\
     exists pathname, URL_pathname url = Ok pathname /\
       In id (OrderWorkflow.path_parts pathname) /\
       id <> "" /\ OrderWorkflow.occurs "/" id = false) /\
  (OrderWorkflow.extractExecutionId URL_pathname url = None <->
   url = "" \/ (exists m, URL_pathname url = Throw m) \/
   exists pathname, URL_pathname url = Ok pathname /\
     OrderWorkflow.path_parts pathname = []).
Proof.
  split; [intros id; apply extractExecutionId_Some|].
  unfold OrderWorkflow.extractExecutionId.
  destruct (String.eqb url "") eqn:Hurl.
  { apply String.eqb_eq in Hurl. tauto. }
  apply String.eqb_neq in Hurl.
  destruct (URL_pathname url) as [pathname|m]; cbv zeta.
  2:{ split; eauto. }
  split.
  - intros Hnone. right. right. exists pathname. split; [reflexivity|].
    destruct (OrderWorkflow.following "executions" _); [discriminate|].
    destruct (OrderWorkflow.following "execution" _); [discriminate|].
    apply last_None, Hnone.
  - intros [?|[[m [=]]|(pathname' & [= <-] & ->)]]; [contradiction|].
    reflexivity.
Qed.

Lemma extractExecutionId_is_path_segment_witness :
  OrderWorkflow.extractExecutionId MoreSamples.URL_pathname_sample
    "https://n8n.example.com/execution/12345" = Some "12345" /\
  OrderWorkflow.extractExecutionId MoreSamples.URL_pathname_sample
    "https://n8n.example.com" = None.
Proof.
  destruct (extractExecutionId_is_path_segment MoreSamples.URL_pathname_sample
              "https://n8n.example.com") as [_ Hnone].
  split; [reflexivity|].
  apply Hnone. right. right. exists "/". split; reflexivity.
Defined.

(** X18. For a URL whose path is made of the given segments, the id is
    the segment behind the first "executions"; without that word, the
    segment behind the first "execution"; without either word, the last
    segment. *)
Theorem extractExecutionId_precedence
  (URL_pathname : string -> Result string) (url : string)
  (parts : list string) :
  url <> "" ->
  URL_pathname url = Ok (OrderWorkflowSpec.pathname_of parts) ->
  Forall OrderWorkflowSpec.segment parts ->
  (forall before id rest,
     parts = before ++ "executions" :: id :: rest ->
     ~ In "executions" before ->
     OrderWorkflow.extractExecutionId URL_pathname url = Some id) /\
  (~ In "executions" parts ->
   forall before id rest,
     parts = before ++ "execution" :: id :: rest ->
     ~ In "execution" before ->
     OrderWorkflow.extractExecutionId URL_pathname url = Some id) /\
  (~ In "executions" parts -> ~ In "execution" parts ->
   OrderWorkflow.extractExecutionId URL_pathname url = last parts).
Proof.
  intros Hurl%String.eqb_neq Hpath Hparts.
  unfold OrderWorkflow.extractExecutionId. rewrite Hurl, Hpath. cbv zeta.
  rewrite (path_parts_pathname_of parts Hparts).
  split; [|split].
  - intros before id rest -> Hfirst.
    rewrite (following_app _ _ _ Hfirst). reflexivity.
  - intros Hnone before id rest Hshape Hfirst.
    rewrite (following_absent _ _ Hnone). subst parts.
    rewrite (following_app _ _ _ Hfirst). reflexivity.
  - intros Hnone1 Hnone2.
    rewrite (following_absent _ _ Hnone1), (following_absent _ _ Hnone2).
    destruct (last parts); reflexivity.
Qed.

Lemma extractExecutionId_precedence_witness :
  OrderWorkflow.extractExecutionId MoreSamples.URL_pathname_sample
    "https://n8n.example.com/execution/abc123/executions/12345"
  = Some "12345".
Proof.
  destruct (extractExecutionId_precedence MoreSamples.URL_pathname_sample
              "https://n8n.example.com/execution/abc123/executions/12345"
              ["execution"; "abc123"; "executions"; "12345"])
    as (Hfirst & _).
  - discriminate.
  - reflexivity.
  - repeat constructor; discriminate.
  - apply (Hfirst ["execution"; "abc123"] "12345" []); [reflexivity|].
    intros [H|[H|[]]]; discriminate.
Defined.

(** X19. The action of the order workflow route asks for at most one
    retry, and only of an id that is a segment of the path of the submitted
    URL; without such an id, as for a missing, empty or malformed URL, it
    asks for none and answers 400.  It answers 200 with the result where
    the retry returned and 500 with the message where it threw. *)
Theorem retry_only_for_url_segment (URL_pathname : string -> Result string)
  (url : option string) (retryExecution : string -> Result JsVal) :
  let answer := OrderWorkflow.action URL_pathname url retryExecution in
  (answer.2 = [] /\
   OrderWorkflow.extractExecutionId URL_pathname (default "" url) = None /\
   OrderWorkflow.status answer.1 = 400 /\ OrderWorkflow.ok answer.1 = false) \/
  (exists id pathname,
     answer.2 = [id] /\
     URL_pathname (default "" url) = Ok pathname /\
     In id (OrderWorkflow.path_parts pathname) /\
     id <> "" /\ OrderWorkflow.occurs "/" id = false /\
     match retryExecution id with
     | Ok result =>
         answer.1 = OrderWorkflow.mkActionReply true (Some result) None 200
     | Throw message =>
         answer.1 = OrderWorkflow.mkActionReply false None (Some message) 500
     end).
Proof.
  unfold OrderWorkflow.action. cbv zeta.
  destruct (OrderWorkflow.extractExecutionId URL_pathname (default "" url))
    as [id|] eqn:Hid.
  - right. destruct (extractExecutionId_Some _ _ _ Hid)
      as (_ & pathname & Hpath & Hin & Hne & Hslash).
    exists id, pathname.
    destruct (retryExecution id); simpl; auto 10.
  - left. simpl. auto.
Qed.

Local Ltac leaf :=
  simpl; rewrite ?Forall_cons, ?Forall_nil;
  repeat match goal with
         | |- _ /\ _ => split
         | |- _ <-> _ => split
         | |- forall _, _ => intro
         end;
  repeat match goal with
         | H : _ /\ _ |- _ => destruct H
         | H : _ \/ _ |- _ => destruct H
         | H : False |- _ => destruct H
         end;
  simplify_eq/=;
  try discriminate; try lia; try congruence; eauto 12.

(** X20. The action of the search route always answers, with 200, 400 or
    500.  It answers 400 exactly when it made no call, and 200 exactly
    when it made a call and every call made returned, so an answer of 500
    does not tell that the record is unchanged.  The first call is the
    only one that changes a record: the update of the submitted field
    where the intent is "update", the deletion of the record for every
    other intent.  The change log is written only behind a change that
    returned, only for a submitted order, and with the entry of that
    change. *)
Theorem search_action_calls (remote : SearchAction.Remote)
  (form : SearchAction.Form) (calls0 : list SearchAction.Call) :
  exists reply new,
    SearchAction.action remote form calls0 = (Done reply, calls0 ++ new) /\
    (SearchAction.ok reply = true <-> SearchAction.status reply = 200) /\
    (SearchAction.status reply = 400 <-> new = []) /\
    (SearchAction.status reply = 200 <->
     new <> [] /\ Forall (fun c => remote c = Ok tt) new) /\
    (SearchAction.status reply = 200 \/ SearchAction.status reply = 400 \/
     SearchAction.status reply = 500) /\
    (forall c rest, new = c :: rest ->
       Forall (fun c' => SearchAction.is_change c' = false) rest /\
       exists t r,
         SearchAction.present (SearchAction.tableId form) = Some t /\
         SearchAction.present (SearchAction.recordId form) = Some r /\
         (c = SearchAction.CallDelete t r /\
          SearchAction._action form <> Some "update" \/
          exists f,
            c = SearchAction.CallUpdate t r f (SearchAction.value form) /\
            SearchAction._action form = Some "update" /\
            SearchAction.present (SearchAction.fieldId form) = Some f)) /\
    (forall gid entry, In (SearchAction.CallAppend gid entry) new ->
       SearchAction.present (SearchAction.orderGid form) = Some gid /\
       exists change, new = [change; SearchAction.CallAppend gid entry] /\
         remote change = Ok tt /\
         SearchActionSpec.entry_of form change = Some entry).
Proof.
  unfold SearchAction.action.
  destruct (SearchAction.present (SearchAction.tableId form)) as [t|] eqn:Ht.
  2:{ exists (SearchAction.failed "Missing tableId or recordId" 400), [].
      rewrite app_nil_r. split; [reflexivity|]. leaf. }
  destruct (SearchAction.present (SearchAction.recordId form)) as [r|] eqn:Hr.
  2:{ exists (SearchAction.failed "Missing tableId or recordId" 400), [].
      rewrite app_nil_r. split; [reflexivity|]. leaf. }
  destruct (bool_decide (SearchAction._action form = Some "update")) eqn:Hintent.
  - apply bool_decide_eq_true in Hintent.
    destruct (SearchAction.present (SearchAction.fieldId form)) as [f|] eqn:Hf.
    2:{ exists (SearchAction.failed "Missing fieldId" 400), [].
        rewrite app_nil_r. split; [reflexivity|]. leaf. }
    cbv zeta. unfold try_catch, bind, SearchAction.call, SearchAction.log.
    destruct (remote (SearchAction.CallUpdate t r f (SearchAction.value form)))
      as [[]|m] eqn:Hchange.
    + destruct (SearchAction.present (SearchAction.orderGid form))
        as [gid|] eqn:Hgid.
      * unfold SearchAction.call.
        destruct (remote (SearchAction.CallAppend gid _)) as [[]|m] eqn:Happend.
        -- eexists SearchAction.ok_reply, [_; _]. rewrite <- app_assoc.
           split; [reflexivity|]. leaf.
        -- eexists (SearchAction.failed m 500), [_; _]. rewrite <- app_assoc.
           split; [reflexivity|]. leaf.
      * eexists SearchAction.ok_reply, [_]. split; [reflexivity|]. leaf.
    + eexists (SearchAction.failed m 500), [_]. split; [reflexivity|]. leaf.
  - apply bool_decide_eq_false in Hintent.
    unfold try_catch, bind, SearchAction.call, SearchAction.log.
    destruct (remote (SearchAction.CallDelete t r)) as [[]|m] eqn:Hchange.
    + destruct (SearchAction.present (SearchAction.orderGid form))
        as [gid|] eqn:Hgid.
      * unfold SearchAction.call.
        destruct (remote (SearchAction.CallAppend gid _)) as [[]|m] eqn:Happend.
        -- eexists SearchAction.ok_reply, [_; _]. rewrite <- app_assoc.
           split; [reflexivity|]. leaf.
        -- eexists (SearchAction.failed m 500), [_; _]. rewrite <- app_assoc.
           split; [reflexivity|]. leaf.
      * eexists SearchAction.ok_reply, [_]. split; [reflexivity|]. leaf.
    + eexists (SearchAction.failed m 500), [_]. split; [reflexivity|]. leaf.
Qed.

Lemma search_action_calls_witness :
  exists reply,
    SearchAction.action MoreSamples.log_down MoreSamples.edit_form []
    = (Done reply,
       [SearchAction.CallUpdate "t1" "rec1" "f2" (Some "Jansen BV");
        SearchAction.CallAppend "gid://shopify/Order/123"
          (SearchAction.softr_field_update "t1" "rec1" "Customer" "Jansen"
             (Some "Jansen BV"))]) /\
    SearchAction.status reply = 500.
Proof.
  destruct (search_action_calls MoreSamples.log_down MoreSamples.edit_form [])
    as (reply & new & Hrun & _).
  exists reply. rewrite Hrun. vm_compute in Hrun.
  injection Hrun as <- <-. split; reflexivity.
Defined.

Section TimelineOrder.

Import Detail.

(** Inserting a node leaves the nodes of every start time in their order,
    the inserted one ahead of those of its own start time. *)
Lemma sort_insert_filter (k : Z) (x : NodeRunSummary) (sorted : list NodeRunSummary) :
  List.filter (fun n => start_key n =? k) (sort_insert compare_start x sorted)
  = List.filter (fun n => start_key n =? k) (x :: sorted).
Proof.
  induction sorted as [|y rest IH]; [reflexivity|].
  cbn [sort_insert]. unfold compare_start at 1.
  destruct (start_key x - start_key y <=? 0) eqn:Hle; [reflexivity|].
  apply Z.leb_gt in Hle. cbn [List.filter] in *. rewrite IH.
  destruct (start_key x =? k) eqn:Hx, (start_key y =? k) eqn:Hy;
    try reflexivity.
  apply Z.eqb_eq in Hx, Hy. lia.
Qed.

Lemma Array_sort_filter (k : Z) (l : list NodeRunSummary) :
  List.filter (fun n => start_key n =? k) (Array_sort compare_start l)
  = List.filter (fun n => start_key n =? k) l.
Proof.
  unfold Array_sort. induction l as [|x l IH]; [reflexivity|].
  cbn [foldr]. rewrite sort_insert_filter. cbn [List.filter].
  rewrite IH. reflexivity.
Qed.

(** The last segment holds no dot and ends the type, behind nothing or
    behind a dot. *)
Lemma last_segment_from_spec (s : string) :
  forall acc, OrderWorkflow.occurs "." acc = false ->
    OrderWorkflow.occurs "." (last_segment_from acc s) = false /\
    exists before,
      acc +:+ s = before +:+ last_segment_from acc s /\
      (before = "" \/ exists before', before = before' +:+ ".") /\
      (OrderWorkflow.occurs "." s = false -> before = "").
Proof.
  induction s as [|c s IH]; intros acc Hacc; cbn [last_segment_from].
  - split; [exact Hacc|]. exists "". rewrite append_nil_r. auto.
  - destruct (Ascii.eqb c ".") eqn:Hc.
    + destruct (IH "" eq_refl) as (Hno & before & Heq & Hends & _).
      split; [exact Hno|]. apply Ascii.eqb_eq in Hc. subst c.
      exists (acc +:+ "." +:+ before). simpl in Heq.
      rewrite !append_assoc, <- Heq. split; [reflexivity|].
      split; [|simpl; discriminate].
      right. destruct Hends as [->|(before' & ->)].
      * exists acc. reflexivity.
      * exists (acc +:+ "." +:+ before'). rewrite !append_assoc. reflexivity.
    + destruct (IH (acc +:+ String c ""))
        as (Hno & before & Heq & Hends & Hplain).
      { rewrite occurs_app, Hacc. simpl. rewrite Hc. reflexivity. }
      split; [exact Hno|]. exists before.
      rewrite append_assoc in Heq. split; [exact Heq|].
      split; [exact Hends|]. simpl. rewrite Hc. exact Hplain.
Qed.

End TimelineOrder.

(** X21. The sort of the timeline is stable: the nodes of one start time,
    a node without start time counting as started at 0, stand in the
    timeline in the order of the workflow's node list. *)
Theorem timeline_keeps_workflow_order (execution : Detail.Execution) (k : Z) :
  List.filter (fun n => Detail.start_key n =? k) (Detail.timeline execution)
  = List.filter (fun n => Detail.start_key n =? k)
      (List.filter Detail.ran
         (map (Detail.summarize (default ∅ (Detail.runData execution)))
              (default [] (Detail.workflowNodes execution)))).
Proof. unfold Detail.timeline. cbv zeta. apply Array_sort_filter. Qed.

(** X22. The type shown for a node is the part of the node's type behind
    its last dot: it holds no dot, the type is that part behind nothing or
    behind a prefix that ends in a dot, and a type without a dot is shown
    whole. *)
Theorem last_segment_behind_last_dot (t : string) :
  OrderWorkflow.occurs "." (Detail.last_segment t) = false /\
  exists before,
    t = before +:+ Detail.last_segment t /\
    (before = "" \/ exists before', before = before' +:+ ".") /\
    (OrderWorkflow.occurs "." t = false -> Detail.last_segment t = t).
Proof.
  unfold Detail.last_segment.
  destruct (last_segment_from_spec t "" eq_refl)
    as (Hno & before & Heq & Hends & Hplain).
  split; [exact Hno|]. exists before. simpl in Heq.
  split; [exact Heq|]. split; [exact Hends|].
  intros Hnodot. rewrite (Hplain Hnodot) in Heq.
  change ("" +:+ ?x) with x in Heq. congruence.
Qed.

Lemma last_segment_behind_last_dot_witness :
  Detail.last_segment "n8n-nodes-base.httpRequest" = "httpRequest" /\
  Detail.last_segment "webhook" = "webhook".
Proof.
  split; [reflexivity|].
  destruct (last_segment_behind_last_dot "webhook") as (_ & _ & _ & _ & Hplain).
  apply Hplain. reflexivity.
Defined.
